(** * Multi-dataset sampling and batch grouping (DDETRS custom_dataset_dataloader)

    A shallow embedding of
    [blueglass/modeling/modelstore/generateu/projects/DDETRS/ddetrs/data/custom_dataset_dataloader.py]
    and the properties of its record merger, weighted sampler and batch
    groupers.

    Modelling conventions.
    - Python exceptions are the [Raise] outcomes of the [result] monad.
    - Python floats and the entries of float32 tensors are real numbers:
      rounding and overflow are not modelled.  A tensor entry is an [ext]:
      either a finite real or [NonFin], which stands for the inf/nan that
      torch produces when a tensor is divided by zero (torch does not raise
      there, Python's own float division does).
    - A dataset record is a Python dict; the keys the code reads are the
      fields of [record].  The keys ["annotations"] and ["pos_category_ids"]
      may be absent ([None]); reading an absent key raises [KeyError]. *)

From Stdlib Require Import Reals Lra Lia ZArith String.
From stdpp Require Import base option list gmap strings.

(* ================================================================= *)
(** ** Python outcomes *)

Inductive exn :=
  | AssertionError | IndexError | KeyError | ValueError
  | ZeroDivisionError | RuntimeError.

Inductive result (A : Type) :=
  | Ok (a : A)
  | Raise (e : exn).
Arguments Ok {A} a.
Arguments Raise {A} e.

#[global] Instance result_ret : MRet result := fun A a => Ok a.
#[global] Instance result_bind : MBind result := fun A B f m =>
  match m with
  | Ok a => f a
  | Raise e => Raise e
  end.

(** [assert b] *)
Definition py_assert (b : bool) : result unit :=
  if b then Ok tt else Raise AssertionError.

(** [l[i]] for a non-negative index. *)
Definition index {A} (l : list A) (i : nat) : result A :=
  match l !! i with
  | Some a => Ok a
  | None => Raise IndexError
  end.

(** [l[a:b]] for non-negative bounds; slicing never raises. *)
Definition slice {A} (l : list A) (a b : nat) : list A :=
  take (b - a) (drop a l).

(** A [for] loop that threads a state and stops at the first exception. *)
Fixpoint foldM {A St} (f : St -> A -> result St) (s : St) (l : list A)
  : result St :=
  match l with
  | [] => Ok s
  | x :: l' => s' ← f s x; foldM f s' l'
  end.

(** A list comprehension whose body may raise. *)
Fixpoint forM {A B} (l : list A) (f : A -> result B) : result (list B) :=
  match l with
  | [] => Ok []
  | x :: l' => y ← f x; ys ← forM l' f; Ok (y :: ys)
  end.

(** A dict comprehension over the items of a dict, with a body that may
    raise.  (Python visits the items in insertion order, [map_fold] in key
    order; the two agree on whether some item raises.) *)
Definition dict_forM {A B} (m : gmap nat A) (f : A -> result B)
  : result (gmap nat B) :=
  map_fold (fun k v acc => acc' ← acc; b ← f v; Ok (<[k := b]> acc'))
           (Ok ∅) m.

(* ================================================================= *)
(** ** Numbers *)

#[global] Instance R_eq_dec : EqDecision R := Req_dec_T.
#[global] Instance Rlt_decision (x y : R) : Decision (x < y)%R := Rlt_dec x y.
#[global] Instance Rle_decision (x y : R) : Decision (x <= y)%R := Rle_dec x y.

Section PythonFloat.
Local Open Scope R_scope.

(** [x / y] on Python numbers. *)
Definition pydiv (x y : R) : result R :=
  if decide (y = 0) then Raise ZeroDivisionError else Ok (x / y).

(** [math.sqrt(x)] *)
Definition pysqrt (x : R) : result R :=
  if decide (x < 0) then Raise ValueError else Ok (sqrt x).

(** [n ** l] for an int [n >= 0] and a float [l]. *)
Definition pypow (n : nat) (l : R) : result R :=
  match n with
  | O => if decide (l < 0) then Raise ZeroDivisionError
         else if decide (l = 0) then Ok 1 else Ok 0
  | S _ => Ok (Rpower (INR n) l)
  end.

(** [sum(l)]: a left fold from 0. *)
Definition pysum (l : list R) : R := foldl Rplus 0 l.

(** [max(s, default=d)] *)
Definition pymax_default (l : list R) (d : R) : R :=
  match l with
  | [] => d
  | x :: l' => foldl Rmax x l'
  end.
End PythonFloat.

(** Entries of a float tensor. *)
Inductive ext :=
  | Fin (x : R)
  | NonFin.

Definition tensor := list ext.

Section Torch.
Local Open Scope R_scope.

Definition eadd (a b : ext) : ext :=
  match a, b with
  | Fin x, Fin y => Fin (x + y)
  | _, _ => NonFin
  end.

Definition emul (a b : ext) : ext :=
  match a, b with
  | Fin x, Fin y => Fin (x * y)
  | _, _ => NonFin
  end.

(** Division by zero gives inf or nan, never an exception.  (No divisor
    in this file can itself be inf.) *)
Definition ediv (a b : ext) : ext :=
  match a, b with
  | Fin x, Fin y => if decide (y = 0) then NonFin else Fin (x / y)
  | _, _ => NonFin
  end.

(** [torch.ones(s)] *)
Definition ones (s : nat) : tensor := replicate s (Fin 1).

(** [torch.tensor(l)] *)
Definition of_list (l : list R) : tensor := Fin <$> l.

(** [t * x] and [t / x] for a tensor [t] and a scalar [x] (a Python number
    or a 0-dim tensor). *)
Definition tmul_s (t : tensor) (x : ext) : tensor := (fun e => emul e x) <$> t.
Definition tdiv_s (t : tensor) (x : ext) : tensor := (fun e => ediv e x) <$> t.

(** [t.sum()] *)
Definition tsum (t : tensor) : ext := foldl eadd (Fin 0) t.

(** [a * b] on 1-d tensors, with broadcasting. *)
Definition tmul (a b : tensor) : result tensor :=
  if decide (length a = length b) then Ok (zip_with emul a b)
  else match a, b with
       | [x], _ => Ok (emul x <$> b)
       | _, [y] => Ok ((fun x => emul x y) <$> a)
       | _, _ => Raise RuntimeError
       end.

(** [torch.cat(ts)]: an empty list of tensors is rejected, with a
    [ValueError] ("expected a non-empty list of Tensors"). *)
Definition cat (ts : list tensor) : result tensor :=
  match ts with
  | [] => Raise ValueError
  | _ => Ok (concat ts)
  end.
End Torch.

(* ================================================================= *)
(** ** Records *)

Record annotation := { category_id : nat }.

Record record := {
  dataset_source : nat;
  width : Z;
  height : Z;
  annotations : option (list annotation);
  pos_category_ids : option (list nat)
}.

(** [d["dataset_source"] = i] *)
Definition set_source (i : nat) (d : record) : record :=
  {| dataset_source := i;
     width := width d;
     height := height d;
     annotations := annotations d;
     pos_category_ids := pos_category_ids d |}.

(** [d[key]] for the two optional keys. *)
Definition getkey {A} (v : option A) : result A :=
  match v with
  | Some a => Ok a
  | None => Raise KeyError
  end.

(** [{ann["category_id"] for ann in d["annotations"]}]: the set is kept as a
    duplicate-free list (what is computed from it does not depend on the
    order of its elements). *)
Definition category_set (d : record) : result (list nat) :=
  anns ← getkey (annotations d); Ok (remove_dups (category_id <$> anns)).

(** [d["pos_category_ids"]] *)
Definition tag_ids (d : record) : result (list nat) :=
  getkey (pos_category_ids d).

(* ================================================================= *)
(** ** Record Source Merger *)

(** The dicts returned by the dataset catalog are objects: the merger writes
    the tag into them.  A [store] maps an object identity to its current
    contents, and a dataset is a list of identities. *)
Definition loc := nat.
Definition store := loc -> record.

Definition store_set_source (h : store) (l : loc) (i : nat) : store :=
  fun l' => if decide (l' = l) then set_source i (h l) else h l'.

Section Merger.
(** The two detectron2 filters (external). *)
Context (filter_images_with_only_crowd_annotations :
           store -> list loc -> list loc).
Context (filter_images_with_few_keypoints :
           store -> list loc -> Z -> list loc).

(** Lines 186-199: one round of the tagging loop.  (The histogram printed
    inside the [try] block is log output only.) *)
Definition tag_dataset (h : store) (source_id : nat) (dicts : list loc)
  : result store :=
  _ ← py_assert (negb (length dicts =? 0));
  Ok (foldl (fun h d => store_set_source h d source_id) h dicts).

Fixpoint tag_loop (h : store) (source_id : nat) (dataset_dicts : list (list loc))
  : result store :=
  match dataset_dicts with
  | [] => Ok h
  | dicts :: rest =>
      h' ← tag_dataset h source_id dicts; tag_loop h' (S source_id) rest
  end.

(** Lines 203-207: the body of the filter loop, as a function of the loop
    variable [dataset_dict]; it returns the value the variable is rebound
    to. *)
Definition filter_body (h : store) (filter_empty : bool) (min_keypoints : Z)
    (dataset_dict : list loc) : result (list loc) :=
  d0 ← index dataset_dict 0;
  let has_instances := bool_decide (is_Some (annotations (h d0))) in
  let dataset_dict :=
    if filter_empty && has_instances
    then filter_images_with_only_crowd_annotations h dataset_dict
    else dataset_dict in
  let dataset_dict :=
    if (0 <? min_keypoints)%Z && has_instances
    then filter_images_with_few_keypoints h dataset_dict min_keypoints
    else dataset_dict in
  Ok dataset_dict.

(** Lines 202-207: the loop assigns to its own variable only, the list
    [dataset_dicts] it walks over is not written. *)
Definition filter_loop (h : store) (filter_empty : bool) (min_keypoints : Z)
    (dataset_dicts : list (list loc)) : result (list (list loc)) :=
  _ ← forM dataset_dicts (filter_body h filter_empty min_keypoints);
  Ok dataset_dicts.

(** [catalog] pairs each dataset name with the list that
    [DatasetCatalog.get] returns for it.  The function returns the merged
    list of dicts and the store after tagging. *)
Definition get_detection_dataset_dicts_with_source
    (h : store) (catalog : list (string * list loc)) (filter_empty : bool)
    (min_keypoints : Z) (proposal_files : option (list string))
  : result (list loc * store) :=
  let dataset_names := catalog.*1 in
  _ ← py_assert (negb (length dataset_names =? 0));
  let dataset_dicts := catalog.*2 in
  _ ← forM dataset_dicts (fun dicts => py_assert (negb (length dicts =? 0)));
  h' ← tag_loop h 0 dataset_dicts;
  _ ← py_assert (bool_decide (proposal_files = None));
  dataset_dicts ← filter_loop h' filter_empty min_keypoints dataset_dicts;
  Ok (concat dataset_dicts, h').
End Merger.

(* ================================================================= *)
(** ** Repeat-factor and class-balance estimators *)

(** [category_freq[c] += 1] on a [defaultdict(int)] *)
Definition incr (category_freq : gmap nat nat) (c : nat) : gmap nat nat :=
  <[c := (default 0 (category_freq !! c) + 1)%nat]> category_freq.

(** The counting loop shared by the estimators: [ids] reads the identity
    set of a record. *)
Definition count_ids (ids : record -> result (list nat))
    (dataset_dicts : list record) : result (gmap nat nat) :=
  foldM (fun category_freq dataset_dict =>
           cat_ids ← ids dataset_dict;
           Ok (foldl incr category_freq cat_ids))
        ∅ dataset_dicts.

Section Estimators.
Local Open Scope R_scope.

(** Lines 369-389 with the key that is read left open. *)
Definition repeat_factors_from_ids (ids : record -> result (list nat))
    (dataset_dicts : list record) (repeat_thresh : R) : result tensor :=
  category_freq ← count_ids ids dataset_dicts;
  let num_images := length dataset_dicts in
  category_freq ← dict_forM category_freq
                    (fun v => pydiv (INR v) (INR num_images));
  category_rep ← dict_forM category_freq
                   (fun cat_freq =>
                      q ← pydiv repeat_thresh cat_freq;
                      r ← pysqrt q;
                      Ok (Rmax 1 r));
  rep_factors ← forM dataset_dicts
                  (fun dataset_dict =>
                     cat_ids ← ids dataset_dict;
                     reps ← forM cat_ids
                              (fun cat_id => getkey (category_rep !! cat_id));
                     Ok (pymax_default reps 1));
  Ok (of_list rep_factors).

(** Lines 367-389. *)
Definition repeat_factors_from_tag_frequency
    (dataset_dicts : list record) (repeat_thresh : R) : result tensor :=
  repeat_factors_from_ids tag_ids dataset_dicts repeat_thresh.

(** Modelled from the spec: detectron2's
    [RepeatFactorTrainingSampler.repeat_factors_from_category_frequency]
    is not among the sources.  Section 4.2: the algorithm is identical for
    both annotation kinds, differing only in which identity set is read;
    for boxes it is the set of category ids of the record's annotations. *)
Definition repeat_factors_from_category_frequency
    (dataset_dicts : list record) (repeat_thresh : R) : result tensor :=
  repeat_factors_from_ids category_set dataset_dicts repeat_thresh.

(** Lines 312-322. *)
Definition _get_class_balance_factor_per_dataset
    (dataset_dicts : list record) (l : R) : result tensor :=
  category_freq ← count_ids category_set dataset_dicts;
  ret ← forM dataset_dicts
          (fun dataset_dict =>
             cat_ids ← category_set dataset_dict;
             terms ← forM cat_ids
                       (fun cat_id =>
                          p ← pypow (default 0%nat (category_freq !! cat_id)) l;
                          pydiv 1 p);
             Ok (pysum terms));
  Ok (of_list ret).
End Estimators.

(* ================================================================= *)
(** ** Weighted infinite sampler: construction *)

(** What [detectron2.utils.comm] answers in this process. *)
Record comm := {
  shared_random_seed : Z;
  get_rank : nat;
  get_world_size : nat
}.

Module MultiDatasetSampler.
Record t := {
  sizes : list nat;
  _seed : Z;
  _rank : nat;
  _world_size : nat;
  dataset_ids : list nat;
  weights : tensor;
  sample_epoch_size : nat
}.

Section Init.
Local Open Scope R_scope.

(** Lines 227-229: [sizes[d["dataset_source"]] += 1] *)
Definition bump (sizes : list nat) (d : record) : result (list nat) :=
  n ← index sizes (dataset_source d);
  Ok (<[dataset_source d := (n + 1)%nat]> sizes).

Definition count_sizes (dataset_ratio : list R) (dataset_dicts : list record)
  : result (list nat) :=
  foldM bump (replicate (length dataset_ratio) 0%nat) dataset_dicts.

(** Lines 247-251.  [max(sizes)] is only evaluated when the zip is not
    empty, that is when [sizes] is not empty. *)
Definition dataset_weight (dataset_ratio : list R) (sizes : list nat)
  : result tensor :=
  cat (zip_with
         (fun r s =>
            tdiv_s
              (tmul_s
                 (tdiv_s (tmul_s (ones s) (Fin (INR (max_list sizes))))
                         (Fin (INR s)))
                 (Fin r))
              (Fin (pysum dataset_ratio)))
         dataset_ratio sizes).

(** [factor * (s / factor.sum())] *)
Definition renormalize (s : nat) (factor : tensor) : tensor :=
  tmul_s factor (ediv (Fin (INR s)) (tsum factor)).

(** The [for i, s in enumerate(sizes)] loops of lines 253-271 and
    278-290: [body i s st] is the factor of dataset [i], whose records
    are [dataset_dicts[st : st + s]]. *)
Fixpoint factors_loop (body : nat -> nat -> nat -> result tensor)
    (i st : nat) (sizes : list nat) : result (list tensor) :=
  match sizes with
  | [] => Ok []
  | s :: rest =>
      factor ← body i s st;
      factors ← factors_loop body (S i) (st + s)%nat rest;
      Ok (factor :: factors)
  end.

(** Lines 256-268. *)
Definition rfs_body (dataset_dicts : list record) (use_rfs : list bool)
    (dataset_ann : list string) (repeat_threshold : R) (i s st : nat)
  : result tensor :=
  u ← index use_rfs i;
  if (u : bool) then
    a ← index dataset_ann i;
    let rfs_func :=
      if String.eqb a "box" then repeat_factors_from_category_frequency
      else repeat_factors_from_tag_frequency in
    rfs_factor ← rfs_func (slice dataset_dicts st (st + s)) repeat_threshold;
    Ok (renormalize s rfs_factor)
  else Ok (ones s).

(** Lines 281-287; [l] keeps its default 1.0. *)
Definition cas_body (dataset_dicts : list record) (use_cas : list bool)
    (i s st : nat) : result tensor :=
  u ← index use_cas i;
  if (u : bool) then
    cas_factor ← _get_class_balance_factor_per_dataset
                   (slice dataset_dicts st (st + s)) 1;
    Ok (renormalize s cas_factor)
  else Ok (ones s).

(** Lines 216-291. *)
Definition __init__ (c : comm) (dataset_dicts : list record)
    (dataset_ratio : list R) (use_rfs use_cas : list bool)
    (dataset_ann : list string) (repeat_threshold : R) (seed : option Z)
  : result t :=
  sizes ← count_sizes dataset_ratio dataset_dicts;
  _ ← py_assert (bool_decide (length dataset_ratio = length sizes));
  let seed := match seed with
              | None => shared_random_seed c
              | Some seed => seed
              end in
  let dataset_ids := dataset_source <$> dataset_dicts in
  dataset_weight ← dataset_weight dataset_ratio sizes;
  rfs_factors ← factors_loop
                  (rfs_body dataset_dicts use_rfs dataset_ann repeat_threshold)
                  0 0 sizes;
  rfs_factors ← cat rfs_factors;
  weights ← tmul dataset_weight rfs_factors;
  let sample_epoch_size := length weights in
  cas_factors ← factors_loop (cas_body dataset_dicts use_cas) 0 0 sizes;
  cas_factors ← cat cas_factors;
  weights ← tmul dataset_weight cas_factors;
  Ok {| sizes := sizes;
        _seed := seed;
        _rank := get_rank c;
        _world_size := get_world_size c;
        dataset_ids := dataset_ids;
        weights := weights;
        sample_epoch_size := sample_epoch_size |}.
End Init.
End MultiDatasetSampler.

(* ================================================================= *)
(** ** Weighted infinite sampler: iteration *)

(** [torch.Generator] (external): a seedable state from which one weighted
    draw at a time is taken.  [draw w g] is an index into [w]. *)
Class Generator := {
  gen : Type;
  manual_seed : Z -> gen;
  draw : tensor -> gen -> nat * gen;
  draw_lt : forall w g, w <> [] -> ((draw w g).1 < length w)%nat
}.

(** An iterator is a state with a [next] that yields an item and the state
    to resume from. *)
Definition iterator (St A : Type) := St -> result (A * St).

(** [list(itertools.islice(it, k))]: the first [k] items. *)
Fixpoint take_iter {St A} (next : iterator St A) (k : nat) (st : St)
  : result (list A) :=
  match k with
  | O => Ok []
  | S k' => '(x, st') ← next st; xs ← take_iter next k' st'; Ok (x :: xs)
  end.

(** The iterator state after [k] items have been consumed. *)
Fixpoint drain {St A} (next : iterator St A) (k : nat) (st : St) : result St :=
  match k with
  | O => Ok st
  | S k' => '(_, st') ← next st; drain next k' st'
  end.

(** The item at position [p] of the stream that starts in state [st]. *)
Definition item {St A} (next : iterator St A) (st : St) (p : nat) : result A :=
  st' ← drain next p st; '(x, _) ← next st'; Ok x.

(** [itertools.islice(it, start, None, step)]: [skip] is the number of items
    of [it] that the next call discards before it yields one. *)
Record islice_state (St : Type) := { inner : St; skip : nat }.
Arguments inner {St} _.
Arguments skip {St} _.

Definition islice_next {St A} (next : iterator St A) (step : nat)
  : iterator (islice_state St) A :=
  fun st =>
    st' ← drain next (skip st) (inner st);
    '(x, st'') ← next st';
    Ok (x, {| inner := st''; skip := step - 1 |}).

(** [islice] itself rejects a step below 1. *)
Definition islice {St} (it : St) (start step : nat)
  : result (islice_state St) :=
  if (step =? 0)%nat then Raise ValueError
  else Ok {| inner := it; skip := start |}.

Section Iteration.
Context `{G : Generator}.
Import MultiDatasetSampler.
Local Open Scope R_scope.

(** torch rejects weights that are negative, inf or nan, or that sum to
    zero, and a request for no sample. *)
Definition valid_weights (w : tensor) : bool :=
  forallb (fun e => match e with
                    | Fin x => bool_decide (0 <= x)
                    | NonFin => false
                    end) w
  && match tsum w with
     | Fin total => bool_decide (0 < total)
     | NonFin => false
     end.

Fixpoint draws (w : tensor) (n : nat) (g : gen) : list nat * gen :=
  match n with
  | O => ([], g)
  | S n' => let '(i, g') := draw w g in
            let '(ids, g'') := draws w n' g' in
            (i :: ids, g'')
  end.

(** [torch.multinomial(w, num_samples, generator=g, replacement=True)] *)
Definition multinomial (w : tensor) (num_samples : nat) (g : gen)
  : result (list nat * gen) :=
  if (num_samples =? 0)%nat || negb (valid_weights w)
  then Raise RuntimeError
  else Ok (draws w num_samples g).

(** The suspended generator of [_infinite_indices]: the torch generator
    and the part of [ids] that [yield from] has not handed out yet. *)
Record indices_state := { g : gen; pending : list nat }.

(** Lines 300-301. *)
Definition _infinite_indices (self : t) : indices_state :=
  {| g := manual_seed (_seed self); pending := [] |}.

(** Lines 306-309: [nums], computed and dropped. *)
Definition nums (self : t) (ids : list nat) : result (list nat) :=
  forM (seq 0 (length (sizes self)))
       (fun i =>
          src ← forM ids (index (dataset_ids self));
          Ok (length (filter (fun x => x = i) src))).

(** Lines 302-310: resume the generator up to its next [yield]. *)
Definition indices_next (self : t) : iterator indices_state nat :=
  fun st =>
    match pending st with
    | i :: rest => Ok (i, {| g := g st; pending := rest |})
    | [] =>
        '(ids, g') ← multinomial (weights self) (sample_epoch_size self) (g st);
        _ ← nums self ids;
        match ids with
        | i :: rest => Ok (i, {| g := g'; pending := rest |})
        | [] => Raise RuntimeError (* not reached: [multinomial] has
                                      raised when asked for no sample *)
        end
    end.

(** Lines 293-297.  [__iter__] is a generator function: calling it runs
    nothing and hands back a generator object.  The body starts at the first
    [next] (where [islice] is created and may reject its step) and from then
    on stays suspended inside [yield from]. *)
Inductive iter_state :=
  | Created
  | Running (it : islice_state indices_state).

Definition __iter__ (self : t) : result iter_state := Ok Created.

Definition iter_next (self : t) : iterator iter_state nat :=
  fun st =>
    it ← match st with
         | Created =>
             islice (_infinite_indices self) (_rank self) (_world_size self)
         | Running it => Ok it
         end;
    '(x, it') ← islice_next (indices_next self) (_world_size self) it;
    Ok (x, Running it').

(** The first [k] indices a consumer of the sampler receives. *)
Definition first_indices (self : t) (k : nat) : result (list nat) :=
  it ← __iter__ self; take_iter (iter_next self) k it.

(** The first [n] draws of the global stream, before sharding. *)
Definition global_prefix (self : t) (n : nat) : result (list nat) :=
  take_iter (indices_next self) n (_infinite_indices self).

(** Position [p] of the global stream. *)
Definition global_item (self : t) (p : nat) : result nat :=
  item (indices_next self) (_infinite_indices self) p.

(** What iteration needs of a sampler to go on forever: something to
    draw, weights torch accepts, and a dataset id for every weight. *)
Definition ready (self : t) : Prop :=
  (1 <= sample_epoch_size self)%nat
  /\ valid_weights (weights self) = true
  /\ (length (weights self) <= length (dataset_ids self))%nat.
End Iteration.

(** The stream positions handed to rank [r] out of [w]. *)
Definition positions (r w : nat) : nat -> Prop :=
  fun p => exists k, p = r + k * w.

(* ================================================================= *)
(** ** Batch groupers *)

Module MDAspectRatioGroupedDataset.
Record t := { batch_size : Z; _buckets : list (list record) }.

(** Lines 326-332. *)
Definition __init__ (batch_size : Z) (num_datasets : nat) : t :=
  {| batch_size := batch_size;
     _buckets := replicate (2 * num_datasets) [] |}.

(** Lines 336-343: the loop body for one incoming record; the second
    component is the batch that is yielded, if any. *)
Definition step (self : t) (d : record) : result (t * option (list record)) :=
  let (w, h) := (width d, height d) in
  let aspect_ratio_bucket_id := if (w >? h)%Z then 0 else 1 in
  let bucket_id := dataset_source d * 2 + aspect_ratio_bucket_id in
  bucket ← index (_buckets self) bucket_id;
  let bucket := bucket ++ [d] in
  if (Z.of_nat (length bucket) =? batch_size self)%Z
  then Ok ({| batch_size := batch_size self;
              _buckets := <[bucket_id := []]> (_buckets self) |},
           Some bucket)
  else Ok ({| batch_size := batch_size self;
              _buckets := <[bucket_id := bucket]> (_buckets self) |},
           None).

(** Lines 334-343 on a finite prefix of the input: the batches yielded,
    and the grouper at the end or the exception that stopped it. *)
Fixpoint __iter__ (self : t) (dataset : list record)
  : list (list record) * result t :=
  match dataset with
  | [] => ([], Ok self)
  | d :: rest =>
      match step self d with
      | Raise e => ([], Raise e)
      | Ok (self', out) =>
          let (batches, r) := __iter__ self' rest in
          (option_list out ++ batches, r)
      end
  end.
End MDAspectRatioGroupedDataset.

Module DIFFMDAspectRatioGroupedDataset.
Record t := { batch_sizes : list Z; _buckets : list (list record) }.

(** Lines 347-351. *)
Definition __init__ (batch_sizes : list Z) (num_datasets : nat) : t :=
  {| batch_sizes := batch_sizes;
     _buckets := replicate (2 * num_datasets) [] |}.

(** Lines 355-364. *)
Definition step (self : t) (d : record) : result (t * option (list record)) :=
  let (w, h) := (width d, height d) in
  let aspect_ratio_bucket_id := if (w >? h)%Z then 0 else 1 in
  let bucket_id := dataset_source d * 2 + aspect_ratio_bucket_id in
  bucket ← index (_buckets self) bucket_id;
  let bucket := bucket ++ [d] in
  target ← index (batch_sizes self) (dataset_source d);
  if (Z.of_nat (length bucket) =? target)%Z
  then Ok ({| batch_sizes := batch_sizes self;
              _buckets := <[bucket_id := []]> (_buckets self) |},
           Some bucket)
  else Ok ({| batch_sizes := batch_sizes self;
              _buckets := <[bucket_id := bucket]> (_buckets self) |},
           None).

(** Lines 353-364 on a finite prefix of the input. *)
Fixpoint __iter__ (self : t) (dataset : list record)
  : list (list record) * result t :=
  match dataset with
  | [] => ([], Ok self)
  | d :: rest =>
      match step self d with
      | Raise e => ([], Raise e)
      | Ok (self', out) =>
          let (batches, r) := __iter__ self' rest in
          (option_list out ++ batches, r)
      end
  end.
End DIFFMDAspectRatioGroupedDataset.

(* ================================================================= *)
(** ** Notions used in the statements *)

(** The bucket a record goes to, and its aspect class. *)
Definition aspect_class (d : record) : bool := (width d >? height d)%Z.

Definition bucket_of (d : record) : nat :=
  dataset_source d * 2 + (if aspect_class d then 0 else 1).

(** All members of a batch share the dataset source and the aspect class. *)
Definition homogeneous (batch : list record) : Prop :=
  forall d1 d2, d1 ∈ batch -> d2 ∈ batch ->
    dataset_source d1 = dataset_source d2 /\ aspect_class d1 = aspect_class d2.

(** Both groupers run the same loop, up to where the target size of a
    record's bucket comes from. *)
Definition grouper_step (target : record -> result Z)
    (buckets : list (list record)) (d : record)
  : result (list (list record) * option (list record)) :=
  bucket ← index buckets (bucket_of d);
  let bucket := bucket ++ [d] in
  size ← target d;
  if (Z.of_nat (length bucket) =? size)%Z
  then Ok (<[bucket_of d := []]> buckets, Some bucket)
  else Ok (<[bucket_of d := bucket]> buckets, None).

Fixpoint grouper_run (target : record -> result Z)
    (buckets : list (list record)) (dataset : list record)
  : list (list record) * result (list (list record)) :=
  match dataset with
  | [] => ([], Ok buckets)
  | d :: rest =>
      match grouper_step target buckets d with
      | Raise e => ([], Raise e)
      | Ok (buckets', out) =>
          let (batches, r) := grouper_run target buckets' rest in
          (option_list out ++ batches, r)
      end
  end.

(** Every record waiting in bucket [k] belongs there. *)
Definition buckets_sorted (buckets : list (list record)) : Prop :=
  forall k b, buckets !! k = Some b -> Forall (fun d => bucket_of d = k) b.

Definition is_Ok {A} (r : result A) : Prop := exists a, r = Ok a.

(** No dict object occurs in two different datasets (section 3: every
    record belongs to exactly one dataset source). *)
Fixpoint unshared (dataset_dicts : list (list loc)) : Prop :=
  match dataset_dicts with
  | [] => True
  | dicts :: rest =>
      Forall (fun l => Forall (fun dicts' => l ∉ dicts') rest) dicts
      /\ unshared rest
  end.

(** The flat concatenation of the datasets, every record read from the
    store [h] and tagged with the 0-based index of its dataset. *)
Definition tagged_concat (h : store) (dataset_dicts : list (list loc))
  : list record :=
  concat (imap (fun i dicts => (fun l => set_source i (h l)) <$> dicts)
               dataset_dicts).

(** Sample records. *)
Definition wide (source : nat) : record :=
  {| dataset_source := source; width := 4; height := 3;
     annotations := None; pos_category_ids := None |}.

Definition tall (source : nat) : record :=
  {| dataset_source := source; width := 3; height := 4;
     annotations := None; pos_category_ids := None |}.

(** A sample store and catalog: two datasets of two and one records. *)
Definition sample_store : store :=
  fun l => if decide (l = 1) then tall 7 else wide 7.

Definition sample_catalog : list (string * list loc) :=
  [("lvis"%string, [0; 1]); ("vg"%string, [2])].

(** The merged list seen as its DatasetGroups: group [i] holds the records
    of source [i] (section 3). *)
Definition grouped (groups : list (list record)) : Prop :=
  forall i group, groups !! i = Some group ->
    Forall (fun d => dataset_source d = i) group.

(** The factor loops of the constructor, group by group. *)
Fixpoint group_factors (F : nat -> list record -> result tensor)
    (i : nat) (groups : list (list record)) : result (list tensor) :=
  match groups with
  | [] => Ok []
  | group :: rest =>
      factor ← F i group;
      factors ← group_factors F (S i) rest;
      Ok (factor :: factors)
  end.

(** Lines 256-268 and 281-287 for the group [i], given its records. *)
Definition rfs_group (use_rfs : list bool) (dataset_ann : list string)
    (repeat_threshold : R) (i : nat) (group : list record) : result tensor :=
  u ← index use_rfs i;
  if (u : bool) then
    a ← index dataset_ann i;
    let rfs_func :=
      if String.eqb a "box" then repeat_factors_from_category_frequency
      else repeat_factors_from_tag_frequency in
    rfs_factor ← rfs_func group repeat_threshold;
    Ok (MultiDatasetSampler.renormalize (length group) rfs_factor)
  else Ok (ones (length group)).

Definition cas_group (use_cas : list bool) (i : nat) (group : list record)
  : result tensor :=
  u ← index use_cas i;
  if (u : bool) then
    cas_factor ← _get_class_balance_factor_per_dataset group 1;
    Ok (MultiDatasetSampler.renormalize (length group) cas_factor)
  else Ok (ones (length group)).

(** The entry of [dataset_weight] for a dataset of size [s] and ratio [r],
    as the tensor operations of line 248 compute it. *)
Definition dataset_weight_entry (dataset_ratio : list R) (sizes : list nat)
    (r : R) (s : nat) : ext :=
  ediv (emul (ediv (emul (Fin 1) (Fin (INR (max_list sizes)))) (Fin (INR s)))
             (Fin r))
       (Fin (pysum dataset_ratio)).

(** The constant of section 4.4, step 2:
    [max(sizes) / sizes[i] * ratio[i] / sum(ratio)]. *)
Definition dataset_constant (dataset_ratio : list R) (sizes : list nat)
    (r : R) (s : nat) : R :=
  (INR (max_list sizes) / INR s * r / pysum dataset_ratio)%R.

(** How often the identity [c] is counted by the counting loop: once per
    occurrence in the identity lists of the records. *)
Definition occurrences (c : nat) (idss : list (list nat)) : nat :=
  sum_list ((fun ids => length (filter (fun x => x = c) ids)) <$> idss).

(** The number of records whose identity list contains [c]. *)
Definition records_with (c : nat) (idss : list (list nat)) : nat :=
  length (filter (fun ids => c ∈ ids) idss).

(** A counter after [k] more increments. *)
Definition bumped (o : option nat) (k : nat) : option nat :=
  if decide (k = 0) then o else Some (default 0 o + k).

(** The repeat value of an identity and the repeat factor of a record, in
    terms of the counts. *)
Definition rep_value (repeat_thresh : R) (idss : list (list nat)) (c : nat) : R :=
  Rmax 1 (sqrt (repeat_thresh
                / (INR (occurrences c idss) / INR (length idss)))).

Definition rep_factor (repeat_thresh : R) (idss : list (list nat))
    (ids : list nat) : R :=
  pymax_default (rep_value repeat_thresh idss <$> ids) 1.

(** The class-balance factor of a record, in terms of the counts. *)
Definition balance_factor (idss : list (list nat)) (ids : list nat) : R :=
  pysum ((fun c => 1 / INR (occurrences c idss))%R <$> ids).

(** A list of reals scaled to sum to [s]. *)
Definition scaled (s : nat) (l : list R) : list R :=
  (fun x => x * (INR s / pysum l))%R <$> l.

(** Section 4.2 in the words of the specification, for a DatasetGroup of
    annotation kind [tag]: the identity set of a record is its tag list. *)
Definition tags_of (d : record) : list nat := default [] (pos_category_ids d).

Definition spec_freq (group : list record) (c : nat) : R :=
  (INR (length (filter (fun d => c ∈ tags_of d) group)) / INR (length group))%R.

Definition spec_rep (repeat_threshold : R) (group : list record) (c : nat) : R :=
  Rmax 1 (sqrt (repeat_threshold / spec_freq group c)).

(** [f] is the maximum of [rep(c)] over the tags of [d], or 1.0 if [d] has
    no tag. *)
Definition is_repeat_factor (repeat_threshold : R) (group : list record)
    (d : record) (f : R) : Prop :=
  match tags_of d with
  | [] => f = 1%R
  | _ => (exists c, c ∈ tags_of d /\ f = spec_rep repeat_threshold group c)
         /\ forall c, c ∈ tags_of d -> (spec_rep repeat_threshold group c <= f)%R
  end.

(** A record of a tag dataset. *)
Definition tagged (tags : list nat) : record :=
  {| dataset_source := 0; width := 4; height := 3;
     annotations := None; pos_category_ids := Some tags |}.

(** A record of a box dataset with the given category ids. *)
Definition annotated (cats : list nat) : record :=
  {| dataset_source := 0; width := 4; height := 3;
     annotations := Some ((fun c => {| category_id := c |}) <$> cats);
     pos_category_ids := None |}.

(** A tag dataset of four records in which tag 1 occurs once. *)
Definition rare_tag_group : list record :=
  [tagged [1]; tagged []; tagged []; tagged []].

(** The category set of a record (empty when it has no annotations). *)
Definition categories_of (d : record) : list nat :=
  remove_dups (category_id <$> default [] (annotations d)).

(** What the weight of a record must look like: a finite number, zero for a
    record without category in a dataset with [use_cas] on, positive
    otherwise. *)
Definition weight_ok (use_cas : list bool) (d : record) (w : ext) : Prop :=
  exists x, w = Fin x
    /\ if decide (use_cas !! dataset_source d = Some true /\ categories_of d = [])
       then x = 0%R else (0 < x)%R.

(** The same sampler on another rank of another world. *)
Definition reshard (rank world_size : nat) (self : MultiDatasetSampler.t)
  : MultiDatasetSampler.t :=
  {| MultiDatasetSampler.sizes := MultiDatasetSampler.sizes self;
     MultiDatasetSampler._seed := MultiDatasetSampler._seed self;
     MultiDatasetSampler._rank := rank;
     MultiDatasetSampler._world_size := world_size;
     MultiDatasetSampler.dataset_ids := MultiDatasetSampler.dataset_ids self;
     MultiDatasetSampler.weights := MultiDatasetSampler.weights self;
     MultiDatasetSampler.sample_epoch_size :=
       MultiDatasetSampler.sample_epoch_size self |}.

(** Lines 302-310 without the unused [nums]: one step of the stream as a
    function of the weights and the epoch size alone. *)
Definition draw_next `{G : Generator} (w : tensor) (epoch_size : nat)
  : iterator indices_state nat :=
  fun st =>
    match pending st with
    | i :: rest => Ok (i, {| g := g st; pending := rest |})
    | [] =>
        match draws w epoch_size (g st) with
        | (i :: rest, g') => Ok (i, {| g := g'; pending := rest |})
        | ([], _) => Raise RuntimeError
        end
    end.

(** The global stream epoch by epoch: [n] successive calls of
    [torch.multinomial], each for [epoch_size] indices, the generator being
    handed from one call to the next. *)
Fixpoint epochs `{G : Generator} (w : tensor) (epoch_size n : nat) (g0 : gen)
  : list nat :=
  match n with
  | O => []
  | S n' => let '(ids, g') := draws w epoch_size g0 in
            ids ++ epochs w epoch_size n' g'
  end.

(** A toy generator for examples: the state is a counter, a draw is the
    counter modulo the number of weights. *)
#[program] Definition counter_generator : Generator :=
  {| gen := nat;
     manual_seed := Z.to_nat;
     draw := fun w g => (g `mod` length w, S g) |}.
Next Obligation.
  intros w g Hw. simpl. apply Nat.mod_upper_bound. by destruct w.
Qed.

(** A sample sampler state: three records of two datasets, rank 1 of 2. *)
Definition sample_sampler : MultiDatasetSampler.t :=
  {| MultiDatasetSampler.sizes := [2; 1];
     MultiDatasetSampler._seed := 5;
     MultiDatasetSampler._rank := 1;
     MultiDatasetSampler._world_size := 2;
     MultiDatasetSampler.dataset_ids := [0; 0; 1];
     MultiDatasetSampler.weights := [Fin 1; Fin 1; Fin 2];
     MultiDatasetSampler.sample_epoch_size := 3 |}.

(** The scenario of section 8: two datasets of sizes 100 and 10. *)
Definition scenario_groups : list (list record) :=
  [replicate 100 (wide 0); replicate 10 (wide 1)].

(** A process of a single-worker run. *)
Definition single_process : comm :=
  {| shared_random_seed := 0; get_rank := 0; get_world_size := 1 |}.

(** The sampler built from [[annotated [0]; annotated []]] with [use_cas]
    on, and the one built from [rare_tag_group] with [use_rfs] on. *)
Definition zero_weight_sampler : MultiDatasetSampler.t :=
  {| MultiDatasetSampler.sizes := [2];
     MultiDatasetSampler._seed := 0;
     MultiDatasetSampler._rank := 0;
     MultiDatasetSampler._world_size := 1;
     MultiDatasetSampler.dataset_ids := [0; 0];
     MultiDatasetSampler.weights := [Fin 2; Fin 0];
     MultiDatasetSampler.sample_epoch_size := 2 |}.

Definition rare_tag_sampler : MultiDatasetSampler.t :=
  {| MultiDatasetSampler.sizes := [4];
     MultiDatasetSampler._seed := 0;
     MultiDatasetSampler._rank := 0;
     MultiDatasetSampler._world_size := 1;
     MultiDatasetSampler.dataset_ids := [0; 0; 0; 0];
     MultiDatasetSampler.weights := [Fin 1; Fin 1; Fin 1; Fin 1];
     MultiDatasetSampler.sample_epoch_size := 4 |}.

(** The sampler built from [[annotated []; annotated []]] with [use_cas]
    on, as rank 1 of 2: no record has a category, every weight is nan. *)
Definition nan_sampler : MultiDatasetSampler.t :=
  {| MultiDatasetSampler.sizes := [2];
     MultiDatasetSampler._seed := 0;
     MultiDatasetSampler._rank := 1;
     MultiDatasetSampler._world_size := 2;
     MultiDatasetSampler.dataset_ids := [0; 0];
     MultiDatasetSampler.weights := [NonFin; NonFin];
     MultiDatasetSampler.sample_epoch_size := 2 |}.

(** Short names for the three classes. *)
Module Sampler := MultiDatasetSampler.
Module MD := MDAspectRatioGroupedDataset.
Module DIFF := DIFFMDAspectRatioGroupedDataset.

(** Closes the arithmetic goals left by evaluating on sample inputs. *)
Ltac real_arith := first [done | lra | (field; first [done | lra])].

(* ================================================================= *)
(** ** The loader builder *)

(** [x % y] and [x // y] on Python ints (Python rounds towards minus
    infinity, as [Z.modulo] and [Z.div] do). *)
Definition pymod (x y : Z) : result Z :=
  if (y =? 0)%Z then Raise ZeroDivisionError else Ok (x mod y)%Z.

Definition pyfloordiv (x y : Z) : result Z :=
  if (y =? 0)%Z then Raise ZeroDivisionError else Ok (x / y)%Z.

(** What [build_multi_dataset_batch_data_loader] returns: one of the two
    groupers, wrapped around the (external) torch [DataLoader] whose stream
    they consume when iterated. *)
Inductive grouped_loader :=
  | Uniform (loader : MDAspectRatioGroupedDataset.t)
  | PerDataset (loader : DIFFMDAspectRatioGroupedDataset.t).

(** Lines 146-175; [get_world_size()] is read from the process. *)
Definition build_multi_dataset_batch_data_loader (c : comm)
    (use_diff_bs_size : bool) (dataset_bs : list Z) (total_batch_size : Z)
    (num_datasets : nat) : result grouped_loader :=
  let world_size := Z.of_nat (get_world_size c) in
  ok ← (if (0 <? total_batch_size)%Z
        then m ← pymod total_batch_size world_size; Ok (m =? 0)%Z
        else Ok false);
  _ ← py_assert ok;
  batch_size ← pyfloordiv total_batch_size world_size;
  if use_diff_bs_size
  then Ok (PerDataset (DIFFMDAspectRatioGroupedDataset.__init__
                         dataset_bs num_datasets))
  else Ok (Uniform (MDAspectRatioGroupedDataset.__init__
                      batch_size num_datasets)).

(** The batches a loader yields on a finite prefix of its stream. *)
Definition loader_batches (l : grouped_loader) (dataset : list record)
  : list (list record) :=
  match l with
  | Uniform loader => (MDAspectRatioGroupedDataset.__iter__ loader dataset).1
  | PerDataset loader =>
      (DIFFMDAspectRatioGroupedDataset.__iter__ loader dataset).1
  end.

(* ================================================================= *)
(** ** Further notions used in the statements *)

(** The number of records of a list that carry the source [i]. *)
Definition count_source (i : nat) (dataset_dicts : list record) : nat :=
  length (filter (fun d => dataset_source d = i) dataset_dicts).

(** Two records that differ at most in their [dataset_source]. *)
Definition same_but_source (d d' : record) : Prop :=
  width d' = width d /\ height d' = height d
  /\ annotations d' = annotations d
  /\ pos_category_ids d' = pos_category_ids d.

(** The DatasetGroups of a merged list: dataset [i] read from the store and
    tagged with [i]. *)
Definition tagged_groups (h : store) (dataset_dicts : list (list loc))
  : list (list record) :=
  imap (fun i dicts => (fun l => set_source i (h l)) <$> dicts) dataset_dicts.

(** The records of a stream that go to bucket [k], in arrival order. *)
Definition of_bucket (k : nat) (dataset : list record) : list record :=
  filter (fun d => bucket_of d = k) dataset.

(** The batch that the arrival of [d] after the records [l] completes in
    a bucket of target size [B]: the last [B] records of the bucket's
    stream, when their number, [d] included, has reached a multiple of
    [B]. *)
Definition completed (B : Z) (l : list record) (d : record)
  : list (list record) :=
  let stream := of_bucket (bucket_of d) (l ++ [d]) in
  if decide ((Z.of_nat (length stream) mod B)%Z = 0%Z)
  then [drop (length stream - Z.to_nat B) stream]
  else [].

(* ================================================================= *)
(** * Properties *)

(** ** Batch groupers *)

Lemma MD_step_grouper_step self d :
  MD.step self d
  = '(buckets, out) ← grouper_step (fun _ => Ok (MD.batch_size self))
                                   (MD._buckets self) d;
    Ok ({| MD.batch_size := MD.batch_size self; MD._buckets := buckets |}, out).
Proof.
  unfold MD.step, grouper_step, bucket_of, aspect_class; simpl.
  destruct (index (MD._buckets self) _) as [bucket|e]; simpl; [|done].
  destruct (Z.of_nat (length (bucket ++ [d])) =? MD.batch_size self)%Z; done.
Qed.

Lemma DIFF_step_grouper_step self d :
  DIFF.step self d
  = '(buckets, out) ← grouper_step
                        (fun d => index (DIFF.batch_sizes self) (dataset_source d))
                        (DIFF._buckets self) d;
    Ok ({| DIFF.batch_sizes := DIFF.batch_sizes self;
           DIFF._buckets := buckets |}, out).
Proof.
  unfold DIFF.step, grouper_step, bucket_of, aspect_class; simpl.
  destruct (index (DIFF._buckets self) _) as [bucket|e]; simpl; [|done].
  destruct (index (DIFF.batch_sizes self) _) as [size|e]; simpl; [|done].
  destruct (Z.of_nat (length (bucket ++ [d])) =? size)%Z; done.
Qed.

Lemma MD_iter_grouper_run self dataset :
  (MD.__iter__ self dataset).1
  = (grouper_run (fun _ => Ok (MD.batch_size self)) (MD._buckets self) dataset).1
  /\ (is_Ok (MD.__iter__ self dataset).2
      <-> is_Ok (grouper_run (fun _ => Ok (MD.batch_size self))
                             (MD._buckets self) dataset).2).
Proof.
  revert self. induction dataset as [|d rest IH]; intros self.
  - split; [done|]. split; intros _; eexists; done.
  - cbn [MD.__iter__ grouper_run]. rewrite MD_step_grouper_step.
    destruct (grouper_step _ _ d) as [[buckets out]|e]; simpl.
    2:{ split; [done|]. split; intros [? ?]; done. }
    specialize (IH {| MD.batch_size := MD.batch_size self;
                      MD._buckets := buckets |}).
    simpl in IH. destruct (MD.__iter__ _ rest), (grouper_run _ _ rest).
    simpl in *. destruct IH as [-> IH]. done.
Qed.

Lemma DIFF_iter_grouper_run self dataset :
  (DIFF.__iter__ self dataset).1
  = (grouper_run (fun d => index (DIFF.batch_sizes self) (dataset_source d))
                 (DIFF._buckets self) dataset).1
  /\ (is_Ok (DIFF.__iter__ self dataset).2
      <-> is_Ok (grouper_run
                   (fun d => index (DIFF.batch_sizes self) (dataset_source d))
                   (DIFF._buckets self) dataset).2).
Proof.
  revert self. induction dataset as [|d rest IH]; intros self.
  - split; [done|]. split; intros _; eexists; done.
  - cbn [DIFF.__iter__ grouper_run]. rewrite DIFF_step_grouper_step.
    destruct (grouper_step _ _ d) as [[buckets out]|e]; simpl.
    2:{ split; [done|]. split; intros [? ?]; done. }
    specialize (IH {| DIFF.batch_sizes := DIFF.batch_sizes self;
                      DIFF._buckets := buckets |}).
    simpl in IH. destruct (DIFF.__iter__ _ rest), (grouper_run _ _ rest).
    simpl in *. destruct IH as [-> IH]. done.
Qed.

(** What one step does to the buckets, and what it yields. *)
Lemma grouper_step_inv target buckets d buckets' out :
  buckets_sorted buckets ->
  grouper_step target buckets d = Ok (buckets', out) ->
  buckets_sorted buckets'
  /\ length buckets' = length buckets
  /\ forall batch, out = Some batch ->
       d ∈ batch
       /\ Forall (fun d' => bucket_of d' = bucket_of d) batch
       /\ target d = Ok (Z.of_nat (length batch)).
Proof.
  intros Hs. unfold grouper_step, index.
  destruct (buckets !! bucket_of d) as [bucket|] eqn:Hb; simpl; [|done].
  destruct (target d) as [size|] eqn:Ht; simpl; [|done].
  assert (Hfull : Forall (fun d' => bucket_of d' = bucket_of d) (bucket ++ [d])).
  { apply Forall_app. split; [by eapply Hs|]. by constructor. }
  destruct (Z.eqb_spec (Z.of_nat (length (bucket ++ [d]))) size) as [Heq|Hne];
    intros [= <- <-].
  - split; [|split].
    + intros k b Hk. destruct (decide (k = bucket_of d)) as [->|Hn].
      * rewrite list_lookup_insert_eq in Hk by by eapply lookup_lt_Some.
        by injection Hk as <-.
      * rewrite list_lookup_insert_ne in Hk by done. by eapply Hs.
    + by rewrite length_insert.
    + intros batch [= <-]. split; [|split]; [|done|by rewrite Heq].
      apply elem_of_app. right. by apply list_elem_of_singleton.
  - split; [|split].
    + intros k b Hk. destruct (decide (k = bucket_of d)) as [->|Hn].
      * rewrite list_lookup_insert_eq in Hk by by eapply lookup_lt_Some.
        by injection Hk as <-.
      * rewrite list_lookup_insert_ne in Hk by done. by eapply Hs.
    + by rewrite length_insert.
    + done.
Qed.

Lemma bucket_of_inj d1 d2 :
  bucket_of d1 = bucket_of d2 ->
  dataset_source d1 = dataset_source d2 /\ aspect_class d1 = aspect_class d2.
Proof.
  unfold bucket_of. destruct (aspect_class d1), (aspect_class d2); lia.
Qed.

Lemma bucket_of_lt d n : dataset_source d < n -> bucket_of d < 2 * n.
Proof. unfold bucket_of. destruct (aspect_class d); lia. Qed.

Lemma same_bucket_homogeneous k batch :
  Forall (fun d => bucket_of d = k) batch -> homogeneous batch.
Proof.
  intros H d1 d2 H1 H2. rewrite Forall_forall in H.
  apply bucket_of_inj. by rewrite (H d1), (H d2).
Qed.

Lemma buckets_sorted_replicate n : buckets_sorted (replicate n []).
Proof.
  intros k b [-> _]%lookup_replicate_1. constructor.
Qed.

(** Every batch that a run yields comes from one bucket and has the target
    size of the record that completed it. *)
Lemma grouper_run_batches target buckets dataset :
  buckets_sorted buckets ->
  Forall (fun batch =>
            homogeneous batch
            /\ exists d, d ∈ batch /\ target d = Ok (Z.of_nat (length batch)))
         (grouper_run target buckets dataset).1.
Proof.
  revert buckets. induction dataset as [|d rest IH]; intros buckets Hs.
  - constructor.
  - cbn [grouper_run].
    destruct (grouper_step target buckets d) as [[buckets' out]|e] eqn:Hstep;
      [|constructor].
    destruct (grouper_step_inv _ _ _ _ _ Hs Hstep) as (Hs' & _ & Hout).
    specialize (IH buckets' Hs').
    destruct (grouper_run target buckets' rest) as [batches r]; simpl in *.
    destruct out as [batch|]; simpl; [|done].
    constructor; [|done].
    destruct (Hout batch eq_refl) as (Hin & Hall & Hlen).
    split; [by eapply same_bucket_homogeneous|]. by exists d.
Qed.

(** A run goes through when every record finds its bucket and its target. *)
Lemma grouper_run_ok target buckets dataset :
  buckets_sorted buckets ->
  Forall (fun d => bucket_of d < length buckets /\ is_Ok (target d)) dataset ->
  is_Ok (grouper_run target buckets dataset).2.
Proof.
  revert buckets. induction dataset as [|d rest IH]; intros buckets Hs Hall.
  - by eexists.
  - apply Forall_cons in Hall as [[Hlt [size Hsize]] Hall].
    cbn [grouper_run].
    destruct (grouper_step target buckets d) as [[buckets' out]|e] eqn:Hstep.
    + destruct (grouper_step_inv _ _ _ _ _ Hs Hstep) as (Hs' & Hlen & _).
      rewrite <- Hlen in Hall. specialize (IH buckets' Hs' Hall).
      by destruct (grouper_run target buckets' rest).
    + exfalso. revert Hstep. unfold grouper_step, index.
      destruct (lookup_lt_is_Some_2 buckets _ Hlt) as [b ->]. simpl.
      rewrite Hsize. simpl. by destruct (_ =? _)%Z.
Qed.

(** C8. Every batch emitted by the Batch Grouper, in the uniform and in the
    per-dataset variant, started from the freshly constructed grouper on any
    input, is homogeneous in dataset source and aspect class, and its length
    is the configured target size: [batch_size], respectively
    [dataset_bs[dataset_source]] for the source of its members. *)
Theorem grouper_batches_homogeneous_full
    (batch_size : Z) (dataset_bs : list Z) (num_datasets : nat)
    (dataset : list record) :
  Forall (fun batch =>
            homogeneous batch /\ Z.of_nat (length batch) = batch_size)
         (MD.__iter__ (MD.__init__ batch_size num_datasets) dataset).1
  /\ Forall (fun batch =>
              homogeneous batch
              /\ batch <> []
              /\ Forall (fun d => dataset_bs !! dataset_source d
                                  = Some (Z.of_nat (length batch))) batch)
         (DIFF.__iter__ (DIFF.__init__ dataset_bs num_datasets) dataset).1.
Proof.
  split.
  - rewrite (proj1 (MD_iter_grouper_run _ _)). simpl.
    eapply Forall_impl;
      [apply grouper_run_batches, buckets_sorted_replicate|].
    intros batch (Hh & d & _ & Ht). split; [done|]. by injection Ht.
  - rewrite (proj1 (DIFF_iter_grouper_run _ _)). simpl.
    eapply Forall_impl;
      [apply grouper_run_batches, buckets_sorted_replicate|].
    intros batch (Hh & d & Hin & Ht). split; [done|]. split.
    + intros ->. by apply elem_of_nil in Hin.
    + apply Forall_forall. intros d' Hin'.
      destruct (Hh d' d Hin' Hin) as [-> _].
      revert Ht. unfold index.
      destruct (dataset_bs !! dataset_source d); [|done]. by intros [= ->].
Qed.

Lemma Forall_False_nil {A} (P : A -> Prop) (l : list A) :
  Forall P l -> (forall x, P x -> False) -> l = [].
Proof. intros [|x l' Hx _] Hno; [done|]. destruct (Hno x Hx). Qed.

(** No batch is ever yielded for a record whose target is not positive. *)
Lemma grouper_run_positive_target target buckets dataset :
  buckets_sorted buckets ->
  Forall (fun batch =>
            exists d size, d ∈ batch /\ target d = Ok size /\ (0 < size)%Z)
         (grouper_run target buckets dataset).1.
Proof.
  intros Hs. eapply Forall_impl; [by apply grouper_run_batches|].
  intros batch (_ & d & Hin & Ht). exists d, (Z.of_nat (length batch)).
  split; [done|]. split; [done|].
  destruct batch; [by apply elem_of_nil in Hin|simpl; lia].
Qed.

(** C10, as stated, fails: with the per-dataset variant and an empty
    [dataset_bs] (the default of [build_custom_train_loader]) the first
    record raises [IndexError]; with the uniform variant a record whose
    source is not below [num_datasets] does. *)
Lemma grouper_raises_counterexample :
  (DIFF.__iter__ (DIFF.__init__ [] 1) [wide 0]).2 = Raise IndexError
  /\ (MD.__iter__ (MD.__init__ 2 1) [wide 1]).2 = Raise IndexError
  /\ ~ (forall dataset_bs num_datasets dataset,
          is_Ok (DIFF.__iter__ (DIFF.__init__ dataset_bs num_datasets)
                               dataset).2).
Proof.
  split; [reflexivity|]. split; [reflexivity|].
  intros H. destruct (H [] 1 [wide 0]) as [s Hs]. discriminate Hs.
Qed.

(** C10, amended. Iteration of either grouper raises no error on an input
    whose records have a [dataset_source] below [num_datasets] and, for the
    per-dataset variant, below [len(dataset_bs)].  Construction never fails,
    and a bucket whose target size is zero or negative never emits a batch:
    the uniform grouper with such a [batch_size] emits nothing, the
    per-dataset grouper emits no batch of a dataset with such a size. *)
Theorem grouper_never_raises_in_range
    (batch_size : Z) (dataset_bs : list Z) (num_datasets : nat)
    (dataset : list record) :
  Forall (fun d => dataset_source d < num_datasets) dataset ->
  Forall (fun d => dataset_source d < length dataset_bs) dataset ->
  is_Ok (MD.__iter__ (MD.__init__ batch_size num_datasets) dataset).2
  /\ is_Ok (DIFF.__iter__ (DIFF.__init__ dataset_bs num_datasets) dataset).2
  /\ ((batch_size <= 0)%Z ->
      (MD.__iter__ (MD.__init__ batch_size num_datasets) dataset).1 = [])
  /\ (forall i size, dataset_bs !! i = Some size -> (size <= 0)%Z ->
      Forall (fun batch => Forall (fun d => dataset_source d <> i) batch)
             (DIFF.__iter__ (DIFF.__init__ dataset_bs num_datasets) dataset).1).
Proof.
  intros Hnum Hbs. split; [|split; [|split]].
  - apply MD_iter_grouper_run. simpl.
    apply grouper_run_ok; [apply buckets_sorted_replicate|].
    eapply Forall_impl; [exact Hnum|]. intros d Hd. simpl.
    rewrite length_replicate. split; [by apply bucket_of_lt|by eexists].
  - apply DIFF_iter_grouper_run. simpl.
    apply grouper_run_ok; [apply buckets_sorted_replicate|].
    rewrite Forall_forall in Hnum, Hbs. apply Forall_forall. intros d Hd.
    rewrite length_replicate. split; [by apply bucket_of_lt, Hnum|].
    unfold index. destruct (lookup_lt_is_Some_2 dataset_bs _ (Hbs d Hd)) as [s ->].
    by eexists.
  - intros Hle. rewrite (proj1 (MD_iter_grouper_run _ _)). simpl.
    eapply Forall_False_nil;
      [apply grouper_run_positive_target, buckets_sorted_replicate|].
    intros batch (d & size & _ & [= <-] & Hpos). lia.
  - intros i size Hi Hle. rewrite (proj1 (DIFF_iter_grouper_run _ _)). simpl.
    pose proof (grouper_run_batches
                  (fun d => index dataset_bs (dataset_source d))
                  (replicate (2 * num_datasets) []) dataset
                  (buckets_sorted_replicate _)) as Hb.
    eapply Forall_impl; [exact Hb|].
    intros batch (Hh & d & Hin & Ht). apply Forall_forall. intros d' Hin' Hi'.
    destruct (Hh d' d Hin' Hin) as [Hsrc _]. rewrite <- Hsrc, Hi' in Ht.
    revert Ht. unfold index. rewrite Hi. intros [= ->].
    destruct batch; [by apply elem_of_nil in Hin|simpl in Hle; lia].
Qed.

Lemma grouper_never_raises_in_range_witness :
  Forall (fun d => dataset_source d < 2) [wide 0; tall 1; wide 1; wide 1]
  /\ Forall (fun d => dataset_source d < length [0%Z; 2%Z])
            [wide 0; tall 1; wide 1; wide 1]
  /\ is_Ok (MD.__iter__ (MD.__init__ 0 2) [wide 0; tall 1; wide 1; wide 1]).2
  /\ is_Ok (DIFF.__iter__ (DIFF.__init__ [0%Z; 2%Z] 2)
                          [wide 0; tall 1; wide 1; wide 1]).2
  /\ (MD.__iter__ (MD.__init__ 0 2) [wide 0; tall 1; wide 1; wide 1]).1 = []
  /\ Forall (fun batch => Forall (fun d => dataset_source d <> 0) batch)
            (DIFF.__iter__ (DIFF.__init__ [0%Z; 2%Z] 2)
                           [wide 0; tall 1; wide 1; wide 1]).1.
Proof.
  assert (H1 : Forall (fun d => dataset_source d < 2)
                      [wide 0; tall 1; wide 1; wide 1])
    by (repeat constructor).
  assert (H2 : Forall (fun d => dataset_source d < length [0%Z; 2%Z])
                      [wide 0; tall 1; wide 1; wide 1])
    by (repeat constructor).
  destruct (grouper_never_raises_in_range 0 [0%Z; 2%Z] 2 _ H1 H2)
    as (Ha & Hb & Hc & Hd).
  split; [exact H1|]. split; [exact H2|]. split; [exact Ha|].
  split; [exact Hb|]. split; [apply Hc; lia|].
  apply (Hd 0 0%Z); [reflexivity|lia].
Defined.

(** The scenario of section 8: with [batch_size = 4] and alternating wide
    and tall records of one dataset, the first batch is the four wide
    records, emitted when the fourth of them arrives. *)
Example grouper_alternating :
  (MD.__iter__ (MD.__init__ 4 1)
     [wide 0; tall 0; wide 0; tall 0; wide 0; tall 0]).1 = []
  /\ (MD.__iter__ (MD.__init__ 4 1)
        [wide 0; tall 0; wide 0; tall 0; wide 0; tall 0; wide 0]).1
     = [[wide 0; wide 0; wide 0; wide 0]].
Proof. split; reflexivity. Qed.

(** ** Generic facts about the [result] monad loops *)

Lemma index_lt {A} (l : list A) (i : nat) :
  i < length l -> exists x, index l i = Ok x.
Proof.
  intros Hi. unfold index. destruct (lookup_lt_is_Some_2 _ _ Hi) as [x ->].
  by eexists.
Qed.

Lemma index_ge {A} (l : list A) (i : nat) :
  length l <= i -> index l i = Raise IndexError.
Proof. intros Hi. unfold index. by rewrite lookup_ge_None_2. Qed.

Lemma forM_ok {A B} (l : list A) (f : A -> result B) (g : A -> B) :
  Forall (fun x => f x = Ok (g x)) l -> forM l f = Ok (g <$> l).
Proof.
  induction 1 as [|x l Hx _ IH]; [done|]. simpl. rewrite Hx. simpl.
  by rewrite IH.
Qed.

Lemma forM_ext {A B} (l : list A) (f f' : A -> result B) :
  Forall (fun x => f x = f' x) l -> forM l f = forM l f'.
Proof.
  induction 1 as [|x l Hx _ IH]; [done|]. simpl. by rewrite Hx, IH.
Qed.

Lemma forM_length {A B} (l : list A) (f : A -> result B) (ys : list B) :
  forM l f = Ok ys -> length ys = length l.
Proof.
  revert ys. induction l as [|x l IH]; intros ys; simpl.
  - by intros [= <-].
  - destruct (f x); [|done]. simpl. destruct (forM l f); [|done].
    simpl. intros [= <-]. simpl. f_equal. by apply IH.
Qed.

(** ** Record Source Merger *)

Lemma elem_of_concat {A} (x : A) (ls : list (list A)) :
  x ∈ concat ls <-> exists l, l ∈ ls /\ x ∈ l.
Proof.
  induction ls as [|l0 ls IH]; simpl.
  - split; [by intros ?%elem_of_nil|by intros (? & ?%elem_of_nil & _)].
  - rewrite elem_of_app, IH. split.
    + intros [H|(l & Hl & Hx)].
      * exists l0. split; [apply list_elem_of_here|done].
      * exists l. split; [by apply list_elem_of_further|done].
    + intros (l & [->|Hl]%elem_of_cons & Hx); [by left|].
      right. by exists l.
Qed.

Lemma set_source_set_source i j d :
  set_source j (set_source i d) = set_source j d.
Proof. done. Qed.

Lemma tag_dataset_lookup (h : store) (source_id : nat) (dicts : list loc) l :
  foldl (fun h d => store_set_source h d source_id) h dicts l
  = if decide (l ∈ dicts) then set_source source_id (h l) else h l.
Proof.
  revert h. induction dicts as [|d dicts IH]; intros h; simpl.
  - done.
  - rewrite IH. unfold store_set_source.
    repeat case_decide; subst; try done; exfalso;
      repeat match goal with
             | H : _ ∈ _ :: _ |- _ => apply elem_of_cons in H as [?|?]
             | H : ¬ _ ∈ _ :: _ |- _ => apply not_elem_of_cons in H as [? ?]
             end; done.
Qed.

Section MergerFacts.
Context (filter_crowd : store -> list loc -> list loc).
Context (filter_kp : store -> list loc -> Z -> list loc).

Lemma tag_loop_spec (dataset_dicts : list (list loc)) :
  forall (h : store) (source_id : nat),
    Forall (fun dicts => dicts <> []) dataset_dicts ->
    exists h',
      tag_loop h source_id dataset_dicts = Ok h'
      /\ (forall l, l ∉ concat dataset_dicts -> h' l = h l)
      /\ (forall j dj l,
            dataset_dicts !! j = Some dj -> l ∈ dj ->
            (forall k dk, j < k -> dataset_dicts !! k = Some dk -> l ∉ dk) ->
            h' l = set_source (source_id + j) (h l)).
Proof.
  induction dataset_dicts as [|dicts rest IH]; intros h source_id Hne.
  - exists h. split; [done|]. split; [done|]. intros j dj l Hj. done.
  - apply Forall_cons in Hne as [Hd Hne]. simpl. unfold tag_dataset.
    destruct dicts as [|d0 dicts0]; [done|]. simpl.
    set (h1 := foldl _ _ dicts0).
    destruct (IH h1 (S source_id) Hne) as (h' & -> & Hout & Hin).
    exists h'. split; [done|].
    assert (Hh1 : forall l, h1 l = if decide (l ∈ d0 :: dicts0)
                                   then set_source source_id (h l) else h l).
    { intros l. exact (tag_dataset_lookup h source_id (d0 :: dicts0) l). }
    split.
    + intros l Hl. rewrite Hout.
      * rewrite Hh1, decide_False; [done|]. intros ?. apply Hl.
        change (l ∈ (d0 :: dicts0) ++ concat rest). apply elem_of_app. by left.
      * intros ?. apply Hl.
        change (l ∈ (d0 :: dicts0) ++ concat rest). apply elem_of_app. by right.
    + intros [|j] dj l Hj Hl Hlater.
      * injection Hj as <-. rewrite Hout.
        -- rewrite Hh1, decide_True by done. f_equal. lia.
        -- intros (dk & Hk & Hdk)%elem_of_concat.
           apply list_elem_of_lookup in Hk as [k Hk].
           apply (Hlater (S k) dk); [lia|done|done].
      * simpl in Hj. rewrite (Hin j dj l Hj Hl).
        -- rewrite Hh1. replace (S source_id + j) with (source_id + S j) by lia.
           by case_decide.
        -- intros k dk Hjk Hk. apply (Hlater (S k) dk); [lia|done].
Qed.

Lemma filter_loop_ok h filter_empty min_keypoints dataset_dicts :
  Forall (fun dicts => dicts <> []) dataset_dicts ->
  filter_loop filter_crowd filter_kp h filter_empty min_keypoints dataset_dicts
  = Ok dataset_dicts.
Proof.
  intros Hne. unfold filter_loop.
  assert (exists out,
            forM dataset_dicts
                 (filter_body filter_crowd filter_kp h filter_empty
                              min_keypoints) = Ok out) as [out ->]; [|done].
  induction Hne as [|dicts rest Hd _ [out IH]]; [by eexists|].
  simpl. rewrite IH. destruct dicts; [done|]. by eexists.
Qed.

Lemma fmap_tagged_concat (h h' : store) (dataset_dicts : list (list loc)) offset :
  (forall j dj l, dataset_dicts !! j = Some dj -> l ∈ dj ->
                  h' l = set_source (offset + j) (h l)) ->
  h' <$> concat dataset_dicts
  = concat (imap (fun j dj => (fun l => set_source (offset + j) (h l)) <$> dj)
                 dataset_dicts).
Proof.
  revert offset. induction dataset_dicts as [|dicts rest IH]; intros offset H.
  - done.
  - simpl. rewrite fmap_app. f_equal.
    + apply list_fmap_ext. intros i l Hl. apply (H 0 dicts l); [done|].
      by eapply list_elem_of_lookup_2.
    + rewrite (IH (S offset)).
      * f_equal. apply imap_ext. intros j dj _. simpl.
        apply list_fmap_ext. intros _ l _. f_equal. lia.
      * intros j dj l Hj Hl. rewrite (H (S j) dj l Hj Hl). f_equal. lia.
Qed.
End MergerFacts.

Lemma unshared_later dataset_dicts j k dj dk l :
  unshared dataset_dicts -> j < k ->
  dataset_dicts !! j = Some dj -> dataset_dicts !! k = Some dk ->
  l ∈ dj -> l ∉ dk.
Proof.
  revert j k. induction dataset_dicts as [|dicts rest IH];
    intros j k Hun Hjk Hj Hk Hl; [done|].
  destruct Hun as [Hhere Hrest].
  destruct k as [|k]; [lia|]. simpl in Hk. destruct j as [|j].
  - injection Hj as <-. rewrite Forall_forall in Hhere.
    specialize (Hhere l Hl). rewrite Forall_forall in Hhere.
    apply Hhere. by eapply list_elem_of_lookup_2.
  - simpl in Hj. eapply (IH j k); [done|lia|done..].
Qed.

Lemma forM_assert_nonempty (dataset_dicts : list (list loc)) :
  Forall (fun dicts => dicts <> []) dataset_dicts ->
  is_Ok (forM dataset_dicts (fun dicts => py_assert (negb (length dicts =? 0)))).
Proof.
  induction 1 as [|dicts rest Hd _ [out IH]]; [by eexists|].
  simpl. rewrite IH. destruct dicts; [done|]. by eexists.
Qed.

(** C3. For every ordered list of non-empty named datasets (no dict object
    being in two of them), the Record Source Merger returns exactly the flat
    concatenation of the inputs in input order, every record tagged with the
    0-based index of its dataset and otherwise unchanged, nothing dropped or
    reordered; objects outside the inputs are not touched; and the result is
    the same for every value of [filter_empty] and [min_keypoints]. *)
Theorem merger_returns_tagged_concat
    (filter_crowd : store -> list loc -> list loc)
    (filter_kp : store -> list loc -> Z -> list loc)
    (h : store) (catalog : list (string * list loc))
    (filter_empty : bool) (min_keypoints : Z) :
  catalog <> [] ->
  Forall (fun dicts => dicts <> []) catalog.*2 ->
  unshared catalog.*2 ->
  exists h',
    get_detection_dataset_dicts_with_source
      filter_crowd filter_kp h catalog filter_empty min_keypoints None
    = Ok (concat catalog.*2, h')
    /\ h' <$> concat catalog.*2 = tagged_concat h catalog.*2
    /\ (forall l, l ∉ concat catalog.*2 -> h' l = h l)
    /\ forall filter_empty' min_keypoints',
         get_detection_dataset_dicts_with_source
           filter_crowd filter_kp h catalog filter_empty' min_keypoints' None
         = Ok (concat catalog.*2, h').
Proof.
  intros Hcat Hne Hun.
  destruct (tag_loop_spec catalog.*2 h 0 Hne) as (h' & Htag & Hout & Hin).
  destruct (forM_assert_nonempty _ Hne) as [us Hus].
  assert (Hrun : forall fe mk,
             get_detection_dataset_dicts_with_source
               filter_crowd filter_kp h catalog fe mk None
             = Ok (concat catalog.*2, h')).
  { intros fe mk. unfold get_detection_dataset_dicts_with_source.
    rewrite length_fmap. destruct catalog as [|nd catalog']; [done|].
    cbn [length Nat.eqb negb py_assert]. cbn [mbind result_bind].
    rewrite Hus. cbn [mbind result_bind]. rewrite Htag.
    cbn [mbind result_bind]. simpl bool_decide. cbn [py_assert mbind result_bind].
    by rewrite filter_loop_ok. }
  exists h'. split; [apply Hrun|]. split; [|split; [exact Hout|apply Hrun]].
  unfold tagged_concat. apply (fmap_tagged_concat h h' catalog.*2 0).
  intros j dj l Hj Hl. apply (Hin j dj l Hj Hl).
  intros k dk Hjk Hk. by eapply unshared_later.
Qed.

Lemma merger_returns_tagged_concat_witness :
  sample_catalog <> []
  /\ Forall (fun dicts => dicts <> []) sample_catalog.*2
  /\ unshared sample_catalog.*2
  /\ exists h',
       get_detection_dataset_dicts_with_source
         (fun _ dicts => take 1 dicts) (fun _ dicts _ => [])
         sample_store sample_catalog true 3 None
       = Ok ([0; 1; 2], h')
       /\ h' <$> [0; 1; 2] = [wide 0; tall 0; wide 1].
Proof.
  assert (H1 : sample_catalog <> []) by done.
  assert (H2 : Forall (fun dicts => dicts <> []) sample_catalog.*2)
    by (repeat constructor; done).
  assert (H3 : unshared sample_catalog.*2).
  { simpl. repeat split; repeat constructor;
      intros H; repeat (apply elem_of_cons in H as [H|H]; [discriminate|]);
      by apply elem_of_nil in H. }
  split; [exact H1|]. split; [exact H2|]. split; [exact H3|].
  destruct (merger_returns_tagged_concat
              (fun _ dicts => take 1 dicts) (fun _ dicts _ => [])
              sample_store sample_catalog true 3 H1 H2 H3)
    as (h' & Hrun & Hmap & _).
  exists h'. split; [exact Hrun|exact Hmap].
Defined.

(** When one dict object is listed in two datasets, the later tag is the
    one it keeps. *)
Example merger_shared_record :
  exists h',
    get_detection_dataset_dicts_with_source
      (fun _ dicts => dicts) (fun _ dicts _ => dicts)
      sample_store [("a"%string, [0]); ("b"%string, [0])] true 0 None
    = Ok ([0; 0], h')
    /\ h' <$> [0; 0] = [wide 1; wide 1].
Proof. eexists. split; reflexivity. Qed.

(** ** Iterators and [islice] *)

Lemma forM_fmap {A B C} (f : A -> B) (g : B -> result C) (l : list A) :
  forM (f <$> l) g = forM l (fun x => g (f x)).
Proof. induction l as [|x l IH]; csimpl; [done|]. by rewrite IH. Qed.

Section IteratorFacts.
Context {St A : Type} (next : iterator St A).

Lemma drain_add a b st :
  drain next (a + b) st = st' ← drain next a st; drain next b st'.
Proof.
  revert st. induction a as [|a IH]; intros st; simpl; [done|].
  destruct (next st) as [[x st']|e]; simpl; [apply IH|done].
Qed.

Lemma item_0 st : item next st 0 = '(x, _) ← next st; Ok x.
Proof. done. Qed.

Lemma item_S st p :
  item next st (S p) = '(_, st') ← next st; item next st' p.
Proof.
  unfold item. simpl. by destruct (next st) as [[x st']|e].
Qed.

Lemma item_add st st' a p :
  drain next a st = Ok st' -> item next st (a + p) = item next st' p.
Proof.
  intros Ha. unfold item. by rewrite drain_add, Ha.
Qed.

(** The first [n] items are the items at positions [0 .. n-1]. *)
Lemma take_iter_items n st :
  take_iter next n st = forM (seq 0 n) (item next st).
Proof.
  revert st. induction n as [|n IH]; intros st; [done|].
  cbn [take_iter seq forM]. rewrite item_0.
  destruct (next st) as [[x st']|e] eqn:Hnext; simpl; [|done].
  rewrite IH, <- fmap_S_seq, forM_fmap.
  erewrite forM_ext; [reflexivity|].
  apply Forall_forall. intros p _. by rewrite item_S, Hnext.
Qed.

Lemma item_eq st p :
  item next st p = st' ← drain next p st; '(x, _) ← next st'; Ok x.
Proof. done. Qed.

Lemma islice_next_eq step st skip :
  islice_next next step {| inner := st; skip := skip |}
  = st' ← drain next skip st;
    '(x, st'') ← next st';
    Ok (x, {| inner := st''; skip := step - 1 |}).
Proof. done. Qed.

(** [islice] with a positive step hands out the items at positions
    [skip], [skip + step], [skip + 2 * step], ... of the inner stream. *)
Lemma islice_items step k st skip :
  1 <= step ->
  take_iter (islice_next next step) k {| inner := st; skip := skip |}
  = forM (seq 0 k) (fun i => item next st (skip + i * step)).
Proof.
  intros Hstep. revert st skip.
  induction k as [|k IH]; intros st skip; [done|].
  cbn [take_iter seq forM]. rewrite islice_next_eq.
  replace (skip + 0 * step) with skip by lia. rewrite (item_eq st skip).
  destruct (drain next skip st) as [st1|e] eqn:Hdrain; simpl; [|done].
  destruct (next st1) as [[x st2]|e] eqn:Hnext; simpl; [|done].
  rewrite IH, <- fmap_S_seq, forM_fmap.
  erewrite forM_ext; [reflexivity|].
  apply Forall_forall. intros i _. cbv beta.
  replace (skip + S i * step) with (skip + S (step - 1 + i * step)) by lia.
  rewrite (item_add st st1 skip) by done.
  by rewrite item_S, Hnext.
Qed.
End IteratorFacts.

(** ** Weighted infinite sampler: iteration *)

Lemma item_ext {St A} (next next' : iterator St A) :
  (forall st, next st = next' st) ->
  forall p st, item next st p = item next' st p.
Proof.
  intros Hext. induction p as [|p IH]; intros st.
  - by rewrite !item_0, Hext.
  - rewrite !item_S, Hext. destruct (next' st) as [[x st']|e]; [apply IH|done].
Qed.

Lemma item_ok {St A} (next : iterator St A) :
  (forall st, is_Ok (next st)) -> forall p st, is_Ok (item next st p).
Proof.
  intros Hok. induction p as [|p IH]; intros st.
  - rewrite item_0. destruct (Hok st) as [[x st'] ->]. by eexists.
  - rewrite item_S. destruct (Hok st) as [[x st'] ->]. apply IH.
Qed.

Section IterationFacts.
Context `{G : Generator}.

Lemma valid_weights_nonempty w : valid_weights w = true -> w <> [].
Proof.
  intros Hv ->. unfold valid_weights in Hv. simpl in Hv.
  apply bool_decide_eq_true in Hv. lra.
Qed.

Lemma draws_lt w n g0 :
  w <> [] -> Forall (fun i => i < length w) (draws w n g0).1.
Proof.
  intros Hw. revert g0. induction n as [|n IH]; intros g0; simpl.
  - constructor.
  - pose proof (draw_lt w g0 Hw) as Hlt.
    destruct (draw w g0) as [i g1]. specialize (IH g1).
    destruct (draws w n g1) as [ids g2]. simpl in *. by constructor.
Qed.

Lemma nums_ok (self : Sampler.t) ids :
  Forall (fun i => i < length (Sampler.dataset_ids self)) ids ->
  is_Ok (nums self ids).
Proof.
  intros Hids. unfold nums.
  assert (exists src, forM ids (index (Sampler.dataset_ids self)) = Ok src)
    as [src Hsrc].
  { induction Hids as [|i ids Hi _ [src IH]]; [by eexists|]. cbn [forM].
    destruct (index_lt _ _ Hi) as [x ->].
    cbn [mbind result_bind]. rewrite IH. by eexists. }
  eexists. apply forM_ok. apply Forall_forall. intros i _.
  rewrite Hsrc. reflexivity.
Qed.

(** On a ready sampler the generator never raises, and [nums] has no
    bearing on what it yields. *)
Lemma indices_next_draw_next (self : Sampler.t) st :
  ready self ->
  indices_next self st
  = draw_next (Sampler.weights self) (Sampler.sample_epoch_size self) st.
Proof.
  intros (Hsize & Hvalid & Hids). unfold indices_next, draw_next.
  destruct (pending st); [|done]. unfold multinomial.
  rewrite Hvalid. destruct (Sampler.sample_epoch_size self) as [|n] eqn:Hn;
    [lia|]. cbn [Nat.eqb negb orb mbind result_bind].
  pose proof (draws_lt (Sampler.weights self) (S n) (g st)
                (valid_weights_nonempty _ Hvalid)) as Hlt.
  destruct (draws (Sampler.weights self) (S n) (g st)) as [ids g'].
  cbn [mbind result_bind]. simpl in Hlt.
  destruct (nums_ok self ids) as [ns ->]; [|done].
  eapply Forall_impl; [exact Hlt|]. intros i Hi. simpl in Hi. lia.
Qed.

(** The last branch of [indices_next] is never taken: [multinomial] does not
    return an empty list of draws. *)
Lemma multinomial_nonempty w n g0 ids g' :
  multinomial w n g0 = Ok (ids, g') -> ids <> [].
Proof.
  unfold multinomial. destruct n as [|n]; [done|]. simpl.
  destruct (valid_weights w); [|done]. simpl.
  destruct (draw w g0) as [i g1]. destruct (draws w n g1) as [l g2].
  by intros [= <- _].
Qed.

Lemma draw_next_ok w n st : 1 <= n -> is_Ok (draw_next w n st).
Proof.
  intros Hn. unfold draw_next. destruct (pending st); [|by eexists].
  destruct n as [|n]; [lia|]. simpl.
  destruct (draw w (g st)) as [i g1]. destruct (draws w n g1) as [ids g2].
  by eexists.
Qed.

Lemma global_item_draw_next (self : Sampler.t) p :
  ready self ->
  global_item self p
  = item (draw_next (Sampler.weights self) (Sampler.sample_epoch_size self))
         {| g := manual_seed (Sampler._seed self); pending := [] |} p.
Proof.
  intros Hr. unfold global_item. apply item_ext.
  intros st. by apply indices_next_draw_next.
Qed.

Lemma global_item_ok (self : Sampler.t) p :
  ready self -> is_Ok (global_item self p).
Proof.
  intros Hr. rewrite global_item_draw_next by done.
  apply item_ok. intros st. apply draw_next_ok, Hr.
Qed.

Lemma iter_next_Running (self : Sampler.t) it :
  iter_next self (Running it)
  = '(x, it') ← islice_next (indices_next self) (Sampler._world_size self) it;
    Ok (x, Running it').
Proof. done. Qed.

Lemma iter_next_Created (self : Sampler.t) :
  iter_next self Created
  = if (Sampler._world_size self =? 0)%nat then Raise ValueError
    else iter_next self (Running {| inner := _infinite_indices self;
                                    skip := Sampler._rank self |}).
Proof.
  unfold iter_next, islice.
  by destruct (Sampler._world_size self =? 0)%nat.
Qed.

(** Once started, the generator object is the [islice] it is suspended
    in. *)
Lemma iter_next_running (self : Sampler.t) k :
  forall it,
    take_iter (iter_next self) k (Running it)
    = take_iter (islice_next (indices_next self) (Sampler._world_size self))
                k it.
Proof.
  induction k as [|k IH]; intros it; [done|].
  cbn [take_iter]. rewrite iter_next_Running.
  destruct (islice_next _ _ it) as [[x it']|]; [|done].
  cbn [mbind result_bind]. by rewrite IH.
Qed.

Lemma iter_next_created (self : Sampler.t) k :
  1 <= Sampler._world_size self ->
  take_iter (iter_next self) k Created
  = take_iter (islice_next (indices_next self) (Sampler._world_size self)) k
              {| inner := _infinite_indices self;
                 skip := Sampler._rank self |}.
Proof.
  intros Hw. destruct k as [|k]; [done|].
  cbn [take_iter]. rewrite iter_next_Created.
  destruct (Nat.eqb_spec (Sampler._world_size self) 0) as [?|_]; [lia|].
  rewrite iter_next_Running.
  destruct (islice_next _ _ _) as [[x it']|]; [|done].
  cbn [mbind result_bind]. by rewrite iter_next_running.
Qed.

Lemma first_indices_items (self : Sampler.t) k :
  1 <= Sampler._world_size self ->
  first_indices self k
  = forM (seq 0 k)
         (fun i => global_item self
                     (Sampler._rank self + i * Sampler._world_size self)).
Proof.
  intros Hw. unfold first_indices, __iter__. cbn [mbind result_bind].
  rewrite iter_next_created by done.
  by rewrite islice_items by lia.
Qed.
End IterationFacts.

Lemma positions_mod r w p : r < w -> positions r w p -> p `mod` w = r.
Proof.
  intros Hr [k ->]. rewrite Nat.Div0.mod_add. by apply Nat.mod_small.
Qed.

Section Sharding.
Context `{G : Generator}.

(** The stream of a ready sampler is decided by its seed, its weights and
    its epoch size. *)
Lemma first_indices_draw_next (self : Sampler.t) k :
  ready self -> 1 <= Sampler._world_size self ->
  first_indices self k
  = forM (seq 0 k)
         (fun i =>
            item (draw_next (Sampler.weights self)
                            (Sampler.sample_epoch_size self))
                 {| g := manual_seed (Sampler._seed self); pending := [] |}
                 (Sampler._rank self + i * Sampler._world_size self)).
Proof.
  intros Hr Hw. rewrite first_indices_items by lia.
  apply forM_ext, Forall_forall. intros i _.
  by apply global_item_draw_next.
Qed.

(** C6. Let [D] be the global stream of draws of a sampler that is ready
    to iterate (it depends on the seed and the weights, not on the rank).
    For every rank [r] and world size [W >= 1], the iterator of that
    sampler on rank [r] yields exactly [D r], [D (r + W)], [D (r + 2 W)],
    ...; the position sets of two distinct ranks below [W] are disjoint,
    and the ranks [0 .. W-1] together cover every position. *)
Theorem rank_sharding (self : Sampler.t) :
  ready self ->
  exists D : nat -> nat,
    (forall n, global_prefix self n = Ok (D <$> seq 0 n))
    /\ (forall r W k, 1 <= W ->
          first_indices (reshard r W self) k
          = Ok ((fun i => D (r + i * W)) <$> seq 0 k))
    /\ (forall r1 r2 W p, r1 < W -> r2 < W -> r1 <> r2 ->
          ~ (positions r1 W p /\ positions r2 W p))
    /\ (forall W p, 1 <= W -> exists r, r < W /\ positions r W p).
Proof.
  intros Hr.
  exists (fun p => match global_item self p with
                   | Ok x => x
                   | Raise _ => 0
                   end).
  assert (HD : forall p,
             global_item self p
             = Ok (match global_item self p with
                   | Ok x => x
                   | Raise _ => 0
                   end)).
  { intros p. by destruct (global_item_ok self p Hr) as [x ->]. }
  split; [|split; [|split]].
  - intros n. unfold global_prefix. rewrite take_iter_items.
    apply forM_ok, Forall_forall. intros p _. apply HD.
  - intros r W k HW. rewrite first_indices_items by done.
    apply (forM_ok _ _ (fun i => match global_item self (r + i * W) with
                                 | Ok x => x
                                 | Raise _ => 0
                                 end)).
    apply Forall_forall. intros i _. apply (HD (r + i * W)).
  - intros r1 r2 W p H1 H2 Hne [Hp1 Hp2].
    apply Hne. by rewrite <- (positions_mod r1 W p), <- (positions_mod r2 W p).
  - intros W p HW. exists (p `mod` W). split.
    + apply Nat.mod_upper_bound. lia.
    + exists (p `div` W). rewrite (Nat.div_mod_eq p W) at 1. lia.
Qed.

End Sharding.

(** ** Weighted infinite sampler: construction *)

Lemma foldM_app {A St} (f : St -> A -> result St) (s : St) (l1 l2 : list A) :
  foldM f s (l1 ++ l2) = s' ← foldM f s l1; foldM f s' l2.
Proof.
  revert s. induction l1 as [|x l1 IH]; intros s; simpl; [done|].
  destruct (f s x); simpl; [apply IH|done].
Qed.

Lemma bump_group (sizes : list nat) (i n : nat) (group : list record) :
  sizes !! i = Some n ->
  Forall (fun d => dataset_source d = i) group ->
  foldM Sampler.bump sizes group = Ok (<[i := n + length group]> sizes).
Proof.
  intros Hi Hg. revert sizes n Hi.
  induction Hg as [|d group Hd _ IH]; intros sizes n Hi; simpl.
  - by rewrite Nat.add_0_r, list_insert_id.
  - assert (Sampler.bump sizes d = Ok (<[i := n + 1]> sizes)) as ->.
    { unfold Sampler.bump, index. by rewrite Hd, Hi. }
    simpl. rewrite (IH _ (n + 1)).
    + rewrite list_insert_insert_eq. do 2 f_equal. lia.
    + apply list_lookup_insert_eq. by eapply lookup_lt_Some.
Qed.

Lemma count_sizes_groups (pre : list nat) (groups : list (list record)) :
  (forall j group, groups !! j = Some group ->
                   Forall (fun d => dataset_source d = length pre + j) group) ->
  foldM Sampler.bump (pre ++ replicate (length groups) 0) (concat groups)
  = Ok (pre ++ (length <$> groups)).
Proof.
  revert pre. induction groups as [|group rest IH]; intros pre Hg; [done|].
  simpl. rewrite foldM_app.
  rewrite (bump_group _ (length pre) 0).
  - cbn [mbind result_bind]. rewrite insert_app_r_alt by lia.
    rewrite Nat.sub_diag. cbn [replicate insert list_insert Nat.add].
    rewrite !(cons_middle (length group) pre), !app_assoc.
    apply IH. intros j g Hj. rewrite length_app. simpl.
    replace (length pre + 1 + j) with (length pre + S j) by lia. by apply Hg.
  - rewrite lookup_app_r by lia. by rewrite Nat.sub_diag.
  - specialize (Hg 0 group eq_refl). by rewrite Nat.add_0_r in Hg.
Qed.

Lemma count_sizes_grouped (dataset_ratio : list R) (groups : list (list record)) :
  grouped groups -> length dataset_ratio = length groups ->
  Sampler.count_sizes dataset_ratio (concat groups) = Ok (length <$> groups).
Proof.
  intros Hg Hlen. unfold Sampler.count_sizes. rewrite Hlen.
  apply (count_sizes_groups [] groups). intros j group Hj. by apply Hg.
Qed.

Lemma slice_group {A} (pre group rest : list A) :
  slice (pre ++ group ++ rest) (length pre) (length pre + length group) = group.
Proof.
  unfold slice. rewrite drop_app_length.
  replace (length pre + length group - length pre) with (length group) by lia.
  by rewrite take_app_length.
Qed.

(** A factor loop over the sizes of the groups reads exactly the groups. *)
Lemma factors_loop_groups (dataset_dicts : list record)
    (body : nat -> nat -> nat -> result tensor)
    (F : nat -> list record -> result tensor) :
  (forall i group st,
      slice dataset_dicts st (st + length group) = group ->
      body i (length group) st = F i group) ->
  forall groups pre i,
    dataset_dicts = pre ++ concat groups ->
    Sampler.factors_loop body i (length pre) (length <$> groups)
    = group_factors F i groups.
Proof.
  intros Hbody. induction groups as [|group rest IH]; intros pre i Hd; [done|].
  csimpl. rewrite Hbody.
  - destruct (F i group); [|done]. simpl.
    rewrite <- length_app. rewrite (IH (pre ++ group)); [done|].
    by rewrite <- app_assoc.
  - rewrite Hd. simpl. apply slice_group.
Qed.

Lemma factors_loop_grouped (groups : list (list record))
    (body : nat -> nat -> nat -> result tensor)
    (F : nat -> list record -> result tensor) :
  (forall i group st,
      slice (concat groups) st (st + length group) = group ->
      body i (length group) st = F i group) ->
  Sampler.factors_loop body 0 0 (length <$> groups) = group_factors F 0 groups.
Proof.
  intros Hbody.
  exact (factors_loop_groups (concat groups) body F Hbody groups [] 0 eq_refl).
Qed.

Lemma rfs_body_group dataset_dicts use_rfs dataset_ann repeat_threshold i group st :
  slice dataset_dicts st (st + length group) = group ->
  Sampler.rfs_body dataset_dicts use_rfs dataset_ann repeat_threshold
                   i (length group) st
  = rfs_group use_rfs dataset_ann repeat_threshold i group.
Proof. intros Hs. unfold Sampler.rfs_body, rfs_group. by rewrite Hs. Qed.

Lemma cas_body_group dataset_dicts use_cas i group st :
  slice dataset_dicts st (st + length group) = group ->
  Sampler.cas_body dataset_dicts use_cas i (length group) st
  = cas_group use_cas i group.
Proof. intros Hs. unfold Sampler.cas_body, cas_group. by rewrite Hs. Qed.

Lemma renormalize_length s factor :
  length (Sampler.renormalize s factor) = length factor.
Proof. unfold Sampler.renormalize, tmul_s. by rewrite length_fmap. Qed.

Lemma ones_length s : length (ones s) = s.
Proof. apply length_replicate. Qed.

Lemma repeat_factors_from_ids_length ids dataset_dicts repeat_thresh t :
  repeat_factors_from_ids ids dataset_dicts repeat_thresh = Ok t ->
  length t = length dataset_dicts.
Proof.
  unfold repeat_factors_from_ids.
  destruct (count_ids ids dataset_dicts); [|done]. simpl.
  destruct (dict_forM _ _) as [freq|]; [|done]. simpl.
  destruct (dict_forM _ _) as [rep|]; [|done]. simpl.
  destruct (forM dataset_dicts _) as [factors|] eqn:Hf; [|done]. simpl.
  intros [= <-]. unfold of_list. rewrite length_fmap. by eapply forM_length.
Qed.

Lemma class_balance_length dataset_dicts l t :
  _get_class_balance_factor_per_dataset dataset_dicts l = Ok t ->
  length t = length dataset_dicts.
Proof.
  unfold _get_class_balance_factor_per_dataset.
  destruct (count_ids category_set dataset_dicts); [|done]. simpl.
  destruct (forM dataset_dicts _) as [ret|] eqn:Hf; [|done]. simpl.
  intros [= <-]. unfold of_list. rewrite length_fmap. by eapply forM_length.
Qed.

Lemma rfs_group_length use_rfs dataset_ann repeat_threshold i group t :
  rfs_group use_rfs dataset_ann repeat_threshold i group = Ok t ->
  length t = length group.
Proof.
  unfold rfs_group. destruct (index use_rfs i) as [[|]|]; simpl; [| |done].
  - destruct (index dataset_ann i) as [a|]; simpl; [|done].
    destruct (String.eqb a "box");
      [destruct (repeat_factors_from_category_frequency _ _) as [f|] eqn:Hf
      |destruct (repeat_factors_from_tag_frequency _ _) as [f|] eqn:Hf];
      simpl; try done; intros [= <-]; rewrite renormalize_length;
      by eapply repeat_factors_from_ids_length.
  - intros [= <-]. apply ones_length.
Qed.

Lemma cas_group_length use_cas i group t :
  cas_group use_cas i group = Ok t -> length t = length group.
Proof.
  unfold cas_group. destruct (index use_cas i) as [[|]|]; simpl; [| |done].
  - destruct (_get_class_balance_factor_per_dataset _ _) as [f|] eqn:Hf;
      simpl; [|done].
    intros [= <-]. rewrite renormalize_length. by eapply class_balance_length.
  - intros [= <-]. apply ones_length.
Qed.

Lemma group_factors_length F groups :
  (forall i group t, F i group = Ok t -> length t = length group) ->
  forall i factors,
    group_factors F i groups = Ok factors ->
    Forall2 (fun group factor => length factor = length group) groups factors.
Proof.
  intros HF. induction groups as [|group rest IH]; intros i factors; simpl.
  - intros [= <-]. constructor.
  - destruct (F i group) as [f|] eqn:Hf; simpl; [|done].
    destruct (group_factors F (S i) rest) as [fs|] eqn:Hfs; simpl; [|done].
    intros [= <-]. constructor; [by eapply HF|by eapply IH].
Qed.

Lemma dataset_weight_eq (dataset_ratio : list R) (sizes : list nat) :
  dataset_ratio <> [] -> sizes <> [] ->
  Sampler.dataset_weight dataset_ratio sizes
  = Ok (concat (zip_with
                  (fun r s => replicate s
                                (dataset_weight_entry dataset_ratio sizes r s))
                  dataset_ratio sizes)).
Proof.
  intros Hr Hs. unfold Sampler.dataset_weight.
  assert (Heq : zip_with
                  (fun r s =>
                     tdiv_s
                       (tmul_s
                          (tdiv_s (tmul_s (ones s) (Fin (INR (max_list sizes))))
                                  (Fin (INR s)))
                          (Fin r))
                       (Fin (pysum dataset_ratio)))
                  dataset_ratio sizes
                = zip_with
                    (fun r s => replicate s
                                  (dataset_weight_entry dataset_ratio sizes r s))
                    dataset_ratio sizes).
  { apply zip_with_ext; [|done..]. intros r s.
    unfold tdiv_s, tmul_s, ones. by rewrite !fmap_replicate. }
  rewrite Heq. destruct dataset_ratio as [|r0 ?]; [done|].
  by destruct sizes as [|s0 ?].
Qed.

Lemma tmul_concat (xs ys : list tensor) :
  Forall2 (fun x y => length x = length y) xs ys ->
  tmul (concat xs) (concat ys) = Ok (concat (zip_with (zip_with emul) xs ys)).
Proof.
  intros H. unfold tmul.
  assert (Hlen : length (concat xs) = length (concat ys)).
  { induction H as [|x y xs ys Hxy _ IH]; [done|]. simpl.
    rewrite !length_app. congruence. }
  rewrite decide_True by done. f_equal.
  induction H as [|x y xs ys Hxy H IH]; [done|]. simpl.
  rewrite zip_with_app by done. f_equal. apply IH.
  simpl in Hlen. rewrite !length_app in Hlen. lia.
Qed.

Lemma length_concat_groups {A B} (xs : list (list A)) (ys : list (list B)) :
  Forall2 (fun x y => length y = length x) xs ys ->
  length (concat ys) = length (concat xs).
Proof.
  induction 1 as [|x y xs ys Hxy _ IH]; [done|]. simpl.
  rewrite !length_app. congruence.
Qed.

Lemma dataset_weight_groups_length (dataset_ratio : list R)
    (groups : list (list record)) (f : R -> nat -> ext) :
  length dataset_ratio = length groups ->
  Forall2 (fun group x => length x = length group) groups
          (zip_with (fun r s => replicate s (f r s))
                    dataset_ratio (length <$> groups)).
Proof.
  revert dataset_ratio. induction groups as [|group rest IH];
    intros [|r ratio] Hlen; try done; csimpl.
  constructor; [apply length_replicate|]. apply IH. simpl in Hlen. lia.
Qed.

Lemma length_concat_zip_with (xs ys : list tensor) :
  Forall2 (fun x y => length x = length y) xs ys ->
  length (concat (zip_with (zip_with emul) xs ys)) = length (concat xs).
Proof.
  induction 1 as [|x y xs ys Hxy _ IH]; [done|]. simpl.
  rewrite !length_app, length_zip_with, IH. lia.
Qed.

(** The constructor on a merged list, group by group. *)
Lemma init_grouped (c : comm) (groups : list (list record))
    (dataset_ratio : list R) (use_rfs use_cas : list bool)
    (dataset_ann : list string) (repeat_threshold : R) (seed : option Z) :
  grouped groups -> groups <> [] -> length dataset_ratio = length groups ->
  Sampler.__init__ c (concat groups) dataset_ratio use_rfs use_cas dataset_ann
                   repeat_threshold seed
  = (_ ← group_factors (rfs_group use_rfs dataset_ann repeat_threshold) 0 groups;
     cas_factors ← group_factors (cas_group use_cas) 0 groups;
     Ok {| Sampler.sizes := length <$> groups;
           Sampler._seed := match seed with
                            | None => shared_random_seed c
                            | Some seed => seed
                            end;
           Sampler._rank := get_rank c;
           Sampler._world_size := get_world_size c;
           Sampler.dataset_ids := dataset_source <$> concat groups;
           Sampler.weights :=
             concat (zip_with (zip_with emul)
                       (zip_with
                          (fun r s =>
                             replicate s
                               (dataset_weight_entry
                                  dataset_ratio (length <$> groups) r s))
                          dataset_ratio (length <$> groups))
                       cas_factors);
           Sampler.sample_epoch_size := length (concat groups) |}).
Proof.
  intros Hg Hne Hlen. unfold Sampler.__init__.
  rewrite count_sizes_grouped by done. cbn [mbind result_bind].
  rewrite length_fmap, bool_decide_true by done. cbn [py_assert mbind result_bind].
  rewrite dataset_weight_eq;
    [|by destruct dataset_ratio, groups|by destruct groups].
  cbn [mbind result_bind].
  rewrite (factors_loop_grouped groups _
             (rfs_group use_rfs dataset_ann repeat_threshold)
             (fun i group st => rfs_body_group _ _ _ _ i group st)).
  rewrite (factors_loop_grouped groups _ (cas_group use_cas)
             (fun i group st => cas_body_group _ _ i group st)).
  pose proof (dataset_weight_groups_length dataset_ratio groups
                (dataset_weight_entry dataset_ratio (length <$> groups)) Hlen)
    as Hdw.
  destruct (group_factors (rfs_group _ _ _) 0 groups) as [rfs|e] eqn:Hrfs;
    [|done]. cbn [mbind result_bind].
  pose proof (group_factors_length _ groups
                (rfs_group_length use_rfs dataset_ann repeat_threshold)
                0 rfs Hrfs) as Hrl.
  assert (Hcat : forall fs : list tensor,
             Forall2 (fun group f => length f = length group) groups fs ->
             cat fs = Ok (concat fs)).
  { intros fs Hfs. destruct Hfs; [done|done]. }
  rewrite (Hcat rfs Hrl). cbn [mbind result_bind].
  assert (Hmul : forall fs : list tensor,
             Forall2 (fun group f => length f = length group) groups fs ->
             Forall2 (fun x y => length x = length y)
                     (zip_with
                        (fun r s =>
                           replicate s
                             (dataset_weight_entry
                                dataset_ratio (length <$> groups) r s))
                        dataset_ratio (length <$> groups)) fs).
  { intros fs Hfs. clear -Hdw Hfs. revert fs Hfs.
    induction Hdw as [|group x groups' xs Hx _ IH]; intros fs Hfs.
    - inversion Hfs. constructor.
    - inversion Hfs as [|? f ? fs' Hf Hfs']; subst. constructor; [lia|].
      by apply IH. }
  rewrite (tmul_concat _ rfs (Hmul rfs Hrl)). cbn [mbind result_bind].
  destruct (group_factors (cas_group use_cas) 0 groups) as [cas|e] eqn:Hcas;
    [|done]. cbn [mbind result_bind].
  pose proof (group_factors_length _ groups (cas_group_length use_cas)
                0 cas Hcas) as Hcl.
  rewrite (Hcat cas Hcl). cbn [mbind result_bind].
  rewrite (tmul_concat _ cas (Hmul cas Hcl)). cbn [mbind result_bind].
  do 2 f_equal.
  rewrite (length_concat_zip_with _ _ (Hmul rfs Hrl)).
  by rewrite (length_concat_groups _ _ Hdw).
Qed.

Lemma group_factors_ok F (G : nat -> list record -> tensor) groups i :
  (forall j group, groups !! j = Some group ->
                   F (i + j) group = Ok (G (i + j) group)) ->
  group_factors F i groups = Ok (imap (fun j group => G (i + j) group) groups).
Proof.
  revert i. induction groups as [|group rest IH]; intros i H; [done|].
  simpl. rewrite <- (Nat.add_0_r i) at 1. rewrite (H 0 group eq_refl). simpl.
  rewrite (IH (S i)).
  - simpl. rewrite Nat.add_0_r. do 2 f_equal. apply imap_ext.
    intros j g _. simpl. f_equal. lia.
  - intros j g Hj. replace (S i + j) with (i + S j) by lia. by apply H.
Qed.

Section Arithmetic.
Local Open Scope R_scope.

Lemma pysum_from (a : R) (l : list R) : foldl Rplus a l = a + pysum l.
Proof.
  unfold pysum. revert a. induction l as [|x l IH]; intros a; simpl.
  - lra.
  - rewrite (IH (a + x)), (IH (0 + x)). lra.
Qed.

Lemma pysum_cons (x : R) (l : list R) : pysum (x :: l) = x + pysum l.
Proof. unfold pysum at 1. simpl. rewrite pysum_from. lra. Qed.

Lemma pysum_nil : pysum [] = 0.
Proof. done. Qed.

Lemma pysum_nonneg (l : list R) : Forall (fun x => 0 <= x) l -> 0 <= pysum l.
Proof.
  induction 1 as [|x l Hx _ IH]; [rewrite pysum_nil; lra|].
  rewrite pysum_cons. lra.
Qed.

Lemma pysum_pos (l : list R) :
  l <> [] -> Forall (fun x => 0 < x) l -> 0 < pysum l.
Proof.
  intros Hne H. destruct H as [|x l Hx H]; [done|].
  rewrite pysum_cons.
  assert (0 <= pysum l); [|lra].
  apply pysum_nonneg. eapply Forall_impl; [exact H|]. intros; simpl in *; lra.
Qed.

Lemma emul_one_r (e : ext) : emul e (Fin 1) = e.
Proof. destruct e as [x|]; simpl; [|done]. f_equal. lra. Qed.

Lemma INR_pos (s : nat) : (0 < s)%nat -> 0 < INR s.
Proof. intros H. apply lt_0_INR. lia. Qed.

(** Line 248 computes the constant of section 4.4. *)
Lemma dataset_weight_entry_constant dataset_ratio sizes r s :
  (0 < s)%nat -> pysum dataset_ratio <> 0 ->
  dataset_weight_entry dataset_ratio sizes r s
  = Fin (dataset_constant dataset_ratio sizes r s).
Proof.
  intros Hs Hsum. unfold dataset_weight_entry, dataset_constant. simpl.
  pose proof (INR_pos s Hs).
  rewrite decide_False by lra. simpl. rewrite decide_False by done.
  f_equal. by rewrite Rmult_1_l.
Qed.

Lemma dataset_weight_replicate dataset_ratio sizes r s :
  pysum dataset_ratio <> 0 ->
  replicate s (dataset_weight_entry dataset_ratio sizes r s)
  = replicate s (Fin (dataset_constant dataset_ratio sizes r s)).
Proof.
  intros Hsum. destruct s as [|s]; [done|].
  rewrite dataset_weight_entry_constant; [done|lia|done].
Qed.
End Arithmetic.

Lemma zip_with_emul_ones (E : R -> nat -> ext) (dataset_ratio : list R)
    (groups : list (list record)) :
  zip_with (zip_with emul)
           (zip_with (fun r s => replicate s (E r s))
                     dataset_ratio (length <$> groups))
           ((fun group => ones (length group)) <$> groups)
  = zip_with (fun r s => replicate s (E r s)) dataset_ratio (length <$> groups).
Proof.
  revert dataset_ratio. induction groups as [|group rest IH];
    intros [|r ratio]; try done; csimpl.
  f_equal; [|apply IH]. unfold ones.
  rewrite zip_with_replicate. f_equal. apply emul_one_r.
Qed.

Lemma flags_off_ones (flags : list bool) (F : nat -> list record -> result tensor)
    (groups : list (list record)) :
  (forall i group, index flags i = Ok false -> F i group = Ok (ones (length group))) ->
  Forall (fun b => b = false) flags -> length groups <= length flags ->
  group_factors F 0 groups = Ok ((fun group => ones (length group)) <$> groups).
Proof.
  intros HF Hoff Hlen.
  rewrite (group_factors_ok F (fun _ group => ones (length group))).
  - f_equal. clear. generalize 0. induction groups as [|g rest IH]; intros n; [done|].
    csimpl. f_equal. apply (IH (S n)).
  - intros j group Hj. apply HF. apply lookup_lt_Some in Hj.
    destruct (index_lt flags j) as [b Hb]; [lia|]. simpl. rewrite Hb. f_equal.
    rewrite Forall_forall in Hoff. apply Hoff. unfold index in Hb.
    destruct (flags !! j) eqn:Hf; [|done]. injection Hb as ->.
    by eapply list_elem_of_lookup_2.
Qed.

(** With both rebalancing flags off for every dataset the weight vector is
    the dataset weight. *)
Lemma init_flags_off (c : comm) (groups : list (list record))
    (dataset_ratio : list R) (use_rfs use_cas : list bool)
    (dataset_ann : list string) (repeat_threshold : R) (seed : option Z) :
  grouped groups -> groups <> [] -> length dataset_ratio = length groups ->
  Forall (fun b => b = false) use_rfs -> length groups <= length use_rfs ->
  Forall (fun b => b = false) use_cas -> length groups <= length use_cas ->
  exists self,
    Sampler.__init__ c (concat groups) dataset_ratio use_rfs use_cas dataset_ann
                     repeat_threshold seed = Ok self
    /\ Sampler.sizes self = length <$> groups
    /\ Sampler.weights self
       = concat (zip_with
                   (fun r s =>
                      replicate s (dataset_weight_entry
                                     dataset_ratio (length <$> groups) r s))
                   dataset_ratio (length <$> groups)).
Proof.
  intros Hg Hne Hlen Hrfs Hrl Hcas Hcl.
  rewrite init_grouped by done.
  rewrite (flags_off_ones use_rfs
             (rfs_group use_rfs dataset_ann repeat_threshold)) by
    (try done; intros i group Hi; unfold rfs_group; by rewrite Hi).
  rewrite (flags_off_ones use_cas (cas_group use_cas)) by
    (try done; intros i group Hi; unfold cas_group; by rewrite Hi).
  cbn [mbind result_bind]. eexists. split; [done|]. split; [done|].
  cbn [Sampler.weights]. by rewrite zip_with_emul_ones.
Qed.

Lemma grouped_cons group groups :
  Forall (fun d => dataset_source d = 0) group ->
  (forall i g, groups !! i = Some g -> Forall (fun d => dataset_source d = S i) g) ->
  grouped (group :: groups).
Proof.
  intros H0 Hrest [|i] g Hi; simpl in Hi.
  - by injection Hi as <-.
  - by apply Hrest.
Qed.

Lemma scenario_grouped : grouped scenario_groups.
Proof.
  apply grouped_cons; [by apply Forall_replicate|].
  intros [|[|i]] g Hi; simpl in Hi; [|done..].
  injection Hi as <-. repeat constructor.
Qed.

Section DatasetWeight.
Local Open Scope R_scope.

(** C4. For every construction over a merged list with aligned, non-zero-sum
    ratios, the dataset weight of line 248 is, for each record of
    DatasetGroup [i], the constant
    [max(sizes) / sizes[i] * ratio[i] / sum(ratio)]; with both rebalancing
    flags off this is the weight vector.  In particular for sizes
    [[100, 10]] and ratios [[1, 1]] with the flags off the weights are 0.5
    for the 100 records of the first dataset and 5.0 for the 10 records of
    the second. *)
Theorem dataset_weight_is_constant (c : comm) (groups : list (list record))
    (dataset_ratio : list R) (use_rfs use_cas : list bool)
    (dataset_ann : list string) (repeat_threshold : R) (seed : option Z) :
  grouped groups -> groups <> [] ->
  length dataset_ratio = length groups ->
  pysum dataset_ratio <> 0 ->
  Sampler.dataset_weight dataset_ratio (length <$> groups)
  = Ok (concat (zip_with
                  (fun r s =>
                     replicate s
                       (Fin (dataset_constant
                               dataset_ratio (length <$> groups) r s)))
                  dataset_ratio (length <$> groups)))
  /\ (Forall (fun b => b = false) use_rfs ->
      (length groups <= length use_rfs)%nat ->
      Forall (fun b => b = false) use_cas ->
      (length groups <= length use_cas)%nat ->
      exists self,
        Sampler.__init__ c (concat groups) dataset_ratio use_rfs use_cas
                         dataset_ann repeat_threshold seed = Ok self
        /\ Sampler.weights self
           = concat (zip_with
                       (fun r s =>
                          replicate s
                            (Fin (dataset_constant
                                    dataset_ratio (length <$> groups) r s)))
                       dataset_ratio (length <$> groups)))
  /\ (exists self,
        Sampler.__init__ c (concat scenario_groups) [1; 1]
                         [false; false] [false; false]
                         dataset_ann repeat_threshold seed = Ok self
        /\ Sampler.weights self
           = replicate 100 (Fin (1 / 2)) ++ replicate 10 (Fin 5)).
Proof.
  intros Hg Hne Hlen Hsum.
  assert (Hzip : forall (ratio : list R) (gs : list (list record)),
             pysum ratio <> 0 ->
             zip_with
               (fun r s => replicate s (dataset_weight_entry
                                          ratio (length <$> gs) r s))
               ratio (length <$> gs)
             = zip_with
                 (fun r s => replicate s
                               (Fin (dataset_constant ratio (length <$> gs) r s)))
                 ratio (length <$> gs)).
  { intros ratio gs Hs. apply zip_with_ext; [|done..]. intros r s.
    by apply dataset_weight_replicate. }
  split; [|split].
  - rewrite dataset_weight_eq;
      [|by destruct dataset_ratio, groups|by destruct groups].
    by rewrite Hzip.
  - intros Hrfs Hrl Hcas Hcl.
    destruct (init_flags_off c groups dataset_ratio use_rfs use_cas
                dataset_ann repeat_threshold seed)
      as (self & Hinit & _ & Hw); try done.
    exists self. split; [done|]. by rewrite Hw, Hzip.
  - destruct (init_flags_off c scenario_groups [1; 1] [false; false]
                [false; false] dataset_ann repeat_threshold seed)
      as (self & Hinit & _ & Hw);
      [apply scenario_grouped|done|done|repeat constructor
      |simpl; lia|repeat constructor|simpl; lia|].
    exists self. split; [done|]. rewrite Hw, Hzip.
    + unfold scenario_groups. cbn [fmap list_fmap zip_with concat].
      rewrite !length_replicate, app_nil_r. unfold dataset_constant.
      replace (max_list [100; 10]%nat) with 100%nat by reflexivity.
      rewrite !INR_IZR_INZ.
      change (Z.of_nat 100) with 100%Z. change (Z.of_nat 10) with 10%Z.
      unfold pysum. cbn [foldl].
      do 2 f_equal; f_equal; lra.
    + unfold pysum. cbn [foldl]. lra.
Qed.

Lemma dataset_weight_is_constant_witness :
  grouped scenario_groups
  /\ scenario_groups <> []
  /\ length [1; 1] = length scenario_groups
  /\ pysum [1; 1] <> 0
  /\ Sampler.dataset_weight [1; 1] (length <$> scenario_groups)
     = Ok (concat (zip_with
                     (fun r s =>
                        replicate s
                          (Fin (dataset_constant
                                  [1; 1] (length <$> scenario_groups) r s)))
                     [1; 1] (length <$> scenario_groups))).
Proof.
  assert (H4 : pysum [1; 1] <> 0) by (unfold pysum; cbn [foldl]; lra).
  split; [apply scenario_grouped|]. split; [done|]. split; [done|].
  split; [exact H4|].
  apply (dataset_weight_is_constant single_process scenario_groups [1; 1] [false; false] [false; false]
           ["box"%string; "box"%string] 1 None
           scenario_grouped); [done|done|exact H4].
Defined.
End DatasetWeight.

(** ** Construction failures *)

Lemma bump_length sizes d sizes' :
  Sampler.bump sizes d = Ok sizes' -> length sizes' = length sizes.
Proof.
  unfold Sampler.bump. destruct (index sizes (dataset_source d)); [|done].
  simpl. intros [= <-]. apply length_insert.
Qed.

Lemma foldM_bump_length dataset_dicts :
  forall sizes sizes',
    foldM Sampler.bump sizes dataset_dicts = Ok sizes' ->
    length sizes' = length sizes.
Proof.
  induction dataset_dicts as [|d rest IH]; intros sizes sizes'; simpl.
  - by intros [= <-].
  - destruct (Sampler.bump sizes d) as [s1|] eqn:Hb; simpl; [|done].
    intros H. rewrite (IH _ _ H). by eapply bump_length.
Qed.

(** The assertion of lines 232-236 compares [len(dataset_ratio)] with the
    length of a list that was built with [len(dataset_ratio)] entries: it
    never fails. *)
Lemma ratio_assert_vacuous (dataset_ratio : list R) dataset_dicts sizes :
  Sampler.count_sizes dataset_ratio dataset_dicts = Ok sizes ->
  py_assert (bool_decide (length dataset_ratio = length sizes)) = Ok tt.
Proof.
  intros H. apply foldM_bump_length in H. rewrite length_replicate in H.
  by rewrite bool_decide_true.
Qed.

Lemma foldM_bump_out_of_range dataset_dicts :
  forall sizes,
    Exists (fun d => length sizes <= dataset_source d) dataset_dicts ->
    foldM Sampler.bump sizes dataset_dicts = Raise IndexError.
Proof.
  induction dataset_dicts as [|d rest IH]; intros sizes Hex.
  - by apply Exists_nil in Hex.
  - simpl. destruct (Sampler.bump sizes d) as [s1|e] eqn:Hb; simpl.
    + apply IH. rewrite (bump_length _ _ _ Hb).
      apply Exists_cons in Hex as [Hd|Hex]; [|done].
      exfalso. revert Hb. unfold Sampler.bump. by rewrite index_ge.
    + revert Hb. unfold Sampler.bump, index.
      by destruct (sizes !! dataset_source d).
Qed.

Lemma factors_loop_raises body sizes :
  forall i st j,
    j < length sizes ->
    (forall s st', exists e, body (i + j) s st' = Raise e) ->
    exists e, Sampler.factors_loop body i st sizes = Raise e.
Proof.
  induction sizes as [|s rest IH]; intros i st j Hj Hbody; [simpl in Hj; lia|].
  simpl. destruct j as [|j].
  - destruct (Hbody s st) as [e He]. rewrite Nat.add_0_r in He. rewrite He.
    by exists e.
  - destruct (body i s st) as [f|e]; [|by exists e]. simpl.
    destruct (IH (S i) (st + s) j) as [e He].
    + simpl in Hj. lia.
    + intros s' st'. replace (S i + j) with (i + S j) by lia. apply Hbody.
    + rewrite He. by exists e.
Qed.

Lemma grouped_one group :
  Forall (fun d => dataset_source d = 0) group -> grouped [group].
Proof. intros H. apply grouped_cons; [done|]. by intros i g Hi. Qed.

(** C9, as stated, fails: one dataset is present, and [use_rfs] of length 2
    and [use_cas] of length 3 are accepted without any error. *)
Lemma init_accepts_long_flags_counterexample :
  is_Ok (Sampler.__init__ single_process [wide 0] [1%R]
                          [false; false] [false; false; false]
                          ["box"%string] 1%R (Some 0%Z))
  /\ ~ (forall dataset_dicts dataset_ratio use_rfs use_cas dataset_ann
               repeat_threshold seed,
          length use_rfs <> length dataset_ratio ->
          ~ is_Ok (Sampler.__init__ single_process dataset_dicts dataset_ratio
                                    use_rfs use_cas dataset_ann
                                    repeat_threshold seed)).
Proof.
  assert (Hok : is_Ok (Sampler.__init__ single_process [wide 0] [1%R]
                          [false; false] [false; false; false]
                          ["box"%string] 1%R (Some 0%Z))).
  { destruct (init_flags_off single_process [[wide 0]] [1%R]
                [false; false] [false; false; false] ["box"%string] 1%R
                (Some 0%Z)) as (self & Hinit & _);
      [apply grouped_one; by repeat constructor|done|done
      |repeat constructor|simpl; lia|repeat constructor|simpl; lia|].
    by exists self. }
  split; [exact Hok|]. intros H. by eapply H; [|exact Hok].
Qed.

(** The check of [dataset_ratio] itself is void (see
    [ratio_assert_vacuous]): a ratio vector that is longer than the number
    of datasets present is accepted as well. *)
Lemma init_accepts_long_ratio :
  exists self,
    Sampler.__init__ single_process [wide 0] [1%R; 1%R; 1%R]
                     [false; false; false] [false; false; false]
                     [] 1%R (Some 0%Z) = Ok self
    /\ Sampler.sizes self = [1; 0; 0]
    /\ Sampler.weights self = [Fin (1 / 3)%R].
Proof.
  destruct (init_flags_off single_process [[wide 0]; []; []] [1%R; 1%R; 1%R]
              [false; false; false] [false; false; false] [] 1%R (Some 0%Z))
    as (self & Hinit & Hsizes & Hw);
    [|done|done|repeat constructor|simpl; lia|repeat constructor|simpl; lia|].
  { apply grouped_cons; [by repeat constructor|].
    intros [|[|i]] g Hi; simpl in Hi; try done; injection Hi as <-; constructor. }
  exists self. split; [exact Hinit|]. split; [exact Hsizes|].
  rewrite Hw. simpl. rewrite dataset_weight_entry_constant.
  - unfold dataset_constant, pysum. simpl. do 2 f_equal. lra.
  - lia.
  - unfold pysum. simpl. lra.
Qed.

(** The factor loops read their body at the indices of [sizes] only. *)
Lemma factors_loop_ext body body' sizes :
  forall i st,
    (forall j s st', j < length sizes ->
                     body (i + j) s st' = body' (i + j) s st') ->
    Sampler.factors_loop body i st sizes = Sampler.factors_loop body' i st sizes.
Proof.
  induction sizes as [|s rest IH]; intros i st Hext; [done|].
  cbn [Sampler.factors_loop].
  pose proof (Hext 0 s st ltac:(simpl; lia)) as H0.
  rewrite Nat.add_0_r in H0. rewrite <- H0.
  destruct (body i s st) as [f|e]; [|done]. cbn [mbind result_bind].
  rewrite (IH (S i) (st + s)); [done|].
  intros j s' st' Hj. replace (S i + j) with (i + S j) by lia.
  apply Hext. simpl. lia.
Qed.

Lemma index_take {A} (l : list A) (n i : nat) :
  i < n -> index (take n l) i = index l i.
Proof. intros Hi. unfold index. by rewrite lookup_take_lt. Qed.

(** C9, amended. Construction fails — it raises, so no sampler exists and no
    index is sampled — whenever some record's [dataset_source] is not below
    [len(dataset_ratio)] (an [IndexError]), or [use_rfs] or [use_cas] is
    shorter than [dataset_ratio].  The entries of [use_rfs] and [use_cas]
    beyond the first [len(dataset_ratio)] are never read: construction with
    longer lists has exactly the outcome, the same sampler or the same
    exception, of construction with both lists cut to [len(dataset_ratio)]
    entries, so a list that is longer than [dataset_ratio] is never an error
    in itself. *)
Theorem init_flag_lengths (c : comm) (dataset_dicts : list record)
    (dataset_ratio : list R) (use_rfs use_cas : list bool)
    (dataset_ann : list string) (repeat_threshold : R) (seed : option Z) :
  (Exists (fun d => length dataset_ratio <= dataset_source d) dataset_dicts ->
   Sampler.__init__ c dataset_dicts dataset_ratio use_rfs use_cas
                    dataset_ann repeat_threshold seed = Raise IndexError)
  /\ (length use_rfs < length dataset_ratio
      \/ length use_cas < length dataset_ratio ->
      exists e, Sampler.__init__ c dataset_dicts dataset_ratio use_rfs use_cas
                                 dataset_ann repeat_threshold seed = Raise e)
  /\ Sampler.__init__ c dataset_dicts dataset_ratio
                      (take (length dataset_ratio) use_rfs)
                      (take (length dataset_ratio) use_cas)
                      dataset_ann repeat_threshold seed
     = Sampler.__init__ c dataset_dicts dataset_ratio use_rfs use_cas
                        dataset_ann repeat_threshold seed.
Proof.
  split; [|split].
  - intros Hex. unfold Sampler.__init__, Sampler.count_sizes.
    rewrite foldM_bump_out_of_range; [done|]. by rewrite length_replicate.
  - intros Hshort. unfold Sampler.__init__.
    destruct (Sampler.count_sizes dataset_ratio dataset_dicts) as [sizes|e]
      eqn:Hsizes; [|by exists e].
    cbn [mbind result_bind]. rewrite (ratio_assert_vacuous _ _ _ Hsizes).
    cbn [mbind result_bind].
    apply foldM_bump_length in Hsizes. rewrite length_replicate in Hsizes.
    destruct (Sampler.dataset_weight dataset_ratio sizes) as [dw|e];
      [|by exists e]. cbn [mbind result_bind].
    destruct Hshort as [Hrfs|Hcas].
    + destruct (factors_loop_raises
                  (Sampler.rfs_body dataset_dicts use_rfs dataset_ann
                                    repeat_threshold)
                  sizes 0 0 (length use_rfs)) as [e He]; [lia| |].
      * intros s st. exists IndexError. unfold Sampler.rfs_body.
        rewrite (index_ge use_rfs) by lia. done.
      * rewrite He. by exists e.
    + destruct (Sampler.factors_loop (Sampler.rfs_body _ _ _ _) 0 0 sizes)
        as [rfs|e]; [|by exists e]. cbn [mbind result_bind].
      destruct (cat rfs) as [rfs'|e]; [|by exists e]. cbn [mbind result_bind].
      destruct (tmul dw rfs') as [w1|e]; [|by exists e].
      cbn [mbind result_bind].
      destruct (factors_loop_raises (Sampler.cas_body dataset_dicts use_cas)
                  sizes 0 0 (length use_cas)) as [e He]; [lia| |].
      * intros s st. exists IndexError. unfold Sampler.cas_body.
        rewrite (index_ge use_cas) by lia. done.
      * rewrite He. by exists e.
  - unfold Sampler.__init__.
    destruct (Sampler.count_sizes dataset_ratio dataset_dicts) as [sizes|e]
      eqn:Hsizes; [|done].
    cbn [mbind result_bind].
    apply foldM_bump_length in Hsizes. rewrite length_replicate in Hsizes.
    rewrite (factors_loop_ext
               (Sampler.rfs_body dataset_dicts
                  (take (length dataset_ratio) use_rfs) dataset_ann
                  repeat_threshold)
               (Sampler.rfs_body dataset_dicts use_rfs dataset_ann
                                 repeat_threshold)).
    2:{ intros j s st Hj. unfold Sampler.rfs_body.
        by rewrite index_take by (simpl; lia). }
    rewrite (factors_loop_ext
               (Sampler.cas_body dataset_dicts
                  (take (length dataset_ratio) use_cas))
               (Sampler.cas_body dataset_dicts use_cas)).
    2:{ intros j s st Hj. unfold Sampler.cas_body.
        by rewrite index_take by (simpl; lia). }
    done.
Qed.

(** One dataset, [use_rfs] missing: construction raises.  One dataset,
    flags of lengths 2 and 3: construction goes as with flags of length 1,
    and completes. *)
Lemma init_flag_lengths_witness :
  (exists e, Sampler.__init__ single_process [wide 0] [1%R] [] [false]
                              ["box"%string] 1%R (Some 0%Z) = Raise e)
  /\ Sampler.__init__ single_process [wide 0] [1%R] [false] [false]
                      ["box"%string] 1%R (Some 0%Z)
     = Sampler.__init__ single_process [wide 0] [1%R]
                        [false; false] [false; false; false]
                        ["box"%string] 1%R (Some 0%Z).
Proof.
  split.
  - apply (proj1 (proj2 (init_flag_lengths single_process [wide 0] [1%R] []
                           [false] ["box"%string] 1%R (Some 0%Z)))).
    left. simpl. lia.
  - exact (proj2 (proj2 (init_flag_lengths single_process [wide 0] [1%R]
                           [false; false] [false; false; false]
                           ["box"%string] 1%R (Some 0%Z)))).
Defined.

(** ** Samplers that are ready to iterate *)

(** A sampler constructed from a merged list is ready as soon as torch
    accepts its weights. *)
Lemma init_ready (c : comm) (groups : list (list record))
    (dataset_ratio : list R) (use_rfs use_cas : list bool)
    (dataset_ann : list string) (repeat_threshold : R) (seed : option Z) self :
  grouped groups -> groups <> [] -> length dataset_ratio = length groups ->
  Sampler.__init__ c (concat groups) dataset_ratio use_rfs use_cas dataset_ann
                   repeat_threshold seed = Ok self ->
  valid_weights (Sampler.weights self) = true ->
  ready self.
Proof.
  intros Hg Hne Hlen Hinit Hvalid. rewrite init_grouped in Hinit by done.
  destruct (group_factors (rfs_group _ _ _) 0 groups) as [rfs|]; [|done].
  destruct (group_factors (cas_group use_cas) 0 groups) as [cas|] eqn:Hcas;
    [|done].
  cbn [mbind result_bind] in Hinit. injection Hinit as <-.
  cbn [Sampler.weights] in Hvalid.
  pose proof (group_factors_length _ groups (cas_group_length use_cas)
                0 cas Hcas) as Hcl.
  pose proof (dataset_weight_groups_length dataset_ratio groups
                (dataset_weight_entry dataset_ratio (length <$> groups)) Hlen)
    as Hdw.
  assert (Hw : length (concat (zip_with (zip_with emul)
                 (zip_with
                    (fun r s => replicate s
                                  (dataset_weight_entry
                                     dataset_ratio (length <$> groups) r s))
                    dataset_ratio (length <$> groups)) cas))
               = length (concat groups)).
  { rewrite length_concat_zip_with.
    - by rewrite (length_concat_groups _ _ Hdw).
    - clear -Hdw Hcl. revert cas Hcl.
      induction Hdw as [|group x groups' xs Hx _ IH]; intros cas Hcl.
      + inversion Hcl. constructor.
      + inversion Hcl as [|? f ? fs' Hf Hfs']; subst. constructor; [lia|].
        by apply IH. }
  pose proof (valid_weights_nonempty _ Hvalid) as Hnonempty.
  unfold ready. cbn [Sampler.sample_epoch_size Sampler.weights Sampler.dataset_ids].
  split; [|split; [done|by rewrite Hw, length_fmap]].
  rewrite <- Hw.
  match goal with
  | |- 1 <= length ?w => destruct w; [done|simpl; lia]
  end.
Qed.

(** The constructor run in another process with the same seed gives the
    same sampler on that process's rank and world size. *)
Lemma init_reshard (c c' : comm) (dataset_dicts : list record)
    (dataset_ratio : list R) (use_rfs use_cas : list bool)
    (dataset_ann : list string) (repeat_threshold : R) (seed : option Z) self :
  (seed = None -> shared_random_seed c' = shared_random_seed c) ->
  Sampler.__init__ c dataset_dicts dataset_ratio use_rfs use_cas dataset_ann
                   repeat_threshold seed = Ok self ->
  Sampler.__init__ c' dataset_dicts dataset_ratio use_rfs use_cas dataset_ann
                   repeat_threshold seed
  = Ok (reshard (get_rank c') (get_world_size c') self).
Proof.
  intros Hseed. unfold Sampler.__init__.
  repeat match goal with
         | |- (?m ≫= _ = _) -> _ =>
             destruct m; cbn [mbind result_bind]; [|done]
         end.
  intros [= <-]. unfold reshard. simpl.
  destruct seed; [done|]. by rewrite Hseed.
Qed.

Lemma sample_sampler_ready : ready sample_sampler.
Proof.
  split; [simpl; lia|]. split; [|simpl; lia].
  unfold valid_weights, tsum. simpl.
  rewrite !bool_decide_true by lra. done.
Qed.

Lemma rank_sharding_witness :
  ready sample_sampler
  /\ exists D : nat -> nat,
       (forall n, global_prefix (G := counter_generator) sample_sampler n
                  = Ok (D <$> seq 0 n))
       /\ (forall r W k, 1 <= W ->
             first_indices (G := counter_generator) (reshard r W sample_sampler) k
             = Ok ((fun i => D (r + i * W)) <$> seq 0 k)).
Proof.
  split; [exact sample_sampler_ready|].
  destruct (rank_sharding (G := counter_generator) sample_sampler
              sample_sampler_ready) as (D & HD & Hshard & _).
  exists D. split; [exact HD|exact Hshard].
Defined.

(** The sample sampler on the toy generator: the global stream from seed 5
    is 2, 0, 1, 2, 0, 1, ...; rank 1 of 2 receives positions 1, 3, 5 and
    rank 0 positions 0, 2, 4. *)
Example sample_sampler_shards :
  global_prefix (G := counter_generator) sample_sampler 6
  = Ok [2; 0; 1; 2; 0; 1]
  /\ first_indices (G := counter_generator) sample_sampler 3 = Ok [0; 2; 1]
  /\ first_indices (G := counter_generator) (reshard 0 2 sample_sampler) 3
     = Ok [2; 1; 0].
Proof.
  pose proof sample_sampler_ready as Hr.
  assert (Hr0 : ready (reshard 0 2 sample_sampler))
    by exact Hr.
  split; [|split].
  - unfold global_prefix. rewrite take_iter_items.
    erewrite forM_ext.
    2:{ apply Forall_forall. intros p _.
        apply (global_item_draw_next (G := counter_generator) sample_sampler p Hr). }
    reflexivity.
  - rewrite (first_indices_draw_next (G := counter_generator) _ _ Hr)
      by (simpl; lia).
    reflexivity.
  - rewrite (first_indices_draw_next (G := counter_generator) _ _ Hr0)
      by (simpl; lia).
    reflexivity.
Qed.

(** ** The counting loop of the estimators *)

Lemma bumped_bumped o a b : bumped (bumped o a) b = bumped o (a + b).
Proof.
  unfold bumped. repeat case_decide; try lia; try done;
    simpl; f_equal; lia.
Qed.

Lemma incr_lookup (m : gmap nat nat) (c' c : nat) :
  incr m c' !! c = bumped (m !! c) (if decide (c' = c) then 1 else 0).
Proof.
  unfold incr, bumped. destruct (decide (c' = c)) as [->|Hne].
  - by rewrite lookup_insert_eq.
  - by rewrite lookup_insert_ne.
Qed.

Lemma foldl_incr_lookup (ids : list nat) (m : gmap nat nat) (c : nat) :
  foldl incr m ids !! c
  = bumped (m !! c) (length (filter (fun x => x = c) ids)).
Proof.
  revert m. induction ids as [|c' ids IH]; intros m; simpl.
  - unfold bumped. by rewrite decide_True.
  - rewrite IH, incr_lookup, bumped_bumped. f_equal.
    rewrite filter_cons. by destruct (decide (c' = c)).
Qed.

Lemma count_map_lookup (idss : list (list nat)) (m : gmap nat nat) (c : nat) :
  foldl (foldl incr) m idss !! c = bumped (m !! c) (occurrences c idss).
Proof.
  revert m. induction idss as [|ids idss IH]; intros m; simpl.
  - unfold bumped. by rewrite decide_True.
  - rewrite IH, foldl_incr_lookup, bumped_bumped. done.
Qed.

Lemma count_ids_ok (ids : record -> result (list nat)) (I : record -> list nat)
    (dataset_dicts : list record) :
  Forall (fun d => ids d = Ok (I d)) dataset_dicts ->
  count_ids ids dataset_dicts = Ok (foldl (foldl incr) ∅ (I <$> dataset_dicts)).
Proof.
  intros H. unfold count_ids. generalize (∅ : gmap nat nat).
  induction H as [|d rest Hd _ IH]; intros m; simpl; [done|].
  rewrite Hd. simpl. apply IH.
Qed.

Lemma count_ids_lookup (ids : record -> result (list nat)) (I : record -> list nat)
    (dataset_dicts : list record) :
  Forall (fun d => ids d = Ok (I d)) dataset_dicts ->
  exists m,
    count_ids ids dataset_dicts = Ok m
    /\ forall c, m !! c = bumped None (occurrences c (I <$> dataset_dicts)).
Proof.
  intros H. eexists. split; [by apply count_ids_ok|].
  intros c. by rewrite count_map_lookup, lookup_empty.
Qed.

Lemma occurrences_elem c ids idss :
  ids ∈ idss -> c ∈ ids -> 1 <= occurrences c idss.
Proof.
  intros Hin Hc. unfold occurrences.
  induction idss as [|ids' idss IH]; [by apply elem_of_nil in Hin|].
  csimpl. apply elem_of_cons in Hin as [<-|Hin].
  - assert (c ∈ filter (fun x => x = c) ids) as Hf
        by (by apply list_elem_of_filter).
    destruct (filter _ ids); [by apply elem_of_nil in Hf|simpl; lia].
  - specialize (IH Hin). lia.
Qed.

Lemma occurrences_records_with c idss :
  Forall NoDup idss -> occurrences c idss = records_with c idss.
Proof.
  unfold occurrences, records_with.
  induction 1 as [|ids idss Hnd _ IH]; [done|].
  csimpl. rewrite filter_cons, IH.
  assert (Hcount : length (filter (fun x => x = c) ids)
                   = if decide (c ∈ ids) then 1 else 0).
  { clear -Hnd. induction Hnd as [|x ids Hx Hnd IH]; [done|].
    rewrite filter_cons. destruct (decide (x = c)) as [->|Hne].
    - simpl. rewrite IH, decide_False by done.
      by rewrite decide_True by (apply list_elem_of_here).
    - rewrite IH. destruct (decide (c ∈ ids)) as [Hin|Hnin].
      + by rewrite decide_True by (by apply list_elem_of_further).
      + rewrite decide_False; [done|].
        intros [?|?]%elem_of_cons; [by subst|done]. }
  destruct (decide (c ∈ ids)); simpl; rewrite Hcount; done.
Qed.

Lemma dict_forM_ok {A B} (m : gmap nat A) (f : A -> result B) (g : A -> B) :
  (forall k v, m !! k = Some v -> f v = Ok (g v)) ->
  dict_forM m f = Ok (g <$> m).
Proof.
  unfold dict_forM.
  apply (map_fold_weak_ind
           (fun r m' => (forall k v, m' !! k = Some v -> f v = Ok (g v)) ->
                        r = Ok (g <$> m'))).
  - intros _. by rewrite fmap_empty.
  - intros k v m' r Hk IH Hall. rewrite IH.
    + simpl. rewrite (Hall k v) by apply lookup_insert_eq. simpl.
      by rewrite fmap_insert.
    + intros k' v' Hk'. apply (Hall k' v').
      rewrite lookup_insert_ne; [done|]. intros ->. congruence.
Qed.

Lemma bumped_None_Some k v : bumped None k = Some v -> v = k /\ 1 <= k.
Proof.
  unfold bumped. case_decide; [done|]. simpl. intros [= <-]. lia.
Qed.

Lemma occurrences_nil c : occurrences c [] = 0.
Proof. done. Qed.

Section EstimatorFacts.
Local Open Scope R_scope.

Lemma forM_ok_in {A B} (l : list A) (f : A -> result B) (g : A -> B) :
  (forall x, x ∈ l -> f x = Ok (g x)) -> forM l f = Ok (g <$> l).
Proof. intros H. apply forM_ok, Forall_forall, H. Qed.

(** The repeat-factor estimator never raises on records that carry the
    identity lists it reads, for a non-negative threshold, and returns the
    repeat factors. *)
Lemma repeat_factors_from_ids_ok (ids : record -> result (list nat))
    (I : record -> list nat) (dataset_dicts : list record) (repeat_thresh : R) :
  Forall (fun d => ids d = Ok (I d)) dataset_dicts ->
  0 <= repeat_thresh ->
  repeat_factors_from_ids ids dataset_dicts repeat_thresh
  = Ok (of_list ((fun d => rep_factor repeat_thresh (I <$> dataset_dicts) (I d))
                   <$> dataset_dicts)).
Proof.
  intros Hids Hthresh. unfold repeat_factors_from_ids.
  destruct (count_ids_lookup ids I dataset_dicts Hids) as (m & -> & Hm).
  cbn [mbind result_bind].
  set (n := length dataset_dicts).
  assert (Hn : forall k v, m !! k = Some v ->
                 v = occurrences k (I <$> dataset_dicts)
                 /\ (1 <= v)%nat /\ 0 < INR v /\ 0 < INR n).
  { intros k v Hk. rewrite Hm in Hk. apply bumped_None_Some in Hk as [-> Hk].
    split; [done|]. split; [done|]. split; [apply INR_pos; lia|].
    apply INR_pos. unfold n. destruct dataset_dicts; [|simpl; lia].
    rewrite occurrences_nil in Hk. lia. }
  rewrite (dict_forM_ok m _ (fun v => INR v / INR n)).
  2:{ intros k v Hk. destruct (Hn k v Hk) as (_ & _ & _ & Hpos).
      unfold pydiv. rewrite decide_False by lra. done. }
  cbn [mbind result_bind].
  rewrite (dict_forM_ok _ _ (fun f => Rmax 1 (sqrt (repeat_thresh / f)))).
  2:{ intros k f Hk. rewrite lookup_fmap in Hk.
      destruct (m !! k) as [v|] eqn:Hv; [|done]. injection Hk as <-.
      destruct (Hn k v Hv) as (_ & _ & Hv' & Hn').
      assert (0 < INR v / INR n) by (by apply Rdiv_lt_0_compat).
      unfold pydiv. rewrite decide_False by lra. cbn [mbind result_bind].
      unfold pysqrt. rewrite decide_False; [done|].
      apply Rle_not_lt. apply Rmult_le_pos; [done|].
      left. by apply Rinv_0_lt_compat. }
  cbn [mbind result_bind].
  rewrite (forM_ok_in dataset_dicts _
             (fun d => rep_factor repeat_thresh (I <$> dataset_dicts) (I d)));
    [done|].
  intros d Hd. rewrite Forall_forall in Hids. rewrite (Hids d Hd).
  cbn [mbind result_bind].
  rewrite (forM_ok_in (I d) _ (rep_value repeat_thresh (I <$> dataset_dicts)));
    [done|].
  intros c Hc. rewrite !lookup_fmap, Hm.
  assert (1 <= occurrences c (I <$> dataset_dicts))%nat as Hocc.
  { apply (occurrences_elem c (I d)); [|done].
    apply list_elem_of_fmap. by exists d. }
  unfold bumped. rewrite decide_False by lia. simpl.
  unfold rep_value. by rewrite length_fmap.
Qed.

Lemma foldl_Rmax_ge (l : list R) (x : R) :
  x <= foldl Rmax x l /\ Forall (fun y => y <= foldl Rmax x l) l
  /\ (foldl Rmax x l = x \/ foldl Rmax x l ∈ l).
Proof.
  revert x. induction l as [|y l IH]; intros x; simpl.
  - split; [lra|]. split; [constructor|by left].
  - destruct (IH (Rmax x y)) as (H1 & H2 & H3).
    pose proof (Rmax_l x y). pose proof (Rmax_r x y).
    split; [lra|]. split; [constructor; [lra|done]|].
    destruct H3 as [H3|H3]; [|right; by apply list_elem_of_further].
    rewrite H3. unfold Rmax. destruct (Rle_dec x y); [|by left].
    right. apply list_elem_of_here.
Qed.

Lemma rep_value_ge_1 repeat_thresh idss c : 1 <= rep_value repeat_thresh idss c.
Proof. apply Rmax_l. Qed.

Lemma rep_factor_ge_1 repeat_thresh idss ids :
  1 <= rep_factor repeat_thresh idss ids.
Proof.
  unfold rep_factor, pymax_default.
  destruct ids as [|c ids]; csimpl; [lra|].
  destruct (foldl_Rmax_ge (rep_value repeat_thresh idss <$> ids)
              (rep_value repeat_thresh idss c)) as (H & _).
  pose proof (rep_value_ge_1 repeat_thresh idss c). lra.
Qed.

Lemma tsum_from (l : list R) (a : R) :
  foldl eadd (Fin a) (of_list l) = Fin (foldl Rplus a l).
Proof.
  revert a. induction l as [|x l IH]; intros a; [done|]. csimpl. apply IH.
Qed.

Lemma tsum_of_list (l : list R) : tsum (of_list l) = Fin (pysum l).
Proof. apply tsum_from. Qed.

(** [factor * (s / factor.sum())] on finite entries with a non-zero sum. *)
Lemma renormalize_of_list (s : nat) (l : list R) :
  pysum l <> 0 ->
  Sampler.renormalize s (of_list l) = of_list (scaled s l).
Proof.
  intros Hsum. unfold Sampler.renormalize, scaled. rewrite tsum_of_list.
  simpl. rewrite decide_False by done. unfold tmul_s, of_list.
  rewrite <- !list_fmap_compose. by apply list_fmap_ext.
Qed.

Lemma renormalize_nil (s : nat) : Sampler.renormalize s [] = [].
Proof. done. Qed.

Lemma pysum_scale (l : list R) (k : R) :
  pysum ((fun x => x * k) <$> l) = pysum l * k.
Proof.
  induction l as [|x l IH]; csimpl.
  - rewrite pysum_nil. lra.
  - rewrite !pysum_cons, IH. lra.
Qed.

(** The renormalized array sums to the group size. *)
Lemma pysum_scaled (l : list R) :
  pysum l <> 0 -> pysum (scaled (length l) l) = INR (length l).
Proof.
  intros Hsum. unfold scaled. rewrite pysum_scale. by field.
Qed.

Lemma pysum_ge_length (l : list R) :
  Forall (fun x => 1 <= x) l -> INR (length l) <= pysum l.
Proof.
  induction 1 as [|x l Hx _ IH]; [rewrite pysum_nil; simpl; lra|].
  rewrite pysum_cons, length_cons, S_INR. lra.
Qed.
End EstimatorFacts.

(** ** Repeat factors of a tag dataset *)

Lemma records_with_fmap {A} (f : A -> list nat) (l : list A) (c : nat) :
  records_with c (f <$> l) = length (filter (fun d => c ∈ f d) l).
Proof.
  unfold records_with. induction l as [|d l IH]; [done|]. csimpl.
  rewrite !filter_cons. destruct (decide (c ∈ f d)); simpl; by rewrite IH.
Qed.

Section TagRepeatFactors.
Local Open Scope R_scope.

Lemma rep_value_spec_rep repeat_thresh (group : list record) c :
  Forall (fun d => NoDup (tags_of d)) group ->
  rep_value repeat_thresh (tags_of <$> group) c = spec_rep repeat_thresh group c.
Proof.
  intros Hnd. unfold rep_value, spec_rep, spec_freq.
  rewrite occurrences_records_with by (by apply Forall_fmap).
  by rewrite records_with_fmap, length_fmap.
Qed.

Lemma rep_factor_is_repeat_factor repeat_thresh (group : list record) d :
  Forall (fun d => NoDup (tags_of d)) group ->
  is_repeat_factor repeat_thresh group d
    (rep_factor repeat_thresh (tags_of <$> group) (tags_of d)).
Proof.
  intros Hnd. unfold is_repeat_factor, rep_factor, pymax_default.
  destruct (tags_of d) as [|c0 cs] eqn:Ht; [done|]. csimpl.
  destruct (foldl_Rmax_ge (rep_value repeat_thresh (tags_of <$> group) <$> cs)
              (rep_value repeat_thresh (tags_of <$> group) c0))
    as (Hge & Hall & Hin).
  split.
  - destruct Hin as [->|Hin].
    + exists c0. split; [apply list_elem_of_here|by apply rep_value_spec_rep].
    + apply list_elem_of_fmap in Hin as (c & Hc & Hin). exists c.
      split; [by apply list_elem_of_further|].
      by rewrite Hc, rep_value_spec_rep.
  - intros c [->|Hc]%elem_of_cons.
    + by rewrite <- rep_value_spec_rep.
    + rewrite Forall_forall in Hall. rewrite <- rep_value_spec_rep by done.
      apply Hall. apply list_elem_of_fmap. by exists c.
Qed.

(** C5. For a DatasetGroup of annotation kind [tag] with [use_rfs] enabled
    whose records carry duplicate-free tag lists, and a non-negative
    threshold: the estimator returns, record by record, the maximum over the
    record's tags of [rep(c) = max(1, sqrt(repeat_threshold / freq(c)))]
    with [freq(c) = #records containing c / #records], or 1.0 for a record
    without tags; and the constructor scales this array so that it sums
    exactly to the size of the group. *)
Theorem tag_repeat_factors_spec (dataset_dicts group : list record)
    (use_rfs : list bool) (dataset_ann : list string) (repeat_threshold : R)
    (i st : nat) (a : string) :
  slice dataset_dicts st (st + length group) = group ->
  use_rfs !! i = Some true ->
  dataset_ann !! i = Some a -> a <> "box"%string ->
  Forall (fun d => exists tags, pos_category_ids d = Some tags /\ NoDup tags)
         group ->
  0 <= repeat_threshold ->
  exists factors : list R,
    repeat_factors_from_tag_frequency group repeat_threshold
    = Ok (of_list factors)
    /\ Forall2 (is_repeat_factor repeat_threshold group) group factors
    /\ Sampler.rfs_body dataset_dicts use_rfs dataset_ann repeat_threshold
                        i (length group) st
       = Ok (of_list (scaled (length group) factors))
    /\ pysum (scaled (length group) factors) = INR (length group).
Proof.
  intros Hslice Hrfs Hann Hbox Htags Hthresh.
  assert (Hids : Forall (fun d => tag_ids d = Ok (tags_of d)) group).
  { eapply Forall_impl; [exact Htags|]. intros d (tags & Hd & _).
    unfold tag_ids, tags_of. by rewrite Hd. }
  assert (Hnd : Forall (fun d => NoDup (tags_of d)) group).
  { eapply Forall_impl; [exact Htags|]. intros d (tags & Hd & Hnd).
    unfold tags_of. by rewrite Hd. }
  set (factors := (fun d => rep_factor repeat_threshold (tags_of <$> group)
                                       (tags_of d)) <$> group).
  assert (Hrun : repeat_factors_from_tag_frequency group repeat_threshold
                 = Ok (of_list factors)).
  { unfold repeat_factors_from_tag_frequency.
    by rewrite (repeat_factors_from_ids_ok tag_ids tags_of). }
  assert (Hlen : length factors = length group)
    by (unfold factors; by rewrite length_fmap).
  assert (Hge : Forall (fun x => 1 <= x) factors).
  { unfold factors. apply Forall_fmap, Forall_forall. intros d _.
    apply rep_factor_ge_1. }
  exists factors. split; [exact Hrun|]. split; [|split].
  - unfold factors. apply Forall2_fmap_r, Forall2_same_length_lookup.
    split; [done|]. intros j d d' Hd Hd'. assert (d = d') as <- by congruence.
    by apply rep_factor_is_repeat_factor.
  - rewrite rfs_body_group by done. unfold rfs_group, index.
    rewrite Hrfs, Hann. cbn [mbind result_bind].
    assert (String.eqb a "box" = false) as -> by (by apply String.eqb_neq).
    rewrite Hrun. cbn [mbind result_bind]. f_equal.
    destruct group as [|d0 group']; [by destruct factors|].
    rewrite <- Hlen. apply renormalize_of_list.
    pose proof (pysum_ge_length factors Hge) as Hsum.
    rewrite Hlen in Hsum. simpl length in Hsum. rewrite S_INR in Hsum.
    pose proof (pos_INR (length group')). lra.
  - destruct group as [|d0 group']; [by destruct factors|].
    rewrite <- Hlen. apply pysum_scaled.
    pose proof (pysum_ge_length factors Hge) as Hsum.
    rewrite Hlen in Hsum. simpl length in Hsum. rewrite S_INR in Hsum.
    pose proof (pos_INR (length group')). lra.
Qed.

Lemma tag_repeat_factors_spec_witness :
  slice rare_tag_group 0 (0 + length rare_tag_group) = rare_tag_group
  /\ [true] !! 0%nat = Some true
  /\ ["tag"%string] !! 0%nat = Some "tag"%string
  /\ "tag"%string <> "box"%string
  /\ Forall (fun d => exists tags, pos_category_ids d = Some tags /\ NoDup tags)
            rare_tag_group
  /\ 0 <= 1
  /\ exists factors : list R,
       repeat_factors_from_tag_frequency rare_tag_group 1 = Ok (of_list factors)
       /\ Forall2 (is_repeat_factor 1 rare_tag_group) rare_tag_group factors
       /\ Sampler.rfs_body rare_tag_group [true] ["tag"%string] 1
                           0 (length rare_tag_group) 0
          = Ok (of_list (scaled (length rare_tag_group) factors))
       /\ pysum (scaled (length rare_tag_group) factors)
          = INR (length rare_tag_group).
Proof.
  assert (H5 : Forall (fun d => exists tags,
                           pos_category_ids d = Some tags /\ NoDup tags)
                      rare_tag_group).
  { repeat constructor; eexists; (split; [reflexivity|]);
      repeat constructor; by intros ?%elem_of_nil. }
  assert (H6 : 0 <= 1) by lra.
  split; [reflexivity|]. split; [reflexivity|]. split; [reflexivity|].
  split; [done|]. split; [exact H5|]. split; [exact H6|].
  exact (tag_repeat_factors_spec rare_tag_group rare_tag_group [true]
           ["tag"%string] 1 0 0 "tag"%string eq_refl eq_refl eq_refl
           ltac:(done) H5 H6).
Defined.
End TagRepeatFactors.

(** ** Class-balance factors *)

Lemma count_ids_is_Ok ids dataset_dicts m :
  count_ids ids dataset_dicts = Ok m ->
  Forall (fun d => is_Ok (ids d)) dataset_dicts.
Proof.
  unfold count_ids. generalize (∅ : gmap nat nat). revert m.
  induction dataset_dicts as [|d rest IH]; intros m m0; simpl; [constructor|].
  destruct (ids d) as [l|] eqn:Hd; simpl; [|done].
  intros H. constructor; [by eexists|by eapply IH].
Qed.

Lemma category_set_categories_of d :
  is_Ok (category_set d) -> category_set d = Ok (categories_of d).
Proof.
  unfold category_set, categories_of. destruct (annotations d); [done|].
  by intros [? ?].
Qed.

Section ClassBalance.
Local Open Scope R_scope.

Lemma class_balance_ok (dataset_dicts : list record) :
  Forall (fun d => category_set d = Ok (categories_of d)) dataset_dicts ->
  _get_class_balance_factor_per_dataset dataset_dicts 1
  = Ok (of_list ((fun d => balance_factor (categories_of <$> dataset_dicts)
                                          (categories_of d))
                   <$> dataset_dicts)).
Proof.
  intros Hids. unfold _get_class_balance_factor_per_dataset.
  destruct (count_ids_lookup category_set categories_of dataset_dicts Hids)
    as (m & -> & Hm).
  cbn [mbind result_bind].
  rewrite (forM_ok_in dataset_dicts _
             (fun d => balance_factor (categories_of <$> dataset_dicts)
                                      (categories_of d))); [done|].
  intros d Hd. rewrite Forall_forall in Hids. rewrite (Hids d Hd).
  cbn [mbind result_bind]. unfold balance_factor.
  rewrite (forM_ok_in (categories_of d) _
             (fun c => 1 / INR (occurrences c (categories_of <$> dataset_dicts))));
    [done|].
  intros c Hc. rewrite Hm.
  assert (1 <= occurrences c (categories_of <$> dataset_dicts))%nat as Hocc.
  { apply (occurrences_elem c (categories_of d)); [|done].
    apply list_elem_of_fmap. by exists d. }
  unfold bumped. rewrite decide_False by lia. simpl.
  destruct (occurrences c (categories_of <$> dataset_dicts)) as [|k] eqn:Hk;
    [lia|].
  unfold pypow. cbn [mbind result_bind].
  assert (0 < INR (S k)) by (apply INR_pos; lia).
  rewrite Rpower_1 by done. unfold pydiv. by rewrite decide_False by lra.
Qed.

Lemma balance_factor_nil idss : balance_factor idss [] = 0.
Proof. done. Qed.

Lemma balance_factor_nonneg idss ids : 0 <= balance_factor idss ids.
Proof.
  unfold balance_factor. apply pysum_nonneg, Forall_fmap, Forall_forall.
  intros c _. simpl. unfold Rdiv. rewrite Rmult_1_l.
  destruct (occurrences c idss) as [|k].
  - simpl. rewrite Rinv_0. lra.
  - left. apply Rinv_0_lt_compat, INR_pos. lia.
Qed.

Lemma balance_factor_pos idss ids :
  ids <> [] -> ids ∈ idss -> 0 < balance_factor idss ids.
Proof.
  intros Hne Hin. unfold balance_factor. apply pysum_pos.
  - by destruct ids.
  - apply Forall_fmap, Forall_forall. intros c Hc. simpl.
    pose proof (occurrences_elem c ids idss Hin Hc).
    apply Rdiv_lt_0_compat; [lra|]. apply INR_pos. lia.
Qed.

Lemma pysum_pos_exists (l : list R) :
  Forall (fun x => 0 <= x) l -> Exists (fun x => 0 < x) l -> 0 < pysum l.
Proof.
  intros Hall Hex. induction Hall as [|x l Hx Hall IH].
  - by apply Exists_nil in Hex.
  - rewrite pysum_cons. pose proof (pysum_nonneg l Hall).
    apply Exists_cons in Hex as [Hpos|Hex]; [lra|].
    specialize (IH Hex). lra.
Qed.
End ClassBalance.

(** ** Positivity of the weights *)

Lemma Forall2_concat {A B} (P : A -> B -> Prop) xss yss :
  Forall2 (Forall2 P) xss yss -> Forall2 P (concat xss) (concat yss).
Proof.
  induction 1 as [|xs ys xss yss H _ IH]; simpl; [constructor|].
  by apply Forall2_app.
Qed.

Lemma group_factors_lookup F groups :
  forall i factors,
    group_factors F i groups = Ok factors ->
    length factors = length groups
    /\ forall j group f, groups !! j = Some group -> factors !! j = Some f ->
                         F (i + j) group = Ok f.
Proof.
  induction groups as [|group rest IH]; intros i factors; simpl.
  - intros [= <-]. split; [done|]. by intros j g f Hj.
  - destruct (F i group) as [f0|] eqn:Hf; simpl; [|done].
    destruct (group_factors F (S i) rest) as [fs|] eqn:Hfs; simpl; [|done].
    intros [= <-]. destruct (IH _ _ Hfs) as [Hlen Hlook]. split.
    + simpl. by rewrite Hlen.
    + intros [|j] g f Hj Hfj; simpl in *.
      * injection Hj as <-. injection Hfj as <-. by rewrite Nat.add_0_r.
      * replace (i + S j) with (S i + j) by lia. by eapply Hlook.
Qed.

Section Positivity.
Local Open Scope R_scope.

Lemma Forall2_fmap_same {A B} (P : A -> B -> Prop) (f : A -> B) (l : list A) :
  (forall x, x ∈ l -> P x (f x)) -> Forall2 P l (f <$> l).
Proof.
  intros H. apply Forall2_fmap_r, Forall_Forall2_diag, Forall_forall, H.
Qed.

Lemma Forall2_replicate_same {A B} (P : A -> B -> Prop) (l : list A) (w : B) :
  (forall x, x ∈ l -> P x w) -> Forall2 P l (replicate (length l) w).
Proof.
  induction l as [|x l IH]; intros H; simpl; [constructor|].
  constructor; [apply H, list_elem_of_here|].
  apply IH. intros y Hy. by apply H, list_elem_of_further.
Qed.

(** The weights of one group: its dataset constant [k] times its
    class-balance factor. *)
Lemma cas_group_weights (use_cas : list bool) (i : nat) (group : list record)
    (f : tensor) (k : R) :
  Forall (fun d => dataset_source d = i) group ->
  cas_group use_cas i group = Ok f ->
  0 < k ->
  (use_cas !! i = Some true ->
   Exists (fun d => categories_of d <> []) group) ->
  Forall2 (weight_ok use_cas) group
          (zip_with emul (replicate (length group) (Fin k)) f).
Proof.
  intros Hsrc Hcas Hk Hex. rewrite Forall_forall in Hsrc.
  unfold cas_group, index in Hcas.
  destruct (use_cas !! i) as [[|]|] eqn:Hflag; simpl in Hcas; [| |done].
  - destruct (_get_class_balance_factor_per_dataset group 1) as [t|] eqn:Ht;
      simpl in Hcas; [|done].
    injection Hcas as <-.
    assert (Hids : Forall (fun d => category_set d = Ok (categories_of d)) group).
    { revert Ht. unfold _get_class_balance_factor_per_dataset.
      destruct (count_ids category_set group) as [m|] eqn:Hm; [|done].
      intros _. eapply Forall_impl; [by eapply count_ids_is_Ok|].
      intros d. apply category_set_categories_of. }
    rewrite class_balance_ok in Ht by done. injection Ht as <-.
    set (idss := categories_of <$> group).
    set (bal := (fun d => balance_factor idss (categories_of d)) <$> group).
    assert (Hmem : forall d, d ∈ group -> categories_of d ∈ idss).
    { intros d Hd. apply list_elem_of_fmap. by exists d. }
    assert (Hsum : 0 < pysum bal).
    { apply pysum_pos_exists.
      - apply Forall_fmap, Forall_forall. intros d _.
        apply balance_factor_nonneg.
      - specialize (Hex eq_refl). apply Exists_exists in Hex as (d & Hd & Hne).
        apply Exists_exists. exists (balance_factor idss (categories_of d)).
        split; [apply list_elem_of_fmap; by exists d|].
        apply balance_factor_pos; [done|by apply Hmem]. }
    rewrite renormalize_of_list by lra.
    rewrite zip_with_replicate_l
      by (unfold of_list, scaled, bal; by rewrite !length_fmap).
    unfold of_list, scaled, bal. rewrite <- !list_fmap_compose.
    apply Forall2_fmap_same. intros d Hd. simpl.
    eexists. split; [reflexivity|]. rewrite (Hsrc d Hd), Hflag.
    assert (0 < INR (length group)).
    { apply INR_pos. destruct group; [by apply elem_of_nil in Hd|simpl; lia]. }
    assert (0 < INR (length group) / pysum ((fun d0 => balance_factor idss (categories_of d0)) <$> group))
      by (by apply Rdiv_lt_0_compat).
    case_decide as Hc.
    + destruct Hc as [_ ->]. rewrite balance_factor_nil. lra.
    + assert (categories_of d <> []) as Hne by (intros ?; by apply Hc).
      pose proof (balance_factor_pos idss _ Hne (Hmem d Hd)).
      apply Rmult_lt_0_compat; [done|]. by apply Rmult_lt_0_compat.
  - injection Hcas as <-. unfold ones. rewrite zip_with_replicate.
    apply Forall2_replicate_same. intros d Hd. simpl.
    eexists. split; [reflexivity|]. rewrite (Hsrc d Hd), Hflag.
    rewrite decide_False by (by intros [? _]). lra.
Qed.
End Positivity.

Section WeightVector.
Local Open Scope R_scope.

Lemma dataset_constant_pos (dataset_ratio : list R) (sizes : list nat) r s :
  dataset_ratio <> [] -> Forall (fun r => 0 < r) dataset_ratio ->
  s ∈ sizes -> (0 < s)%nat -> 0 < r ->
  0 < dataset_constant dataset_ratio sizes r s.
Proof.
  intros Hne Hpos Hs Hs0 Hr. unfold dataset_constant.
  pose proof (max_list_elem_of_le s sizes Hs) as Hmax.
  pose proof (pysum_pos dataset_ratio Hne Hpos).
  assert (0 < INR s) by (by apply INR_pos).
  assert (0 < INR (max_list sizes)) by (apply INR_pos; lia).
  apply Rdiv_lt_0_compat; [|done].
  apply Rmult_lt_0_compat; [|done]. by apply Rdiv_lt_0_compat.
Qed.

(** C2, amended. For every construction that completes on a merged list
    with non-empty datasets and positive ratios, in which every dataset with
    [use_cas] enabled has at least one record with a category: every weight
    is a finite non-negative number, strictly positive for the records of a
    dataset with [use_cas] off and for the records with a non-empty category
    set, and exactly 0 for a record with an empty category set in a dataset
    with [use_cas] on. *)
Theorem weights_positive_or_zero (c : comm) (groups : list (list record))
    (dataset_ratio : list R) (use_rfs use_cas : list bool)
    (dataset_ann : list string) (repeat_threshold : R) (seed : option Z)
    (self : Sampler.t) :
  grouped groups -> groups <> [] ->
  Forall (fun group => group <> []) groups ->
  length dataset_ratio = length groups ->
  Forall (fun r => 0 < r) dataset_ratio ->
  (forall i group, groups !! i = Some group -> use_cas !! i = Some true ->
                   Exists (fun d => categories_of d <> []) group) ->
  Sampler.__init__ c (concat groups) dataset_ratio use_rfs use_cas dataset_ann
                   repeat_threshold seed = Ok self ->
  Forall2 (weight_ok use_cas) (concat groups) (Sampler.weights self).
Proof.
  intros Hg Hne Hnonempty Hlen Hpos Hex Hinit.
  rewrite init_grouped in Hinit by done.
  destruct (group_factors (rfs_group _ _ _) 0 groups) as [rfs|]; [|done].
  destruct (group_factors (cas_group use_cas) 0 groups) as [cas|] eqn:Hcas;
    [|done].
  cbn [mbind result_bind] in Hinit. injection Hinit as <-.
  cbn [Sampler.weights].
  destruct (group_factors_lookup _ _ _ _ Hcas) as [Hcl Hlook].
  apply Forall2_concat, Forall2_same_length_lookup. split.
  - rewrite !length_zip_with, length_fmap. unfold tensor in *. lia.
  - intros j group y Hj Hy.
    apply lookup_zip_with_Some in Hy as (x & f & -> & Hx & Hf).
    apply lookup_zip_with_Some in Hx as (r & s & -> & Hr & Hs).
    rewrite list_lookup_fmap, Hj in Hs. injection Hs as <-.
    assert (group <> []) as Hgne.
    { rewrite Forall_forall in Hnonempty. apply Hnonempty.
      by eapply list_elem_of_lookup_2. }
    assert (0 < length group)%nat as Hs0 by (destruct group; [done|simpl; lia]).
    assert (0 < r) as Hr0.
    { rewrite Forall_forall in Hpos. apply Hpos.
      by eapply list_elem_of_lookup_2. }
    assert (dataset_ratio <> []) as Hrne by (by destruct dataset_ratio, groups).
    rewrite dataset_weight_entry_constant;
      [|lia|pose proof (pysum_pos _ Hrne Hpos); lra].
    apply (cas_group_weights use_cas j).
    + by apply Hg.
    + by apply (Hlook j group f).
    + apply dataset_constant_pos; try done.
      apply list_elem_of_fmap. exists group. split; [done|].
      by eapply list_elem_of_lookup_2.
    + intros Hflag. by eapply Hex.
Qed.
End WeightVector.

(** ** The constructor on sample inputs *)

Section Samples.
Local Open Scope R_scope.

Lemma cas_group_on (use_cas : list bool) (i : nat) (group : list record) :
  use_cas !! i = Some true ->
  Forall (fun d => category_set d = Ok (categories_of d)) group ->
  pysum ((fun d => balance_factor (categories_of <$> group) (categories_of d))
           <$> group) <> 0 ->
  cas_group use_cas i group
  = Ok (of_list
          (scaled (length group)
             ((fun d => balance_factor (categories_of <$> group)
                                       (categories_of d)) <$> group))).
Proof.
  intros Hflag Hids Hsum. unfold cas_group, index. rewrite Hflag.
  cbn [mbind result_bind]. rewrite class_balance_ok by done.
  cbn [mbind result_bind]. by rewrite renormalize_of_list.
Qed.

Lemma rfs_group_tag_on (use_rfs : list bool) (dataset_ann : list string)
    (repeat_threshold : R) (i : nat) (group : list record) (a : string) :
  use_rfs !! i = Some true ->
  dataset_ann !! i = Some a -> String.eqb a "box" = false ->
  Forall (fun d => tag_ids d = Ok (tags_of d)) group ->
  0 <= repeat_threshold ->
  pysum ((fun d => rep_factor repeat_threshold (tags_of <$> group) (tags_of d))
           <$> group) <> 0 ->
  rfs_group use_rfs dataset_ann repeat_threshold i group
  = Ok (of_list
          (scaled (length group)
             ((fun d => rep_factor repeat_threshold (tags_of <$> group)
                                   (tags_of d)) <$> group))).
Proof.
  intros Hflag Hann Hbox Hids Hthresh Hsum. unfold rfs_group, index.
  rewrite Hflag, Hann. cbn [mbind result_bind]. rewrite Hbox.
  unfold repeat_factors_from_tag_frequency.
  rewrite (repeat_factors_from_ids_ok tag_ids tags_of) by done.
  cbn [mbind result_bind]. by rewrite renormalize_of_list.
Qed.

Lemma init_zero_weight :
  Sampler.__init__ single_process [annotated [0%nat]; annotated []] [1]
                   [false] [true] ["box"%string] 1 (Some 0%Z)
  = Ok zero_weight_sampler.
Proof.
  assert (Hcas : group_factors (cas_group [true]) 0
                   [[annotated [0%nat]; annotated []]]
                 = Ok [[Fin 2; Fin 0]]).
  { cbn [group_factors]. rewrite (cas_group_on [true] 0);
      [|reflexivity
       |repeat (apply Forall_cons; split; [reflexivity|]); by apply Forall_nil
       |unfold balance_factor, pysum; simpl; lra].
    cbn [mbind result_bind]. do 2 f_equal.
    unfold scaled, balance_factor, pysum. simpl.
    repeat f_equal. all: real_arith. }
  rewrite (init_grouped single_process [[annotated [0%nat]; annotated []]]);
    [|by apply grouped_one; repeat constructor|done..].
  rewrite Hcas. cbn [group_factors rfs_group index lookup list_lookup mbind
                     result_bind length zip_with concat fmap list_fmap
                     replicate app zip_with].
  unfold zero_weight_sampler. f_equal. f_equal.
  rewrite dataset_weight_entry_constant; [|lia|unfold pysum; simpl; lra].
  unfold dataset_constant, pysum. simpl.
  repeat f_equal. all: real_arith.
Qed.

(** C2, as stated, fails: in a dataset with [use_cas] on, a record without
    annotations next to a record with one category gets the weight 0. *)
Lemma zero_weight_counterexample :
  exists self,
    Sampler.__init__ single_process [annotated [0%nat]; annotated []] [1]
                     [false] [true] ["box"%string] 1 (Some 0%Z) = Ok self
    /\ Sampler.weights self = [Fin 2; Fin 0]
    /\ ~ Forall (fun w => exists x, w = Fin x /\ 0 < x) (Sampler.weights self).
Proof.
  exists zero_weight_sampler. split; [apply init_zero_weight|].
  split; [done|]. simpl. intros H. apply Forall_cons in H as [_ H].
  apply Forall_cons in H as [H _]. destruct H as (x & [= <-] & Hx). lra.
Qed.

Lemma weights_positive_or_zero_witness :
  grouped [[annotated [0%nat]; annotated []]]
  /\ Forall (fun r => 0 < r) [1]
  /\ Sampler.__init__ single_process
                      (concat [[annotated [0%nat]; annotated []]]) [1]
                      [false] [true] ["box"%string] 1 (Some 0%Z)
     = Ok zero_weight_sampler
  /\ Forall2 (weight_ok [true]) (concat [[annotated [0%nat]; annotated []]])
             (Sampler.weights zero_weight_sampler).
Proof.
  assert (H1 : grouped [[annotated [0%nat]; annotated []]])
    by (by apply grouped_one; repeat constructor).
  assert (H5 : Forall (fun r => 0 < r) [1]) by (repeat constructor; lra).
  split; [exact H1|]. split; [exact H5|]. split; [exact init_zero_weight|].
  apply (weights_positive_or_zero single_process
           [[annotated [0%nat]; annotated []]] [1] [false] [true]
           ["box"%string] 1 (Some 0%Z) zero_weight_sampler H1);
    [done|by repeat constructor|done|exact H5| |exact init_zero_weight].
  intros [|i] group Hi Hflag; [|done]. injection Hi as <-.
  apply Exists_cons_hd. done.
Defined.

(** ** The repeat factors and the final weights *)

(** Line 291 overwrites the product of line 273: on a merged list, two
    constructions that differ only in [use_rfs], [dataset_ann] and
    [repeat_threshold] and that both complete hold the same weights. *)
Lemma weights_ignore_rfs (c : comm) (groups : list (list record))
    (dataset_ratio : list R) (use_rfs use_rfs' use_cas : list bool)
    (dataset_ann dataset_ann' : list string)
    (repeat_threshold repeat_threshold' : R) (seed : option Z)
    (self self' : Sampler.t) :
  grouped groups -> groups <> [] -> length dataset_ratio = length groups ->
  Sampler.__init__ c (concat groups) dataset_ratio use_rfs use_cas dataset_ann
                   repeat_threshold seed = Ok self ->
  Sampler.__init__ c (concat groups) dataset_ratio use_rfs' use_cas dataset_ann'
                   repeat_threshold' seed = Ok self' ->
  Sampler.weights self = Sampler.weights self'.
Proof.
  intros Hg Hne Hlen H1 H2. rewrite init_grouped in H1, H2 by done.
  destruct (group_factors (rfs_group use_rfs _ _) 0 groups); [|done].
  destruct (group_factors (rfs_group use_rfs' _ _) 0 groups); [|done].
  destruct (group_factors (cas_group use_cas) 0 groups); [|done].
  cbn [mbind result_bind] in H1, H2. by injection H1 as <-; injection H2 as <-.
Qed.

Lemma sqrt_4 : sqrt (1 / (1 / (1 + 1 + 1 + 1))) = 2.
Proof.
  replace (1 / (1 / (1 + 1 + 1 + 1))) with (2 * 2) by field.
  apply sqrt_square. lra.
Qed.

Lemma rare_tag_factors :
  (fun d => rep_factor 1 (tags_of <$> rare_tag_group) (tags_of d))
    <$> rare_tag_group
  = [2; 1; 1; 1].
Proof.
  unfold rare_tag_group, rep_factor, rep_value. simpl.
  rewrite sqrt_4. rewrite Rmax_right by lra. done.
Qed.

Lemma rare_tag_rfs_group :
  rfs_group [true] ["tag"%string] 1 0 rare_tag_group
  = Ok [Fin (8 / 5); Fin (4 / 5); Fin (4 / 5); Fin (4 / 5)].
Proof.
  rewrite (rfs_group_tag_on [true] ["tag"%string] 1 0 rare_tag_group "tag");
    [|reflexivity|reflexivity|reflexivity
     |repeat (apply Forall_cons; split; [reflexivity|]); by apply Forall_nil
     |lra
     |rewrite rare_tag_factors; unfold pysum; simpl; lra].
  rewrite rare_tag_factors. unfold scaled, pysum. simpl.
  repeat f_equal. all: real_arith.
Qed.

Lemma init_rare_tag :
  Sampler.__init__ single_process rare_tag_group [1] [true] [false]
                   ["tag"%string] 1 (Some 0%Z)
  = Ok rare_tag_sampler.
Proof.
  rewrite (init_grouped single_process [rare_tag_group]);
    [|by apply grouped_one; repeat constructor|done..].
  cbn [group_factors]. rewrite rare_tag_rfs_group.
  cbn [cas_group index lookup list_lookup mbind result_bind].
  unfold rare_tag_sampler. f_equal. f_equal.
  cbn [length rare_tag_group fmap list_fmap zip_with concat replicate app ones].
  rewrite dataset_weight_entry_constant; [|lia|unfold pysum; simpl; lra].
  unfold dataset_constant, pysum. simpl.
  repeat f_equal. all: real_arith.
Qed.

(** C1 at a failing input. One tag dataset of four records, tag 1 on the
    first record only, [use_rfs] on, [use_cas] off, ratio 1, threshold 1:
    the dataset weight is 1 and the class-balance factor is 1 for every
    record, the renormalized repeat factors are 8/5, 4/5, 4/5, 4/5, and the
    weights the sampler holds are 1, 1, 1, 1 — not the product. *)
Theorem rfs_factors_dropped :
  Sampler.__init__ single_process rare_tag_group [1] [true] [false]
                   ["tag"%string] 1 (Some 0%Z) = Ok rare_tag_sampler
  /\ Sampler.dataset_weight [1] [4%nat] = Ok [Fin 1; Fin 1; Fin 1; Fin 1]
  /\ Sampler.rfs_body rare_tag_group [true] ["tag"%string] 1 0 4 0
     = Ok [Fin (8 / 5); Fin (4 / 5); Fin (4 / 5); Fin (4 / 5)]
  /\ Sampler.cas_body rare_tag_group [false] 0 4 0
     = Ok [Fin 1; Fin 1; Fin 1; Fin 1]
  /\ Sampler.weights rare_tag_sampler = [Fin 1; Fin 1; Fin 1; Fin 1]
  /\ Sampler.weights rare_tag_sampler
     <> [Fin (1 * (8 / 5) * 1); Fin (1 * (4 / 5) * 1);
         Fin (1 * (4 / 5) * 1); Fin (1 * (4 / 5) * 1)].
Proof.
  split; [exact init_rare_tag|]. split; [|split; [|split; [|split]]].
  - rewrite dataset_weight_eq by done. simpl.
    rewrite dataset_weight_entry_constant; [|lia|unfold pysum; simpl; lra].
    unfold dataset_constant, pysum. simpl. repeat f_equal. all: real_arith.
  - change 4%nat with (length rare_tag_group).
    rewrite (rfs_body_group rare_tag_group [true] ["tag"%string] 1 0
               rare_tag_group 0 eq_refl).
    exact rare_tag_rfs_group.
  - reflexivity.
  - reflexivity.
  - simpl. intros [= H]. lra.
Qed.

(** Why C5 asks for duplicate-free tag lists: the counting loop of line 373
    counts a tag once per occurrence, so a tag listed four times on one
    record of four has frequency 1 for the code and 1/4 for section 4.2. *)
Example tag_list_with_duplicates :
  repeat_factors_from_tag_frequency
    [tagged [7; 7; 7; 7]%nat; tagged []; tagged []; tagged []] 1
  = Ok [Fin 1; Fin 1; Fin 1; Fin 1]
  /\ spec_rep 1 [tagged [7; 7; 7; 7]%nat; tagged []; tagged []; tagged []] 7 = 2.
Proof.
  split.
  - unfold repeat_factors_from_tag_frequency.
    rewrite (repeat_factors_from_ids_ok tag_ids tags_of);
      [|repeat (apply Forall_cons; split; [reflexivity|]); by apply Forall_nil
       |lra].
    unfold rep_factor, rep_value. simpl.
    replace (1 / ((1 + 1 + 1 + 1) / (1 + 1 + 1 + 1))) with 1 by real_arith.
    rewrite sqrt_1. rewrite !(Rmax_left 1 1) by lra. done.
  - unfold spec_rep, spec_freq. simpl.
    rewrite sqrt_4. apply Rmax_right. lra.
Qed.
End Samples.

(* ================================================================= *)
(** ** More on the batch groupers *)

(** A run of either class is a [grouper_run], and the grouper it ends in
    carries the buckets the run ends in. *)
Lemma MD_iter_run self dataset :
  MD.__iter__ self dataset
  = ((grouper_run (fun _ => Ok (MD.batch_size self))
                  (MD._buckets self) dataset).1,
     buckets ← (grouper_run (fun _ => Ok (MD.batch_size self))
                            (MD._buckets self) dataset).2;
     Ok {| MD.batch_size := MD.batch_size self; MD._buckets := buckets |}).
Proof.
  revert self. induction dataset as [|d rest IH]; intros self.
  - by destruct self.
  - cbn [MD.__iter__ grouper_run]. rewrite MD_step_grouper_step.
    destruct (grouper_step _ _ d) as [[buckets out]|e]; simpl; [|done].
    rewrite IH. simpl. by destruct (grouper_run _ buckets rest).
Qed.

Lemma DIFF_iter_run self dataset :
  DIFF.__iter__ self dataset
  = ((grouper_run (fun d => index (DIFF.batch_sizes self) (dataset_source d))
                  (DIFF._buckets self) dataset).1,
     buckets ← (grouper_run
                  (fun d => index (DIFF.batch_sizes self) (dataset_source d))
                  (DIFF._buckets self) dataset).2;
     Ok {| DIFF.batch_sizes := DIFF.batch_sizes self;
           DIFF._buckets := buckets |}).
Proof.
  revert self. induction dataset as [|d rest IH]; intros self.
  - by destruct self.
  - cbn [DIFF.__iter__ grouper_run]. rewrite DIFF_step_grouper_step.
    destruct (grouper_step _ _ d) as [[buckets out]|e]; simpl; [|done].
    rewrite IH. simpl. by destruct (grouper_run _ buckets rest).
Qed.

Lemma filter_all {A} (P : A -> Prop) `{forall x, Decision (P x)} (l : list A) :
  Forall P l -> filter P l = l.
Proof.
  induction 1 as [|x l Hx _ IH]; [done|].
  by rewrite filter_cons_True, IH.
Qed.

Lemma filter_none {A} (P : A -> Prop) `{forall x, Decision (P x)} (l : list A) :
  Forall (fun x => ~ P x) l -> filter P l = [].
Proof.
  induction 1 as [|x l Hx _ IH]; [done|].
  by rewrite filter_cons_False.
Qed.

Lemma of_bucket_same k b : Forall (fun d => bucket_of d = k) b -> of_bucket k b = b.
Proof. apply filter_all. Qed.

Lemma of_bucket_other j k b :
  j <> k -> Forall (fun d => bucket_of d = j) b -> of_bucket k b = [].
Proof.
  intros Hjk Hb. apply filter_none. eapply Forall_impl; [exact Hb|].
  simpl. intros d <-. done.
Qed.

Lemma of_bucket_app k l1 l2 :
  of_bucket k (l1 ++ l2) = of_bucket k l1 ++ of_bucket k l2.
Proof. apply filter_app. Qed.

Lemma of_bucket_cons k d l :
  of_bucket k (d :: l)
  = if decide (bucket_of d = k) then d :: of_bucket k l else of_bucket k l.
Proof. unfold of_bucket. by rewrite filter_cons. Qed.

(** One step, spelled out: the record's bucket exists and its target is
    known; the bucket is emptied when the record completes it. *)
Lemma grouper_step_cases target buckets d buckets' out :
  grouper_step target buckets d = Ok (buckets', out) ->
  exists b size,
    buckets !! bucket_of d = Some b /\ target d = Ok size
    /\ ((Z.of_nat (length (b ++ [d])) = size
         /\ buckets' = <[bucket_of d := []]> buckets /\ out = Some (b ++ [d]))
        \/ (Z.of_nat (length (b ++ [d])) <> size
            /\ buckets' = <[bucket_of d := b ++ [d]]> buckets /\ out = None)).
Proof.
  unfold grouper_step, index.
  destruct (buckets !! bucket_of d) as [b|]; simpl; [|done].
  destruct (target d) as [size|]; simpl; [|done].
  destruct (Z.eqb_spec (Z.of_nat (length (b ++ [d]))) size) as [Heq|Hne];
    intros [= <- <-]; exists b, size; split; [done| |done|]; split; try done.
  - by left.
  - by right.
Qed.

(** Nothing is lost, duplicated or reordered within a bucket: the records
    of bucket [k] that were yielded, followed by those still waiting, are the
    records of bucket [k] that were waiting before, followed by those that
    arrived. *)
Lemma grouper_run_conserves target dataset :
  forall buckets batches buckets',
    buckets_sorted buckets ->
    grouper_run target buckets dataset = (batches, Ok buckets') ->
    forall k,
      of_bucket k (concat batches) ++ default [] (buckets' !! k)
      = default [] (buckets !! k) ++ of_bucket k dataset.
Proof.
  induction dataset as [|d rest IH]; intros buckets batches buckets' Hs Hrun k.
  - injection Hrun as <- <-. simpl. by rewrite app_nil_r.
  - cbn [grouper_run] in Hrun.
    destruct (grouper_step target buckets d) as [[b1 out]|e] eqn:Hstep; [|done].
    destruct (grouper_step_inv _ _ _ _ _ Hs Hstep) as (Hs' & _ & _).
    destruct (grouper_run target b1 rest) as [bs r] eqn:Hrest.
    injection Hrun as <- ->.
    specialize (IH _ _ _ Hs' Hrest k).
    apply grouper_step_cases in Hstep
      as (b & size & Hb & _ & [(_ & -> & ->)|(_ & -> & ->)]).
    + assert (Hfull : Forall (fun d' => bucket_of d' = bucket_of d) (b ++ [d])).
      { apply Forall_app. split; [by eapply Hs|]. by constructor. }
      simpl. rewrite of_bucket_app.
      rewrite of_bucket_cons.
      destruct (decide (bucket_of d = k)) as [<-|Hne].
      * rewrite of_bucket_same by done.
        rewrite list_lookup_insert_eq in IH by by eapply lookup_lt_Some.
        rewrite Hb. simpl in *. rewrite <- !(assoc_L (++)), IH. done.
      * rewrite (of_bucket_other (bucket_of d)) by done.
        rewrite list_lookup_insert_ne in IH by done. done.
    + simpl. rewrite of_bucket_cons.
      destruct (decide (bucket_of d = k)) as [<-|Hne].
      * rewrite list_lookup_insert_eq in IH by by eapply lookup_lt_Some.
        rewrite Hb. simpl in *. rewrite IH, <- !(assoc_L (++)). done.
      * rewrite list_lookup_insert_ne in IH by done. done.
Qed.

Lemma default_replicate_nil {A} (n k : nat) :
  default [] (replicate n (@nil A) !! k) = [].
Proof.
  destruct (replicate n [] !! k) as [b|] eqn:Hb; [|done].
  by apply lookup_replicate_1 in Hb as [-> _].
Qed.

Lemma MD_in_range_ok batch_size num_datasets dataset :
  Forall (fun d => dataset_source d < num_datasets) dataset ->
  is_Ok (grouper_run (fun _ => Ok batch_size)
                     (replicate (2 * num_datasets) []) dataset).2.
Proof.
  intros Hall. apply grouper_run_ok; [apply buckets_sorted_replicate|].
  eapply Forall_impl; [exact Hall|]. simpl. intros d Hd.
  rewrite length_replicate. split; [by apply bucket_of_lt|by eexists].
Qed.

Lemma DIFF_in_range_ok (dataset_bs : list Z) num_datasets dataset :
  Forall (fun d => dataset_source d < num_datasets) dataset ->
  Forall (fun d => dataset_source d < length dataset_bs) dataset ->
  is_Ok (grouper_run (fun d => index dataset_bs (dataset_source d))
                     (replicate (2 * num_datasets) []) dataset).2.
Proof.
  intros Hall Hall'. apply grouper_run_ok; [apply buckets_sorted_replicate|].
  apply Forall_forall. intros d Hd.
  rewrite Forall_forall in Hall, Hall'.
  rewrite length_replicate. split; [by apply bucket_of_lt, Hall|].
  destruct (index_lt dataset_bs (dataset_source d)) as [x Hx]; [by apply Hall'|].
  by exists x.
Qed.

(** X1. Both groupers conserve the records of every bucket, in arrival
    order: on in-range input the run completes, and for every bucket [k] the
    batches yielded so far, restricted to bucket [k] and followed by the
    records still waiting in bucket [k], are exactly the input records of
    bucket [k] in the order they arrived.  No record is dropped, duplicated
    or moved ahead of an earlier record of its bucket. *)
Theorem grouper_conserves_buckets
    (batch_size : Z) (dataset_bs : list Z) (num_datasets : nat)
    (dataset : list record) :
  Forall (fun d => dataset_source d < num_datasets) dataset ->
  Forall (fun d => dataset_source d < length dataset_bs) dataset ->
  (exists self',
      (MD.__iter__ (MD.__init__ batch_size num_datasets) dataset).2 = Ok self'
      /\ forall k,
           of_bucket k
             (concat (MD.__iter__ (MD.__init__ batch_size num_datasets)
                                  dataset).1)
           ++ default [] (MD._buckets self' !! k)
           = of_bucket k dataset)
  /\ (exists self',
        (DIFF.__iter__ (DIFF.__init__ dataset_bs num_datasets) dataset).2
        = Ok self'
        /\ forall k,
             of_bucket k
               (concat (DIFF.__iter__ (DIFF.__init__ dataset_bs num_datasets)
                                      dataset).1)
             ++ default [] (DIFF._buckets self' !! k)
             = of_bucket k dataset).
Proof.
  intros Hn Hbs. split.
  - rewrite MD_iter_run. simpl.
    destruct (MD_in_range_ok batch_size _ _ Hn) as [buckets' Hok].
    destruct (grouper_run _ _ dataset) as [batches r] eqn:Hrun.
    simpl in *. subst r. eexists. split; [done|]. intros k. simpl.
    rewrite (grouper_run_conserves _ _ _ _ _
               (buckets_sorted_replicate _) Hrun k).
    by rewrite default_replicate_nil.
  - rewrite DIFF_iter_run. simpl.
    destruct (DIFF_in_range_ok dataset_bs _ _ Hn Hbs) as [buckets' Hok].
    destruct (grouper_run _ _ dataset) as [batches r] eqn:Hrun.
    simpl in *. subst r. eexists. split; [done|]. intros k. simpl.
    rewrite (grouper_run_conserves _ _ _ _ _
               (buckets_sorted_replicate _) Hrun k).
    by rewrite default_replicate_nil.
Qed.

Lemma grouper_conserves_buckets_witness :
  Forall (fun d => dataset_source d < 2) [wide 0; tall 1; wide 1; wide 0; wide 1]
  /\ Forall (fun d => dataset_source d < length [2%Z; 2%Z])
            [wide 0; tall 1; wide 1; wide 0; wide 1]
  /\ exists self',
       (MD.__iter__ (MD.__init__ 2 2)
                    [wide 0; tall 1; wide 1; wide 0; wide 1]).2 = Ok self'
       /\ forall k,
            of_bucket k
              (concat (MD.__iter__ (MD.__init__ 2 2)
                         [wide 0; tall 1; wide 1; wide 0; wide 1]).1)
            ++ default [] (MD._buckets self' !! k)
            = of_bucket k [wide 0; tall 1; wide 1; wide 0; wide 1].
Proof.
  assert (H1 : Forall (fun d => dataset_source d < 2)
                      [wide 0; tall 1; wide 1; wide 0; wide 1])
    by (repeat constructor).
  assert (H2 : Forall (fun d => dataset_source d < length [2%Z; 2%Z])
                      [wide 0; tall 1; wide 1; wide 0; wide 1])
    by (repeat constructor).
  split; [exact H1|]. split; [exact H2|].
  exact (proj1 (grouper_conserves_buckets 2 [2%Z; 2%Z] 2 _ H1 H2)).
Defined.

Lemma bucket_of_source d : dataset_source d = bucket_of d / 2.
Proof.
  unfold bucket_of. destruct (aspect_class d).
  - rewrite Nat.add_0_r. by rewrite Nat.div_mul.
  - rewrite Nat.add_comm, Nat.div_add by done. done.
Qed.

Lemma grouper_run_length target dataset :
  forall buckets batches buckets',
    grouper_run target buckets dataset = (batches, Ok buckets') ->
    length buckets' = length buckets.
Proof.
  induction dataset as [|d rest IH]; intros buckets batches buckets' Hrun.
  - by injection Hrun as <- <-.
  - cbn [grouper_run] in Hrun.
    destruct (grouper_step target buckets d) as [[b1 out]|e] eqn:Hstep; [|done].
    destruct (grouper_run target b1 rest) as [bs r] eqn:Hrest.
    injection Hrun as <- ->. rewrite (IH _ _ _ Hrest).
    apply grouper_step_cases in Hstep
      as (b & size & _ & _ & [(_ & -> & _)|(_ & -> & _)]);
      by rewrite length_insert.
Qed.

(** The number of records left waiting in bucket [k], when every record of
    that bucket has the target [B >= 1]: the bucket fills up modulo [B]. *)
Lemma grouper_run_pending target (B : Z) k dataset :
  (1 <= B)%Z ->
  Forall (fun d => bucket_of d = k -> target d = Ok B) dataset ->
  forall buckets batches buckets' b,
    grouper_run target buckets dataset = (batches, Ok buckets') ->
    buckets !! k = Some b -> (Z.of_nat (length b) < B)%Z ->
    exists b',
      buckets' !! k = Some b'
      /\ Z.of_nat (length b')
         = ((Z.of_nat (length b) + Z.of_nat (length (of_bucket k dataset)))
              mod B)%Z.
Proof.
  intros HB. induction 1 as [|d rest Hd _ IH];
    intros buckets batches buckets' b Hrun Hb Hlt.
  - injection Hrun as <- <-. exists b. split; [done|]. simpl.
    rewrite Z.add_0_r, Z.mod_small; lia.
  - cbn [grouper_run] in Hrun.
    destruct (grouper_step target buckets d) as [[b1 out]|e] eqn:Hstep; [|done].
    destruct (grouper_run target b1 rest) as [bs r] eqn:Hrest.
    injection Hrun as <- ->. rewrite of_bucket_cons.
    apply grouper_step_cases in Hstep
      as (b0 & size & Hb0 & Ht & Hcases).
    destruct (decide (bucket_of d = k)) as [Hk|Hk].
    + rewrite Hd in Ht by done. injection Ht as <-.
      rewrite Hk in Hb0. rewrite Hb in Hb0. injection Hb0 as <-.
      rewrite Hk in Hcases. rewrite length_app in Hcases. simpl in Hcases.
      destruct Hcases as [(Hfull & -> & _)|(Hnot & -> & _)].
      * destruct (IH _ _ _ [] Hrest) as (b' & Hb' & Hlen).
        { rewrite list_lookup_insert_eq by by eapply lookup_lt_Some. done. }
        { simpl. lia. }
        exists b'. split; [done|]. rewrite Hlen. simpl length.
        replace (Z.of_nat (length b) + Z.of_nat (S (length (of_bucket k rest))))%Z
          with (Z.of_nat (length (of_bucket k rest)) + 1 * B)%Z by lia.
        by rewrite Z.mod_add by lia.
      * destruct (IH _ _ _ (b ++ [d]) Hrest) as (b' & Hb' & Hlen).
        { rewrite list_lookup_insert_eq by by eapply lookup_lt_Some. done. }
        { rewrite length_app. simpl. lia. }
        exists b'. split; [done|]. rewrite Hlen, length_app. simpl length.
        f_equal. lia.
    + apply (IH _ _ _ b Hrest); [|done].
      destruct Hcases as [(_ & -> & _)|(_ & -> & _)];
        by rewrite list_lookup_insert_ne.
Qed.

(** X2. How many records wait in each bucket.  On in-range input both
    groupers complete, keep their [2 * num_datasets] buckets, and leave in
    bucket [k] as many records as the number of input records of bucket [k]
    modulo the bucket's target size (when that size is at least 1): a bucket
    never holds a full batch. *)
Theorem grouper_pending_count
    (batch_size : Z) (dataset_bs : list Z) (num_datasets : nat)
    (dataset : list record) :
  Forall (fun d => dataset_source d < num_datasets) dataset ->
  Forall (fun d => dataset_source d < length dataset_bs) dataset ->
  (exists self',
      (MD.__iter__ (MD.__init__ batch_size num_datasets) dataset).2 = Ok self'
      /\ length (MD._buckets self') = 2 * num_datasets
      /\ forall k, k < 2 * num_datasets -> (1 <= batch_size)%Z ->
           exists b,
             MD._buckets self' !! k = Some b
             /\ Z.of_nat (length b)
                = (Z.of_nat (length (of_bucket k dataset)) mod batch_size)%Z)
  /\ (exists self',
        (DIFF.__iter__ (DIFF.__init__ dataset_bs num_datasets) dataset).2
        = Ok self'
        /\ length (DIFF._buckets self') = 2 * num_datasets
        /\ forall k size, k < 2 * num_datasets ->
             dataset_bs !! (k / 2) = Some size -> (1 <= size)%Z ->
             exists b,
               DIFF._buckets self' !! k = Some b
               /\ Z.of_nat (length b)
                  = (Z.of_nat (length (of_bucket k dataset)) mod size)%Z).
Proof.
  intros Hn Hbs. split.
  - destruct (MD_in_range_ok batch_size _ _ Hn) as [buckets' Hok].
    destruct (grouper_run (fun _ => Ok batch_size)
                (replicate (2 * num_datasets) []) dataset)
      as [batches r] eqn:Hrun.
    cbn [snd] in Hok. subst r.
    exists {| MD.batch_size := batch_size; MD._buckets := buckets' |}.
    split.
    { rewrite MD_iter_run.
      cbn [MD.__init__ MD.batch_size MD._buckets]. by rewrite Hrun. }
    cbn [MD._buckets]. split.
    { rewrite (grouper_run_length _ _ _ _ _ Hrun). by rewrite length_replicate. }
    intros k Hk HB.
    apply (grouper_run_pending (fun _ => Ok batch_size) batch_size k dataset HB)
      with (buckets := replicate (2 * num_datasets) []) (batches := batches)
           (b := []); try done.
    + by apply Forall_forall.
    + by apply lookup_replicate_2.
    + simpl. lia.
  - destruct (DIFF_in_range_ok dataset_bs _ _ Hn Hbs) as [buckets' Hok].
    destruct (grouper_run (fun d => index dataset_bs (dataset_source d))
                (replicate (2 * num_datasets) []) dataset)
      as [batches r] eqn:Hrun.
    cbn [snd] in Hok. subst r.
    exists {| DIFF.batch_sizes := dataset_bs; DIFF._buckets := buckets' |}.
    split.
    { rewrite DIFF_iter_run.
      cbn [DIFF.__init__ DIFF.batch_sizes DIFF._buckets]. by rewrite Hrun. }
    cbn [DIFF._buckets]. split.
    { rewrite (grouper_run_length _ _ _ _ _ Hrun). by rewrite length_replicate. }
    intros k size Hk Hsize HB.
    apply (grouper_run_pending
             (fun d => index dataset_bs (dataset_source d)) size k dataset HB)
      with (buckets := replicate (2 * num_datasets) []) (batches := batches)
           (b := []); try done.
    + apply Forall_forall. intros d _ <-.
      rewrite bucket_of_source. unfold index. by rewrite Hsize.
    + by apply lookup_replicate_2.
    + simpl. lia.
Qed.

Lemma grouper_pending_count_witness :
  Forall (fun d => dataset_source d < 2) [wide 0; tall 1; wide 1; wide 0; wide 0]
  /\ Forall (fun d => dataset_source d < length [2%Z; 3%Z])
            [wide 0; tall 1; wide 1; wide 0; wide 0]
  /\ exists self',
       (MD.__iter__ (MD.__init__ 2 2)
                    [wide 0; tall 1; wide 1; wide 0; wide 0]).2 = Ok self'
       /\ length (MD._buckets self') = 2 * 2
       /\ exists b,
            MD._buckets self' !! 0 = Some b
            /\ Z.of_nat (length b)
               = (Z.of_nat (length (of_bucket 0
                                      [wide 0; tall 1; wide 1; wide 0; wide 0]))
                    mod 2)%Z.
Proof.
  assert (H1 : Forall (fun d => dataset_source d < 2)
                      [wide 0; tall 1; wide 1; wide 0; wide 0])
    by (repeat constructor).
  assert (H2 : Forall (fun d => dataset_source d < length [2%Z; 3%Z])
                      [wide 0; tall 1; wide 1; wide 0; wide 0])
    by (repeat constructor).
  split; [exact H1|]. split; [exact H2|].
  destruct (proj1 (grouper_pending_count 2 [2%Z; 3%Z] 2 _ H1 H2))
    as (self' & Hrun & Hlen & Hcount).
  exists self'. split; [exact Hrun|]. split; [exact Hlen|].
  apply Hcount; lia.
Defined.

Lemma grouper_run_ext target target' dataset :
  Forall (fun d => target d = target' d) dataset ->
  forall buckets,
    grouper_run target buckets dataset = grouper_run target' buckets dataset.
Proof.
  induction 1 as [|d rest Hd _ IH]; intros buckets; [done|].
  cbn [grouper_run].
  assert (grouper_step target buckets d = grouper_step target' buckets d) as ->.
  { unfold grouper_step. by rewrite Hd. }
  destruct (grouper_step target' buckets d) as [[b1 out]|e]; [|done].
  by rewrite IH.
Qed.

(** X3. The per-dataset grouper with the same target size [batch_size] for
    every dataset is the uniform grouper: on input whose sources all have an
    entry in the size list, the two yield the same batches and end with the
    same buckets (or stop with the same exception). *)
Theorem diff_grouper_uniform_sizes
    (batch_size : Z) (n num_datasets : nat) (dataset : list record) :
  Forall (fun d => dataset_source d < n) dataset ->
  (DIFF.__iter__ (DIFF.__init__ (replicate n batch_size) num_datasets)
                 dataset).1
  = (MD.__iter__ (MD.__init__ batch_size num_datasets) dataset).1
  /\ (self ← (DIFF.__iter__ (DIFF.__init__ (replicate n batch_size)
                                           num_datasets) dataset).2;
      Ok (DIFF._buckets self))
     = (self ← (MD.__iter__ (MD.__init__ batch_size num_datasets) dataset).2;
        Ok (MD._buckets self)).
Proof.
  intros Hn. rewrite DIFF_iter_run, MD_iter_run.
  cbn [DIFF.__init__ MD.__init__ DIFF.batch_sizes DIFF._buckets
       MD.batch_size MD._buckets fst snd].
  rewrite (grouper_run_ext
             (fun d => index (replicate n batch_size) (dataset_source d))
             (fun _ => Ok batch_size)).
  - split; [done|].
    by destruct (grouper_run _ _ dataset) as [batches [buckets|e]].
  - eapply Forall_impl; [exact Hn|]. simpl. intros d Hd.
    unfold index. by rewrite lookup_replicate_2.
Qed.

Lemma diff_grouper_uniform_sizes_witness :
  Forall (fun d => dataset_source d < 2) [wide 0; tall 1; wide 0; wide 1]
  /\ (DIFF.__iter__ (DIFF.__init__ (replicate 2 2%Z) 2)
                    [wide 0; tall 1; wide 0; wide 1]).1
     = (MD.__iter__ (MD.__init__ 2 2) [wide 0; tall 1; wide 0; wide 1]).1.
Proof.
  assert (H1 : Forall (fun d => dataset_source d < 2)
                      [wide 0; tall 1; wide 0; wide 1])
    by (repeat constructor).
  split; [exact H1|].
  exact (proj1 (diff_grouper_uniform_sizes 2 2 2 _ H1)).
Defined.

Lemma grouper_run_app target l1 :
  forall buckets l2,
    grouper_run target buckets (l1 ++ l2)
    = match grouper_run target buckets l1 with
      | (batches, Ok buckets') =>
          (batches ++ (grouper_run target buckets' l2).1,
           (grouper_run target buckets' l2).2)
      | (batches, Raise e) => (batches, Raise e)
      end.
Proof.
  induction l1 as [|d rest IH]; intros buckets l2.
  - simpl. by destruct (grouper_run target buckets l2).
  - cbn [app grouper_run].
    destruct (grouper_step target buckets d) as [[b1 out]|e]; [|done].
    rewrite IH. destruct (grouper_run target b1 rest) as [batches [b2|e]].
    + by rewrite (assoc_L (++)).
    + done.
Qed.

Lemma grouper_step_out_of_range target buckets d :
  length buckets <= bucket_of d \/ target d = Raise IndexError ->
  (forall e, target d = Raise e -> e = IndexError) ->
  grouper_step target buckets d = Raise IndexError.
Proof.
  intros Hd He. unfold grouper_step, index.
  destruct (buckets !! bucket_of d) as [b|] eqn:Hb; simpl; [|done].
  destruct Hd as [Hd| ->]; [|done].
  apply lookup_lt_Some in Hb. lia.
Qed.

Lemma grouper_run_stops target buckets pre d post :
  buckets_sorted buckets ->
  Forall (fun d => bucket_of d < length buckets /\ is_Ok (target d)) pre ->
  length buckets <= bucket_of d \/ target d = Raise IndexError ->
  (forall e, target d = Raise e -> e = IndexError) ->
  grouper_run target buckets (pre ++ d :: post)
  = ((grouper_run target buckets pre).1, Raise IndexError).
Proof.
  intros Hs Hpre Hd He. rewrite grouper_run_app.
  destruct (grouper_run_ok _ _ _ Hs Hpre) as [buckets' Hok].
  destruct (grouper_run target buckets pre) as [batches r] eqn:Hrun.
  simpl in Hok. subst r. cbn [grouper_run fst].
  rewrite grouper_step_out_of_range; [by rewrite app_nil_r| |done].
  by rewrite (grouper_run_length _ _ _ _ _ Hrun).
Qed.

(** X5. A record whose source has no bucket (no size entry, for the
    per-dataset grouper) stops the iteration with [IndexError] when it is
    reached: the batches of the records before it have been yielded, none of
    the later records is read, and no other exception is possible. *)
Theorem grouper_stops_at_unknown_source
    (batch_size : Z) (dataset_bs : list Z) (num_datasets : nat)
    (pre post : list record) (d : record) :
  Forall (fun d => dataset_source d < num_datasets) pre ->
  Forall (fun d => dataset_source d < length dataset_bs) pre ->
  (num_datasets <= dataset_source d ->
   MD.__iter__ (MD.__init__ batch_size num_datasets) (pre ++ d :: post)
   = ((MD.__iter__ (MD.__init__ batch_size num_datasets) pre).1,
      Raise IndexError))
  /\ (num_datasets <= dataset_source d
      \/ length dataset_bs <= dataset_source d ->
      DIFF.__iter__ (DIFF.__init__ dataset_bs num_datasets) (pre ++ d :: post)
      = ((DIFF.__iter__ (DIFF.__init__ dataset_bs num_datasets) pre).1,
         Raise IndexError)).
Proof.
  intros Hn Hbs. split; intros Hd.
  - rewrite !MD_iter_run.
    cbn [MD.__init__ MD.batch_size MD._buckets].
    rewrite grouper_run_stops; [done|apply buckets_sorted_replicate| | |done].
    + eapply Forall_impl; [exact Hn|]. simpl. intros d' Hd'.
      rewrite length_replicate. split; [by apply bucket_of_lt|by eexists].
    + left. rewrite length_replicate. unfold bucket_of.
      destruct (aspect_class d); lia.
  - rewrite !DIFF_iter_run.
    cbn [DIFF.__init__ DIFF.batch_sizes DIFF._buckets].
    rewrite grouper_run_stops; [done|apply buckets_sorted_replicate| | |].
    + apply Forall_forall. intros d' Hd'.
      rewrite Forall_forall in Hn, Hbs. rewrite length_replicate.
      split; [by apply bucket_of_lt, Hn|].
      destruct (index_lt dataset_bs (dataset_source d')) as [x Hx];
        [by apply Hbs|]. by exists x.
    + destruct Hd as [Hd|Hd].
      * left. rewrite length_replicate. unfold bucket_of.
        destruct (aspect_class d); lia.
      * right. by apply index_ge.
    + unfold index. intros e. by destruct (dataset_bs !! _); intros [= <-].
Qed.

Lemma grouper_stops_at_unknown_source_witness :
  Forall (fun d => dataset_source d < 1) [wide 0; wide 0]
  /\ Forall (fun d => dataset_source d < length [2%Z]) [wide 0; wide 0]
  /\ MD.__iter__ (MD.__init__ 2 1) ([wide 0; wide 0] ++ wide 1 :: [wide 0])
     = ([[wide 0; wide 0]], Raise IndexError).
Proof.
  assert (H1 : Forall (fun d => dataset_source d < 1) [wide 0; wide 0])
    by (repeat constructor).
  assert (H2 : Forall (fun d => dataset_source d < length [2%Z]) [wide 0; wide 0])
    by (repeat constructor).
  split; [exact H1|]. split; [exact H2|].
  apply (proj1 (grouper_stops_at_unknown_source 2 [2%Z] 1 _ [wide 0] (wide 1)
                  H1 H2)).
  simpl. lia.
Defined.

(** Reading one more record [d] after [l], from a fresh set of buckets: the
    run yields what it yielded on [l], and then the batch that [d]
    completes, if it completes one. *)
Lemma grouper_run_snoc target (B : Z) (m : nat) l d batches buckets' :
  (1 <= B)%Z ->
  Forall (fun d' => bucket_of d' = bucket_of d -> target d' = Ok B) (l ++ [d]) ->
  grouper_run target (replicate m []) l = (batches, Ok buckets') ->
  bucket_of d < m ->
  (grouper_run target (replicate m []) (l ++ [d])).1
  = batches ++ completed B l d.
Proof.
  intros HB Hall Hrun Hm. apply Forall_app in Hall as [Hl Hd].
  apply Forall_cons in Hd as [Hd _]. specialize (Hd eq_refl).
  destruct (grouper_run_pending target B (bucket_of d) l HB Hl
              (replicate m []) batches buckets' [] Hrun)
    as (p & Hp & Hlen); [by apply lookup_replicate_2|simpl; lia|].
  pose proof (grouper_run_conserves target l _ _ _
                (buckets_sorted_replicate m) Hrun (bucket_of d)) as Hcons.
  rewrite Hp, default_replicate_nil in Hcons. simpl in Hcons, Hlen.
  rewrite grouper_run_app, Hrun. cbn [fst grouper_run].
  unfold grouper_step, index. rewrite Hp. cbn [mbind result_bind].
  rewrite Hd. cbn [mbind result_bind].
  unfold completed. rewrite of_bucket_app, of_bucket_cons.
  rewrite (decide_True (P := bucket_of d = bucket_of d)) by done.
  change (of_bucket (bucket_of d) []) with (@nil record).
  change (Z.of_nat 0) with 0%Z in Hlen. rewrite Z.add_0_l in Hlen.
  set (s := of_bucket (bucket_of d) l) in *.
  assert (Hs : length s = length (of_bucket (bucket_of d) (concat batches))
                          + length p).
  { by rewrite <- Hcons, length_app. }
  rewrite !length_app. cbn [length].
  pose proof (Z.mod_pos_bound (Z.of_nat (length s)) B ltac:(lia)) as Hbound.
  destruct (Z.eqb_spec (Z.of_nat (length p + 1)) B) as [Hfull|Hnot].
  - cbn [fst option_list]. f_equal.
    assert ((Z.of_nat (length s + 1) mod B)%Z = 0%Z) as Hzero.
    { replace (Z.of_nat (length s + 1))
        with (Z.of_nat (length s) - Z.of_nat (length s) mod B + 1 * B)%Z
        by lia.
      rewrite Z.mod_add by lia.
      rewrite Zminus_mod_idemp_r, Z.sub_diag. apply Z.mod_0_l. lia. }
    rewrite decide_True by done. rewrite app_nil_r. f_equal.
    rewrite <- Hcons at 2. rewrite <- (assoc_L (++)).
    replace (length s + 1 - Z.to_nat B)
      with (length (of_bucket (bucket_of d) (concat batches))) by lia.
    by rewrite drop_app_length.
  - cbn [fst option_list]. rewrite app_nil_r.
    rewrite decide_False; [by rewrite app_nil_r|].
    replace (Z.of_nat (length s + 1)) with (Z.of_nat (length s) + 1)%Z by lia.
    rewrite <- Zplus_mod_idemp_l, <- Hlen. rewrite Z.mod_small; lia.
Qed.

(** X4. A batch is yielded the moment its last record arrives, and it is
    made of the last records of its bucket.  Reading one more in-range
    record [d] after [l], a freshly constructed grouper yields the batches of
    [l] and then, exactly when the number of records of [d]'s bucket with [d]
    included is a multiple of the bucket's target size [B >= 1], one more
    batch: the last [B] records of that bucket in arrival order.  Batches
    therefore come out in the order in which they are completed. *)
Theorem grouper_emits_on_completion
    (batch_size : Z) (dataset_bs : list Z) (num_datasets : nat)
    (l : list record) (d : record) :
  Forall (fun d => dataset_source d < num_datasets) (l ++ [d]) ->
  Forall (fun d => dataset_source d < length dataset_bs) (l ++ [d]) ->
  ((1 <= batch_size)%Z ->
   (MD.__iter__ (MD.__init__ batch_size num_datasets) (l ++ [d])).1
   = (MD.__iter__ (MD.__init__ batch_size num_datasets) l).1
     ++ completed batch_size l d)
  /\ (forall size, dataset_bs !! dataset_source d = Some size ->
        (1 <= size)%Z ->
        (DIFF.__iter__ (DIFF.__init__ dataset_bs num_datasets) (l ++ [d])).1
        = (DIFF.__iter__ (DIFF.__init__ dataset_bs num_datasets) l).1
          ++ completed size l d).
Proof.
  intros Hn Hbs.
  pose proof Hn as Hn'. apply Forall_app in Hn' as [Hnl Hnd].
  pose proof Hbs as Hbs'. apply Forall_app in Hbs' as [Hbl _].
  apply Forall_cons in Hnd as [Hnd _].
  split.
  - intros HB. rewrite !MD_iter_run.
    cbn [fst MD.__init__ MD.batch_size MD._buckets].
    destruct (MD_in_range_ok batch_size _ _ Hnl) as [buckets' Hok].
    destruct (grouper_run (fun _ => Ok batch_size)
                (replicate (2 * num_datasets) []) l)
      as [batches r] eqn:Hrun.
    cbn [snd] in Hok. subst r. cbn [fst].
    apply (grouper_run_snoc _ batch_size _ l d batches buckets' HB);
      [by apply Forall_forall|done|by apply bucket_of_lt].
  - intros size Hsize HB. rewrite !DIFF_iter_run.
    cbn [fst DIFF.__init__ DIFF.batch_sizes DIFF._buckets].
    destruct (DIFF_in_range_ok dataset_bs _ _ Hnl Hbl) as [buckets' Hok].
    destruct (grouper_run (fun d => index dataset_bs (dataset_source d))
                (replicate (2 * num_datasets) []) l)
      as [batches r] eqn:Hrun.
    cbn [snd] in Hok. subst r. cbn [fst].
    apply (grouper_run_snoc _ size _ l d batches buckets' HB);
      [|done|by apply bucket_of_lt].
    apply Forall_forall. intros d' _ Hbucket.
    apply bucket_of_inj in Hbucket as [-> _].
    unfold index. by rewrite Hsize.
Qed.

Lemma grouper_emits_on_completion_witness :
  Forall (fun d => dataset_source d < 1) ([wide 0; tall 0] ++ [wide 0])
  /\ Forall (fun d => dataset_source d < length [2%Z])
            ([wide 0; tall 0] ++ [wide 0])
  /\ (MD.__iter__ (MD.__init__ 2 1) ([wide 0; tall 0] ++ [wide 0])).1
     = (MD.__iter__ (MD.__init__ 2 1) [wide 0; tall 0]).1
       ++ [[wide 0; wide 0]].
Proof.
  assert (H1 : Forall (fun d => dataset_source d < 1)
                      ([wide 0; tall 0] ++ [wide 0]))
    by (repeat constructor).
  assert (H2 : Forall (fun d => dataset_source d < length [2%Z])
                      ([wide 0; tall 0] ++ [wide 0]))
    by (repeat constructor).
  split; [exact H1|]. split; [exact H2|].
  apply (proj1 (grouper_emits_on_completion 2 [2%Z] 1 [wide 0; tall 0]
                  (wide 0) H1 H2)).
  lia.
Defined.

(** X6. With [batch_size = 1] the uniform grouper passes its input through:
    every in-range record is yielded at once as a batch of its own, in input
    order, and the grouper is left as constructed. *)
Theorem grouper_batch_size_one (num_datasets : nat) (dataset : list record) :
  Forall (fun d => dataset_source d < num_datasets) dataset ->
  MD.__iter__ (MD.__init__ 1 num_datasets) dataset
  = ((fun d => [d]) <$> dataset, Ok (MD.__init__ 1 num_datasets)).
Proof.
  induction 1 as [|d rest Hd _ IH]; [done|].
  cbn [MD.__iter__]. rewrite MD_step_grouper_step.
  unfold grouper_step, index. cbn [MD.__init__ MD.batch_size MD._buckets].
  rewrite lookup_replicate_2 by by apply bucket_of_lt.
  cbn [mbind result_bind app length]. change (Z.of_nat 1 =? 1)%Z with true.
  cbn iota. rewrite insert_replicate. cbn [mbind result_bind].
  change {| MD.batch_size := 1;
            MD._buckets := replicate (2 * num_datasets) [] |}
    with (MD.__init__ 1 num_datasets).
  by rewrite IH.
Qed.

Lemma grouper_batch_size_one_witness :
  Forall (fun d => dataset_source d < 2) [wide 0; tall 1; wide 1]
  /\ MD.__iter__ (MD.__init__ 1 2) [wide 0; tall 1; wide 1]
     = ([[wide 0]; [tall 1]; [wide 1]], Ok (MD.__init__ 1 2)).
Proof.
  assert (H1 : Forall (fun d => dataset_source d < 2) [wide 0; tall 1; wide 1])
    by (repeat constructor).
  split; [exact H1|]. exact (grouper_batch_size_one 2 _ H1).
Defined.

(* ================================================================= *)
(** ** The loader builder *)

(** The builder, case by case. *)
Lemma build_loader_cases (c : comm) (use_diff_bs_size : bool)
    (dataset_bs : list Z) (total_batch_size : Z) (num_datasets : nat) :
  build_multi_dataset_batch_data_loader c use_diff_bs_size dataset_bs
                                        total_batch_size num_datasets
  = if decide (total_batch_size <= 0)%Z then Raise AssertionError
    else if decide (get_world_size c = 0) then Raise ZeroDivisionError
    else if decide ((total_batch_size mod Z.of_nat (get_world_size c))%Z = 0%Z)
    then Ok (if use_diff_bs_size
             then PerDataset (DIFF.__init__ dataset_bs num_datasets)
             else Uniform (MD.__init__
                             (total_batch_size / Z.of_nat (get_world_size c))
                             num_datasets))
    else Raise AssertionError.
Proof.
  unfold build_multi_dataset_batch_data_loader, pymod, pyfloordiv.
  destruct (decide (total_batch_size <= 0)%Z) as [Hle|Hgt].
  { by rewrite (proj2 (Z.ltb_ge 0 total_batch_size)). }
  rewrite (proj2 (Z.ltb_lt 0 total_batch_size)) by lia.
  destruct (decide (get_world_size c = 0)) as [->|HW]; [done|].
  rewrite (proj2 (Z.eqb_neq (Z.of_nat (get_world_size c)) 0)) by lia.
  cbn [mbind result_bind].
  destruct (decide (_ = 0%Z)) as [->|Hne].
  - simpl. by destruct use_diff_bs_size.
  - by rewrite (proj2 (Z.eqb_neq _ 0) Hne).
Qed.

(** X7. When the builder succeeds and how it fails.  It returns a loader
    exactly when the total batch size is positive and a multiple of the
    (positive) world size.  A total that is not positive, or not a multiple
    of the world size, fails the assertion; a world size of 0 with a positive
    total raises [ZeroDivisionError] from the [%] inside the assertion. *)
Theorem build_loader_succeeds_iff (c : comm) (use_diff_bs_size : bool)
    (dataset_bs : list Z) (total_batch_size : Z) (num_datasets : nat) :
  (is_Ok (build_multi_dataset_batch_data_loader
            c use_diff_bs_size dataset_bs total_batch_size num_datasets)
   <-> (0 < total_batch_size)%Z /\ 0 < get_world_size c
       /\ (Z.of_nat (get_world_size c) | total_batch_size)%Z)
  /\ (build_multi_dataset_batch_data_loader
        c use_diff_bs_size dataset_bs total_batch_size num_datasets
      = Raise ZeroDivisionError
      <-> (0 < total_batch_size)%Z /\ get_world_size c = 0)
  /\ (build_multi_dataset_batch_data_loader
        c use_diff_bs_size dataset_bs total_batch_size num_datasets
      = Raise AssertionError
      <-> (total_batch_size <= 0)%Z
          \/ (0 < get_world_size c
              /\ ~ (Z.of_nat (get_world_size c) | total_batch_size)%Z)).
Proof.
  rewrite build_loader_cases.
  destruct (decide (total_batch_size <= 0)%Z) as [Hle|Hgt].
  { split; [|split]; split; try done.
    - intros [? ?]; done.
    - lia.
    - lia.
    - by left. }
  destruct (decide (get_world_size c = 0)) as [HW|HW].
  { split; [|split]; split; try done.
    - intros [? ?]; done.
    - lia.
    - intros _. split; [lia|done].
    - lia. }
  destruct (decide (_ = 0%Z)) as [Hmod|Hmod].
  - assert (Hdiv : (Z.of_nat (get_world_size c) | total_batch_size)%Z).
    { apply Z.mod_divide; [lia|done]. }
    split; [|split]; split; try done.
    + intros _. split; [lia|]. split; [lia|done].
    + intros _. by eexists.
    + lia.
    + intros [?|[_ ?]]; [lia|done].
  - assert (Hdiv : ~ (Z.of_nat (get_world_size c) | total_batch_size)%Z).
    { intros Hd. apply Hmod. apply Z.mod_divide; [lia|done]. }
    split; [|split]; split; try done.
    + intros [? ?]; done.
    + intros (_ & _ & ?). done.
    + lia.
    + intros _. right. split; [lia|done].
Qed.

(** X8. The batches of a built loader.  Every batch is homogeneous; the
    uniform loader's batches hold [total_batch_size / world_size] records each,
    so that the batches of all processes together make up the total batch
    size; the per-dataset loader's batches have the size listed for their
    dataset, whatever the total batch size and the world size are. *)
Theorem build_loader_batches (c : comm) (use_diff_bs_size : bool)
    (dataset_bs : list Z) (total_batch_size : Z) (num_datasets : nat)
    (loader : grouped_loader) (dataset : list record) :
  build_multi_dataset_batch_data_loader
    c use_diff_bs_size dataset_bs total_batch_size num_datasets = Ok loader ->
  Forall (fun batch =>
            homogeneous batch /\ batch <> []
            /\ if use_diff_bs_size
               then Forall (fun d => dataset_bs !! dataset_source d
                                     = Some (Z.of_nat (length batch))) batch
               else (Z.of_nat (length batch) * Z.of_nat (get_world_size c))%Z
                    = total_batch_size)
         (loader_batches loader dataset).
Proof.
  rewrite build_loader_cases.
  destruct (decide (total_batch_size <= 0)%Z) as [Hle|Hgt]; [done|].
  destruct (decide (get_world_size c = 0)) as [HW|HW]; [done|].
  destruct (decide (_ = 0%Z)) as [Hmod|Hmod]; [|done].
  intros [= <-]. destruct use_diff_bs_size; unfold loader_batches.
  - rewrite DIFF_iter_run.
    cbn [fst DIFF.__init__ DIFF.batch_sizes DIFF._buckets].
    eapply Forall_impl;
      [apply grouper_run_batches, buckets_sorted_replicate|].
    simpl. intros batch (Hhom & d & Hd & Hsize). split; [done|].
    split; [by intros ->; apply elem_of_nil in Hd|].
    apply Forall_forall. intros d' Hd'.
    destruct (Hhom d' d Hd' Hd) as [-> _].
    unfold index in Hsize.
    destruct (dataset_bs !! _); [by injection Hsize as ->|done].
  - rewrite MD_iter_run.
    cbn [fst MD.__init__ MD.batch_size MD._buckets].
    eapply Forall_impl;
      [apply grouper_run_batches, buckets_sorted_replicate|].
    simpl. intros batch (Hhom & d & Hd & Hsize). split; [done|].
    split; [by intros ->; apply elem_of_nil in Hd|].
    injection Hsize as <-.
    apply Z.mod_divide in Hmod as [q Hq]; [|lia].
    rewrite Hq, Z.div_mul by lia. done.
Qed.

Lemma build_loader_batches_witness :
  build_multi_dataset_batch_data_loader single_process false [] 2 1
  = Ok (Uniform (MD.__init__ 2 1))
  /\ loader_batches (Uniform (MD.__init__ 2 1)) [wide 0; tall 0; wide 0]
     = [[wide 0; wide 0]]
  /\ Forall (fun batch =>
               homogeneous batch /\ batch <> []
               /\ (Z.of_nat (length batch)
                   * Z.of_nat (get_world_size single_process))%Z = 2%Z)
            (loader_batches (Uniform (MD.__init__ 2 1))
                            [wide 0; tall 0; wide 0]).
Proof.
  assert (H1 : build_multi_dataset_batch_data_loader single_process false [] 2 1
               = Ok (Uniform (MD.__init__ 2 1))) by reflexivity.
  split; [exact H1|]. split; [reflexivity|].
  exact (build_loader_batches single_process false [] 2 1 _
           [wide 0; tall 0; wide 0] H1).
Defined.

(* ================================================================= *)
(** ** More on the Record Source Merger *)

Lemma forM_assert_empty (dataset_dicts : list (list loc)) :
  Exists (fun dicts => dicts = []) dataset_dicts ->
  forM dataset_dicts (fun dicts => py_assert (negb (length dicts =? 0)))
  = Raise AssertionError.
Proof.
  induction 1 as [dicts rest ->|dicts rest _ IH]; [done|].
  simpl. rewrite IH. by destruct dicts.
Qed.

Lemma same_but_source_refl d : same_but_source d d.
Proof. done. Qed.

Lemma same_but_source_set i d d' :
  same_but_source d d' -> same_but_source d (set_source i d').
Proof. done. Qed.

Lemma tag_loop_fields (dataset_dicts : list (list loc)) :
  forall (h : store) (source_id : nat) h',
    tag_loop h source_id dataset_dicts = Ok h' ->
    forall l, same_but_source (h l) (h' l).
Proof.
  induction dataset_dicts as [|dicts rest IH]; intros h source_id h' Hrun l.
  - by injection Hrun as <-.
  - simpl in Hrun. unfold tag_dataset in Hrun.
    destruct (py_assert _); [|done]. simpl in Hrun.
    destruct (IH _ _ _ Hrun l) as (Hw & Hh & Ha & Hp).
    rewrite tag_dataset_lookup in Hw, Hh, Ha, Hp.
    unfold same_but_source. by case_decide.
Qed.

Lemma tagged_groups_grouped h dataset_dicts :
  grouped (tagged_groups h dataset_dicts).
Proof.
  intros i group. unfold tagged_groups. rewrite list_lookup_imap.
  destruct (dataset_dicts !! i) as [dicts|]; [|done].
  intros [= <-]. apply Forall_fmap, Forall_forall. done.
Qed.

Lemma tagged_groups_lengths h dataset_dicts :
  length <$> tagged_groups h dataset_dicts = length <$> dataset_dicts.
Proof.
  unfold tagged_groups. apply list_eq. intros i.
  rewrite !list_lookup_fmap, list_lookup_imap.
  destruct (dataset_dicts !! i); [|done]. simpl. by rewrite length_fmap.
Qed.

Section MergerMore.
Context (filter_crowd : store -> list loc -> list loc).
Context (filter_kp : store -> list loc -> Z -> list loc).

(** The run of the merger on acceptable input. *)
Lemma merger_run h catalog filter_empty min_keypoints h' :
  catalog <> [] ->
  Forall (fun dicts => dicts <> []) catalog.*2 ->
  tag_loop h 0 catalog.*2 = Ok h' ->
  get_detection_dataset_dicts_with_source
    filter_crowd filter_kp h catalog filter_empty min_keypoints None
  = Ok (concat catalog.*2, h').
Proof.
  intros Hcat Hne Htag.
  destruct (forM_assert_nonempty _ Hne) as [us Hus].
  unfold get_detection_dataset_dicts_with_source.
  rewrite length_fmap. destruct catalog as [|nd catalog']; [done|].
  cbn [length Nat.eqb negb py_assert]. cbn [mbind result_bind].
  rewrite Hus. cbn [mbind result_bind]. rewrite Htag.
  cbn [mbind result_bind]. simpl bool_decide. cbn [py_assert mbind result_bind].
  by rewrite filter_loop_ok.
Qed.

(** X9. When the merger succeeds and how it fails (the catalog lookups, the
    class histogram that is only logged, and the two detectron2 filters being
    external calls that return).  It returns exactly when there is at least
    one dataset name, no dataset is empty and no proposal files are given; in
    every other case it raises [AssertionError].  In particular the
    [dataset_dict[0]] of the filter loop can never raise. *)
Theorem merger_succeeds_iff (h : store) (catalog : list (string * list loc))
    (filter_empty : bool) (min_keypoints : Z)
    (proposal_files : option (list string)) :
  (is_Ok (get_detection_dataset_dicts_with_source
            filter_crowd filter_kp h catalog filter_empty min_keypoints
            proposal_files)
   <-> catalog <> [] /\ Forall (fun dicts => dicts <> []) catalog.*2
       /\ proposal_files = None)
  /\ (get_detection_dataset_dicts_with_source
        filter_crowd filter_kp h catalog filter_empty min_keypoints
        proposal_files = Raise AssertionError
      <-> catalog = [] \/ Exists (fun dicts => dicts = []) catalog.*2
          \/ proposal_files <> None).
Proof.
  destruct catalog as [|nd catalog'] eqn:Hcat.
  { split; split; try done.
    - intros [? ?]; done.
    - by intros (? & _).
    - by left. }
  rewrite <- Hcat.
  assert (Hne : catalog <> []) by by rewrite Hcat.
  destruct (decide (Exists (fun dicts => dicts = []) catalog.*2)) as [Hex|Hex].
  { assert (Hfail : get_detection_dataset_dicts_with_source
                      filter_crowd filter_kp h catalog filter_empty
                      min_keypoints proposal_files = Raise AssertionError).
    { unfold get_detection_dataset_dicts_with_source.
      rewrite length_fmap, Hcat. cbn [length Nat.eqb negb py_assert].
      cbn [mbind result_bind]. rewrite <- Hcat.
      by rewrite forM_assert_empty. }
    rewrite Hfail. split; split; try done.
    - intros [? ?]; done.
    - intros (_ & Hall & _). exfalso.
      apply Exists_exists in Hex as (dicts & Hin & ->).
      rewrite Forall_forall in Hall. by apply (Hall [] Hin).
    - intros _. right. by left. }
  assert (Hall : Forall (fun dicts => dicts <> []) catalog.*2).
  { apply Forall_forall. intros dicts Hin ->. apply Hex.
    apply Exists_exists. by exists []. }
  destruct (tag_loop_spec catalog.*2 h 0 Hall) as (h' & Htag & _).
  destruct proposal_files as [files|].
  - assert (Hfail : get_detection_dataset_dicts_with_source
                      filter_crowd filter_kp h catalog filter_empty
                      min_keypoints (Some files) = Raise AssertionError).
    { destruct (forM_assert_nonempty _ Hall) as [us Hus].
      unfold get_detection_dataset_dicts_with_source.
      rewrite length_fmap, Hcat. cbn [length Nat.eqb negb py_assert].
      cbn [mbind result_bind]. rewrite <- Hcat.
      rewrite Hus. cbn [mbind result_bind]. rewrite Htag. done. }
    rewrite Hfail. split; split; try done.
    + intros [? ?]; done.
    + by intros (_ & _ & ?).
    + intros _. right. by right.
  - rewrite (merger_run h catalog filter_empty min_keypoints h' Hne Hall Htag).
    split; split; try done.
    + intros _. by eexists.
    + intros [?|[?|?]]; done.
Qed.

(** X10. Tagging is done in place, so a dict object that the catalog lists
    in several datasets keeps the tag of the last dataset that lists it.
    On acceptable input (dict objects may be shared) the merger returns the
    flat concatenation, duplicates included; every object keeps its width,
    height, annotations and tag list; objects outside the input are not
    written; and an object carries the index of the last dataset listing
    it. *)
Theorem merger_last_listing_wins (h : store)
    (catalog : list (string * list loc))
    (filter_empty : bool) (min_keypoints : Z) :
  catalog <> [] ->
  Forall (fun dicts => dicts <> []) catalog.*2 ->
  exists h',
    get_detection_dataset_dicts_with_source
      filter_crowd filter_kp h catalog filter_empty min_keypoints None
    = Ok (concat catalog.*2, h')
    /\ (forall l, same_but_source (h l) (h' l))
    /\ (forall l, l ∉ concat catalog.*2 -> h' l = h l)
    /\ (forall j dj l,
          catalog.*2 !! j = Some dj -> l ∈ dj ->
          (forall k dk, j < k -> catalog.*2 !! k = Some dk -> l ∉ dk) ->
          dataset_source (h' l) = j).
Proof.
  intros Hcat Hne.
  destruct (tag_loop_spec catalog.*2 h 0 Hne) as (h' & Htag & Hout & Hin).
  exists h'. split; [by apply merger_run|].
  split; [by eapply tag_loop_fields|]. split; [exact Hout|].
  intros j dj l Hj Hl Hlast. by rewrite (Hin j dj l Hj Hl Hlast).
Qed.

(** X11. The merger's output is what the sampler's constructor expects.
    When no dict object is shared between datasets, the merged records are
    the DatasetGroups laid out one after the other in input order, every group
    holding only records of its own source, and the per-dataset counts that
    the sampler computes from the merged list are the lengths of the input
    datasets. *)
Theorem merger_output_grouped (h : store)
    (catalog : list (string * list loc))
    (filter_empty : bool) (min_keypoints : Z) (dataset_ratio : list R) :
  catalog <> [] ->
  Forall (fun dicts => dicts <> []) catalog.*2 ->
  unshared catalog.*2 ->
  length dataset_ratio = length catalog ->
  exists merged h',
    get_detection_dataset_dicts_with_source
      filter_crowd filter_kp h catalog filter_empty min_keypoints None
    = Ok (merged, h')
    /\ h' <$> merged = concat (tagged_groups h catalog.*2)
    /\ grouped (tagged_groups h catalog.*2)
    /\ Sampler.count_sizes dataset_ratio (h' <$> merged)
       = Ok (length <$> catalog.*2).
Proof.
  intros Hcat Hne Hun Hlen.
  destruct (tag_loop_spec catalog.*2 h 0 Hne) as (h' & Htag & Hout & Hin).
  exists (concat catalog.*2), h'. split; [by apply merger_run|].
  assert (Hmap : h' <$> concat catalog.*2 = concat (tagged_groups h catalog.*2)).
  { apply (fmap_tagged_concat h h' catalog.*2 0).
    intros j dj l Hj Hl. apply (Hin j dj l Hj Hl).
    intros k dk Hjk Hk. by eapply unshared_later. }
  split; [exact Hmap|]. split; [apply tagged_groups_grouped|].
  rewrite Hmap, count_sizes_grouped.
  - by rewrite tagged_groups_lengths.
  - apply tagged_groups_grouped.
  - unfold tagged_groups. by rewrite length_imap, length_fmap.
Qed.
End MergerMore.

Lemma merger_last_listing_wins_witness :
  [("a"%string, [0; 1]); ("b"%string, [0])] <> []
  /\ Forall (fun dicts => dicts <> [])
            [("a"%string, [0; 1]); ("b"%string, [0])].*2
  /\ exists h',
       get_detection_dataset_dicts_with_source
         (fun _ dicts => dicts) (fun _ dicts _ => dicts)
         sample_store [("a"%string, [0; 1]); ("b"%string, [0])] true 0 None
       = Ok ([0; 1; 0], h')
       /\ dataset_source (h' 0) = 1 /\ dataset_source (h' 1) = 0.
Proof.
  assert (H1 : [("a"%string, [0; 1]); ("b"%string, [0])] <> []) by done.
  assert (H2 : Forall (fun dicts => dicts <> [])
                      [("a"%string, [0; 1]); ("b"%string, [0])].*2)
    by (repeat constructor; done).
  split; [exact H1|]. split; [exact H2|].
  destruct (merger_last_listing_wins
              (fun _ dicts => dicts) (fun _ dicts _ => dicts)
              sample_store _ true 0 H1 H2)
    as (h' & Hrun & _ & _ & Hlast).
  exists h'. split; [exact Hrun|]. split.
  - apply (Hlast 1 [0] 0); [done|by apply list_elem_of_here|].
    intros [|[|k]] dk Hk; [lia|lia|done].
  - apply (Hlast 0 [0; 1] 1);
      [done|by apply list_elem_of_further, list_elem_of_here|].
    intros [|[|k]] dk Hk; [lia| |done].
    intros [= <-] [=]%list_elem_of_singleton.
Defined.

Lemma merger_output_grouped_witness :
  sample_catalog <> []
  /\ Forall (fun dicts => dicts <> []) sample_catalog.*2
  /\ unshared sample_catalog.*2
  /\ length [1%R; 1%R] = length sample_catalog
  /\ exists merged h',
       get_detection_dataset_dicts_with_source
         (fun _ dicts => take 1 dicts) (fun _ dicts _ => [])
         sample_store sample_catalog true 3 None
       = Ok (merged, h')
       /\ h' <$> merged = [wide 0; tall 0; wide 1]
       /\ Sampler.count_sizes [1%R; 1%R] (h' <$> merged) = Ok [2; 1].
Proof.
  assert (H1 : sample_catalog <> []) by done.
  assert (H2 : Forall (fun dicts => dicts <> []) sample_catalog.*2)
    by (repeat constructor; done).
  assert (H3 : unshared sample_catalog.*2).
  { simpl. repeat split; repeat constructor;
      intros H; repeat (apply elem_of_cons in H as [H|H]; [discriminate|]);
      by apply elem_of_nil in H. }
  assert (H4 : length [1%R; 1%R] = length sample_catalog) by done.
  split; [exact H1|]. split; [exact H2|]. split; [exact H3|].
  split; [exact H4|].
  destruct (merger_output_grouped
              (fun _ dicts => take 1 dicts) (fun _ dicts _ => [])
              sample_store sample_catalog true 3 [1%R; 1%R] H1 H2 H3 H4)
    as (merged & h' & Hrun & Hmap & _ & Hsizes).
  exists merged, h'. split; [exact Hrun|]. split; [exact Hmap|exact Hsizes].
Defined.

(* ================================================================= *)
(** ** More on the sampler's constructor *)

Lemma count_source_cons i d dataset_dicts :
  count_source i (d :: dataset_dicts)
  = (if decide (dataset_source d = i) then 1 else 0)
    + count_source i dataset_dicts.
Proof.
  unfold count_source. rewrite filter_cons. by case_decide.
Qed.

(** The counting loop of lines 227-229 on any list of in-range records. *)
Lemma foldM_bump_counts dataset_dicts :
  forall sizes,
    Forall (fun d => dataset_source d < length sizes) dataset_dicts ->
    foldM Sampler.bump sizes dataset_dicts
    = Ok (imap (fun i n => n + count_source i dataset_dicts) sizes).
Proof.
  induction dataset_dicts as [|d rest IH]; intros sizes Hall.
  - simpl. f_equal. apply list_eq. intros i. rewrite list_lookup_imap.
    destruct (sizes !! i); simpl; [|done]. f_equal. unfold count_source.
    simpl. lia.
  - apply Forall_cons in Hall as [Hd Hall]. simpl. unfold Sampler.bump, index.
    destruct (lookup_lt_is_Some_2 sizes _ Hd) as [n Hn]. rewrite Hn. simpl.
    rewrite IH by by rewrite length_insert.
    f_equal. apply list_eq. intros i. rewrite !list_lookup_imap.
    rewrite count_source_cons.
    destruct (decide (dataset_source d = i)) as [<-|Hne].
    + rewrite list_lookup_insert_eq by done. rewrite Hn. simpl. f_equal. lia.
    + rewrite list_lookup_insert_ne by done. by destruct (sizes !! i).
Qed.

Lemma sum_list_insert_succ (sizes : list nat) i n :
  sizes !! i = Some n -> sum_list (<[i := n + 1]> sizes) = sum_list sizes + 1.
Proof.
  revert i. induction sizes as [|s sizes IH]; intros [|i] Hi; try done.
  - injection Hi as ->. simpl. lia.
  - simpl in *. rewrite (IH i Hi). lia.
Qed.

Lemma foldM_bump_sum dataset_dicts :
  forall sizes sizes',
    foldM Sampler.bump sizes dataset_dicts = Ok sizes' ->
    sum_list sizes' = sum_list sizes + length dataset_dicts.
Proof.
  induction dataset_dicts as [|d rest IH]; intros sizes sizes' Hrun.
  - injection Hrun as <-. simpl. lia.
  - simpl in Hrun.
    destruct (Sampler.bump sizes d) as [s1|] eqn:Hb; simpl in Hrun; [|done].
    unfold Sampler.bump, index in Hb.
    destruct (sizes !! dataset_source d) as [n|] eqn:Hn; [|done].
    injection Hb as <-.
    rewrite (IH _ _ Hrun), (sum_list_insert_succ _ _ _ Hn).
    simpl. lia.
Qed.

Lemma sum_list_replicate_0 n : sum_list (replicate n 0) = 0.
Proof. induction n as [|n IH]; [done|]. simpl. by rewrite IH. Qed.

(** X12. The per-dataset counts of lines 224-229.  The counting loop
    succeeds exactly when every record's [dataset_source] is below
    [len(dataset_ratio)], and then entry [i] of [sizes] is the number of
    records tagged [i], wherever they stand in the list; otherwise it raises
    [IndexError]. *)
Theorem count_sizes_counts_sources (dataset_ratio : list R)
    (dataset_dicts : list record) :
  Sampler.count_sizes dataset_ratio dataset_dicts
  = if decide (Forall (fun d => dataset_source d < length dataset_ratio)
                      dataset_dicts)
    then Ok ((fun i => count_source i dataset_dicts)
               <$> seq 0 (length dataset_ratio))
    else Raise IndexError.
Proof.
  unfold Sampler.count_sizes. case_decide as Hall.
  - rewrite foldM_bump_counts by by rewrite length_replicate.
    f_equal. apply list_eq. intros i.
    rewrite list_lookup_imap, list_lookup_fmap.
    destruct (decide (i < length dataset_ratio)) as [Hi|Hi].
    + rewrite lookup_replicate_2, lookup_seq_lt by done. done.
    + rewrite (proj1 (lookup_replicate_None _ _ _)), lookup_seq_ge by lia.
      done.
  - apply foldM_bump_out_of_range. rewrite length_replicate.
    apply not_Forall_Exists in Hall; [|intros d; apply _].
    eapply Exists_impl; [exact Hall|]. simpl. intros d. lia.
Qed.

Lemma slice_length {A} (l : list A) (a b : nat) :
  b <= length l -> length (slice l a b) = b - a.
Proof. intros Hb. unfold slice. rewrite length_take, length_drop. lia. Qed.

Lemma factors_loop_lengths body n :
  (forall i s st t, st + s <= n -> body i s st = Ok t -> length t = s) ->
  forall sizes i st factors,
    st + sum_list sizes <= n ->
    Sampler.factors_loop body i st sizes = Ok factors ->
    Forall2 (fun s (f : tensor) => length f = s) sizes factors.
Proof.
  intros Hbody. induction sizes as [|s rest IH]; intros i st factors Hn Hrun.
  - injection Hrun as <-. constructor.
  - simpl in Hn, Hrun.
    destruct (body i s st) as [f|] eqn:Hf; [|done]. simpl in Hrun.
    destruct (Sampler.factors_loop body (S i) (st + s) rest) as [fs|] eqn:Hfs;
      [|done]. injection Hrun as <-. constructor.
    + apply (Hbody i s st f); [lia|done].
    + apply (IH (S i) (st + s)); [lia|done].
Qed.

Lemma rfs_body_length dataset_dicts use_rfs dataset_ann repeat_threshold
    i s st t :
  st + s <= length dataset_dicts ->
  Sampler.rfs_body dataset_dicts use_rfs dataset_ann repeat_threshold i s st
  = Ok t ->
  length t = s.
Proof.
  intros Hn. unfold Sampler.rfs_body.
  destruct (index use_rfs i) as [[|]|]; simpl; [| |done].
  - destruct (index dataset_ann i) as [a|]; simpl; [|done].
    destruct (String.eqb a "box").
    + destruct (repeat_factors_from_category_frequency _ _) as [f|] eqn:Hf;
        [|done]. simpl. intros [= <-].
      rewrite renormalize_length.
      rewrite (repeat_factors_from_ids_length _ _ _ _ Hf), slice_length; lia.
    + destruct (repeat_factors_from_tag_frequency _ _) as [f|] eqn:Hf;
        [|done]. simpl. intros [= <-].
      rewrite renormalize_length.
      rewrite (repeat_factors_from_ids_length _ _ _ _ Hf), slice_length; lia.
  - intros [= <-]. apply ones_length.
Qed.

Lemma cas_body_length dataset_dicts use_cas i s st t :
  st + s <= length dataset_dicts ->
  Sampler.cas_body dataset_dicts use_cas i s st = Ok t ->
  length t = s.
Proof.
  intros Hn. unfold Sampler.cas_body.
  destruct (index use_cas i) as [[|]|]; simpl; [| |done].
  - destruct (_get_class_balance_factor_per_dataset _ _) as [f|] eqn:Hf;
      [|done]. simpl. intros [= <-].
    rewrite renormalize_length.
    rewrite (class_balance_length _ _ _ Hf), slice_length; lia.
  - intros [= <-]. apply ones_length.
Qed.

Lemma length_concat_sizes (sizes : list nat) (fs : list tensor) :
  Forall2 (fun s (f : tensor) => length f = s) sizes fs ->
  length (concat fs) = sum_list sizes.
Proof.
  induction 1 as [|s f sizes fs Hf _ IH]; [done|].
  simpl. rewrite length_app. unfold tensor in *. lia.
Qed.

Lemma cat_ok (ts : list tensor) t : cat ts = Ok t -> t = concat ts.
Proof. destruct ts; [done|]. by intros [= <-]. Qed.

Lemma zip_with_lengths {A} (f : A -> nat -> tensor) (xs : list A)
    (sizes : list nat) :
  (forall x s, length (f x s) = s) -> length xs = length sizes ->
  Forall2 (fun s (t : tensor) => length t = s) sizes (zip_with f xs sizes).
Proof.
  intros Hf. revert xs. induction sizes as [|s sizes IH]; intros [|x xs] Hlen;
    try done; try (by constructor).
  simpl. constructor; [apply Hf|]. apply IH. simpl in Hlen. lia.
Qed.

Lemma dataset_weight_lengths (dataset_ratio : list R) (sizes : list nat) dw :
  length dataset_ratio = length sizes ->
  Sampler.dataset_weight dataset_ratio sizes = Ok dw ->
  length dw = sum_list sizes.
Proof.
  intros Hlen. unfold Sampler.dataset_weight.
  set (f := fun (r : R) (s : nat) => tdiv_s _ _).
  assert (Hall : Forall2 (fun s (x : tensor) => length x = s) sizes
                         (zip_with f dataset_ratio sizes)).
  { apply zip_with_lengths; [|done]. intros r s.
    unfold f, tdiv_s, tmul_s. rewrite !length_fmap. apply ones_length. }
  intros ->%cat_ok. by apply length_concat_sizes.
Qed.

Lemma tmul_same_length (a b t : tensor) :
  length a = length b -> tmul a b = Ok t -> length t = length a.
Proof.
  intros Hlen. unfold tmul. rewrite decide_True by done. intros [= <-].
  rewrite length_zip_with. unfold tensor in *. lia.
Qed.

(** The constructor, taken apart at the points where it can stop. *)
Lemma init_inv (c : comm) (dataset_dicts : list record)
    (dataset_ratio : list R) (use_rfs use_cas : list bool)
    (dataset_ann : list string) (repeat_threshold : R) (seed : option Z)
    (self : Sampler.t) :
  Sampler.__init__ c dataset_dicts dataset_ratio use_rfs use_cas dataset_ann
                   repeat_threshold seed = Ok self ->
  exists sizes dw rfs cas w0,
    Sampler.count_sizes dataset_ratio dataset_dicts = Ok sizes
    /\ Sampler.dataset_weight dataset_ratio sizes = Ok dw
    /\ Sampler.factors_loop
         (Sampler.rfs_body dataset_dicts use_rfs dataset_ann repeat_threshold)
         0 0 sizes = Ok rfs
    /\ tmul dw (concat rfs) = Ok w0
    /\ Sampler.factors_loop (Sampler.cas_body dataset_dicts use_cas) 0 0 sizes
       = Ok cas
    /\ tmul dw (concat cas) = Ok (Sampler.weights self)
    /\ self = {| Sampler.sizes := sizes;
                 Sampler._seed := default (shared_random_seed c) seed;
                 Sampler._rank := get_rank c;
                 Sampler._world_size := get_world_size c;
                 Sampler.dataset_ids := dataset_source <$> dataset_dicts;
                 Sampler.weights := Sampler.weights self;
                 Sampler.sample_epoch_size := length w0 |}.
Proof.
  unfold Sampler.__init__.
  destruct (Sampler.count_sizes _ _) as [sizes|] eqn:Hsizes; [|done].
  cbn [mbind result_bind].
  rewrite (ratio_assert_vacuous _ _ _ Hsizes). cbn [mbind result_bind].
  destruct (Sampler.dataset_weight _ _) as [dw|] eqn:Hdw; [|done].
  cbn [mbind result_bind].
  destruct (Sampler.factors_loop (Sampler.rfs_body _ _ _ _) _ _ _)
    as [rfs|] eqn:Hrfs; [|done]. cbn [mbind result_bind].
  destruct (cat rfs) as [rfs'|] eqn:Hcr; [|done]. cbn [mbind result_bind].
  apply cat_ok in Hcr as ->.
  destruct (tmul dw (concat rfs)) as [w0|] eqn:Hw0; [|done].
  cbn [mbind result_bind].
  destruct (Sampler.factors_loop (Sampler.cas_body _ _) _ _ _)
    as [cas|] eqn:Hcas; [|done]. cbn [mbind result_bind].
  destruct (cat cas) as [cas'|] eqn:Hcc; [|done]. cbn [mbind result_bind].
  apply cat_ok in Hcc as ->.
  destruct (tmul dw (concat cas)) as [w|] eqn:Hw; [|done].
  cbn [mbind result_bind]. intros [= <-].
  exists sizes, dw, rfs, cas, w0. cbn [Sampler.weights].
  repeat (split; [done|]). by destruct seed.
Qed.

Lemma count_sizes_sum (dataset_ratio : list R) dataset_dicts sizes :
  Sampler.count_sizes dataset_ratio dataset_dicts = Ok sizes ->
  length sizes = length dataset_ratio
  /\ sum_list sizes = length dataset_dicts.
Proof.
  intros Hrun. split.
  - rewrite (foldM_bump_length _ _ _ Hrun). apply length_replicate.
  - rewrite (foldM_bump_sum _ _ _ Hrun), sum_list_replicate_0. done.
Qed.

(** The fields of a constructed sampler that do not depend on the factor
    loops. *)
Lemma init_shape (c : comm) (dataset_dicts : list record)
    (dataset_ratio : list R) (use_rfs use_cas : list bool)
    (dataset_ann : list string) (repeat_threshold : R) (seed : option Z)
    (self : Sampler.t) :
  Sampler.__init__ c dataset_dicts dataset_ratio use_rfs use_cas dataset_ann
                   repeat_threshold seed = Ok self ->
  Sampler.count_sizes dataset_ratio dataset_dicts = Ok (Sampler.sizes self)
  /\ Sampler.dataset_ids self = dataset_source <$> dataset_dicts
  /\ length (Sampler.weights self) = length dataset_dicts
  /\ Sampler.sample_epoch_size self = length dataset_dicts
  /\ Sampler._seed self = default (shared_random_seed c) seed
  /\ Sampler._rank self = get_rank c
  /\ Sampler._world_size self = get_world_size c.
Proof.
  intros Hinit.
  destruct (init_inv _ _ _ _ _ _ _ _ _ Hinit)
    as (sizes & dw & rfs & cas & w0 & Hsizes & Hdw & Hrfs & Hw0 & Hcas & Hw
        & Hself).
  destruct (count_sizes_sum _ _ _ Hsizes) as [Hlen Hsum].
  pose proof (dataset_weight_lengths _ _ _ (eq_sym Hlen) Hdw) as Hdwl.
  assert (Hrl : length (concat rfs) = sum_list sizes).
  { apply length_concat_sizes.
    apply (factors_loop_lengths
             (Sampler.rfs_body dataset_dicts use_rfs dataset_ann
                               repeat_threshold)
             (length dataset_dicts)
             (rfs_body_length dataset_dicts use_rfs dataset_ann
                              repeat_threshold)
             sizes 0 0 rfs); [simpl; lia|done]. }
  assert (Hcl : length (concat cas) = sum_list sizes).
  { apply length_concat_sizes.
    apply (factors_loop_lengths
             (Sampler.cas_body dataset_dicts use_cas) (length dataset_dicts)
             (cas_body_length dataset_dicts use_cas)
             sizes 0 0 cas); [simpl; lia|done]. }
  apply tmul_same_length in Hw0; [|unfold tensor in *; lia].
  apply tmul_same_length in Hw; [|unfold tensor in *; lia].
  rewrite Hself. cbn. unfold tensor in *.
  repeat split; try done; lia.
Qed.

Lemma count_sizes_inv (dataset_ratio : list R) dataset_dicts sizes :
  Sampler.count_sizes dataset_ratio dataset_dicts = Ok sizes ->
  Forall (fun d => dataset_source d < length dataset_ratio) dataset_dicts
  /\ sizes = (fun i => count_source i dataset_dicts)
               <$> seq 0 (length dataset_ratio).
Proof.
  unfold Sampler.count_sizes. intros Hrun.
  destruct (decide (Forall (fun d => dataset_source d < length dataset_ratio)
                           dataset_dicts)) as [Hall|Hall].
  - split; [done|].
    rewrite foldM_bump_counts in Hrun by by rewrite length_replicate.
    injection Hrun as <-. apply list_eq. intros i.
    rewrite list_lookup_imap, list_lookup_fmap.
    destruct (decide (i < length dataset_ratio)) as [Hi|Hi].
    + rewrite lookup_replicate_2, lookup_seq_lt by done. done.
    + rewrite (proj1 (lookup_replicate_None _ _ _)), lookup_seq_ge by lia.
      done.
  - rewrite foldM_bump_out_of_range in Hrun; [done|].
    rewrite length_replicate.
    apply not_Forall_Exists in Hall; [|intros d; apply _].
    eapply Exists_impl; [exact Hall|]. simpl. intros d. lia.
Qed.

Section ConstructedSampler.
Local Open Scope R_scope.

(** X13. What every constructed sampler looks like, whatever the order of
    the records and the settings of the factor loops: [sizes] has one entry
    per ratio, entry [i] counting the records tagged [i], and the entries add
    up to the number of records; [dataset_ids] lists the tags in record
    order; there is one weight per record; and [sample_epoch_size] is the
    number of records. *)
Theorem constructed_sampler_shape (c : comm) (dataset_dicts : list record)
    (dataset_ratio : list R) (use_rfs use_cas : list bool)
    (dataset_ann : list string) (repeat_threshold : R) (seed : option Z)
    (self : Sampler.t) :
  Sampler.__init__ c dataset_dicts dataset_ratio use_rfs use_cas dataset_ann
                   repeat_threshold seed = Ok self ->
  Sampler.sizes self
  = (fun i => count_source i dataset_dicts) <$> seq 0 (length dataset_ratio)
  /\ sum_list (Sampler.sizes self) = length dataset_dicts
  /\ Sampler.dataset_ids self = dataset_source <$> dataset_dicts
  /\ length (Sampler.weights self) = length dataset_dicts
  /\ Sampler.sample_epoch_size self = length dataset_dicts
  /\ Forall (fun i => (i < length dataset_ratio)%nat) (Sampler.dataset_ids self).
Proof.
  intros Hinit.
  destruct (init_shape _ _ _ _ _ _ _ _ _ Hinit)
    as (Hsizes & Hids & Hw & He & _).
  destruct (count_sizes_inv _ _ _ Hsizes) as [Hall Hcounts].
  destruct (count_sizes_sum _ _ _ Hsizes) as [_ Hsum].
  repeat (split; [done|]). rewrite Hids. by apply Forall_fmap.
Qed.

Lemma constructed_sampler_shape_witness :
  Sampler.__init__ single_process [annotated [0%nat]; annotated []] [1]
                   [false] [true] ["box"%string] 1 (Some 0%Z)
  = Ok zero_weight_sampler
  /\ Sampler.sizes zero_weight_sampler
     = (fun i => count_source i [annotated [0%nat]; annotated []])
         <$> seq 0 (length [1])
  /\ sum_list (Sampler.sizes zero_weight_sampler) = 2%nat.
Proof.
  split; [exact init_zero_weight|].
  destruct (constructed_sampler_shape _ _ _ _ _ _ _ _ _ init_zero_weight)
    as (Hsizes & Hsum & _).
  split; [exact Hsizes|exact Hsum].
Defined.

(** X14. The repeat-factor settings never reach the sampler.  Two
    constructions that differ only in [use_rfs], [dataset_ann] and
    [repeat_threshold], and that both complete, build the same sampler:
    same sizes, same weights, same epoch size, for any records in any
    order.  The settings can only decide whether construction completes. *)
Theorem sampler_ignores_repeat_factors (c : comm) (dataset_dicts : list record)
    (dataset_ratio : list R) (use_rfs use_rfs' use_cas : list bool)
    (dataset_ann dataset_ann' : list string)
    (repeat_threshold repeat_threshold' : R) (seed : option Z)
    (self self' : Sampler.t) :
  Sampler.__init__ c dataset_dicts dataset_ratio use_rfs use_cas dataset_ann
                   repeat_threshold seed = Ok self ->
  Sampler.__init__ c dataset_dicts dataset_ratio use_rfs' use_cas dataset_ann'
                   repeat_threshold' seed = Ok self' ->
  self = self'.
Proof.
  intros H1 H2.
  destruct (init_shape _ _ _ _ _ _ _ _ _ H1) as (_ & _ & _ & He1 & _).
  destruct (init_shape _ _ _ _ _ _ _ _ _ H2) as (_ & _ & _ & He2 & _).
  destruct (init_inv _ _ _ _ _ _ _ _ _ H1)
    as (sizes & dw & rfs & cas & w0 & Hs & Hdw & _ & _ & Hcas & Hw & Hself).
  destruct (init_inv _ _ _ _ _ _ _ _ _ H2)
    as (sizes' & dw' & rfs' & cas' & w0' & Hs' & Hdw' & _ & _ & Hcas' & Hw'
        & Hself').
  rewrite Hs in Hs'. injection Hs' as <-.
  rewrite Hdw in Hdw'. injection Hdw' as <-.
  rewrite Hcas in Hcas'. injection Hcas' as <-.
  rewrite Hw in Hw'. injection Hw' as Hweights.
  rewrite Hself in He1. rewrite Hself' in He2. cbn in He1, He2.
  rewrite Hself, Hself'. by rewrite Hweights, He1, He2.
Qed.

Lemma sampler_ignores_repeat_factors_witness :
  Sampler.__init__ single_process rare_tag_group [1] [true] [false]
                   ["tag"%string] 1 (Some 0%Z) = Ok rare_tag_sampler
  /\ Sampler.__init__ single_process rare_tag_group [1] [false] [false]
                      [] 0 (Some 0%Z) = Ok rare_tag_sampler.
Proof.
  split; [exact init_rare_tag|].
  destruct (init_flags_off single_process [rare_tag_group] [1]
              [false] [false] [] 0 (Some 0%Z))
    as (self' & Hinit & _);
    [by apply grouped_one; repeat constructor|done|done|repeat constructor
    |simpl; lia|repeat constructor|simpl; lia|].
  change (concat [rare_tag_group]) with rare_tag_group in Hinit.
  rewrite Hinit. f_equal. symmetry.
  exact (sampler_ignores_repeat_factors _ _ _ _ _ _ _ _ _ _ _ _ _
           init_rare_tag Hinit).
Defined.

Lemma pysum_replicate_1 (s : nat) : pysum (replicate s 1) = INR s.
Proof.
  induction s as [|s IH]; [done|].
  cbn [replicate]. rewrite pysum_cons, IH, S_INR. lra.
Qed.

(** The class-balance factor of a group, as a list of reals that add up
    to the size of the group. *)
Lemma cas_group_sum (use_cas : list bool) (i : nat) (group : list record)
    (f : tensor) :
  cas_group use_cas i group = Ok f ->
  (use_cas !! i = Some true ->
   Exists (fun d => categories_of d <> []) group) ->
  exists l : list R,
    f = of_list l /\ length l = length group /\ pysum l = INR (length group).
Proof.
  intros Hcas Hex. unfold cas_group, index in Hcas.
  destruct (use_cas !! i) as [[|]|] eqn:Hflag; simpl in Hcas; [| |done].
  - destruct (_get_class_balance_factor_per_dataset group 1) as [t|] eqn:Ht;
      simpl in Hcas; [|done].
    injection Hcas as <-.
    assert (Hids : Forall (fun d => category_set d = Ok (categories_of d)) group).
    { revert Ht. unfold _get_class_balance_factor_per_dataset.
      destruct (count_ids category_set group) as [m|] eqn:Hm; [|done].
      intros _. eapply Forall_impl; [by eapply count_ids_is_Ok|].
      intros d. apply category_set_categories_of. }
    rewrite class_balance_ok in Ht by done. injection Ht as <-.
    set (idss := categories_of <$> group).
    set (bal := (fun d => balance_factor idss (categories_of d)) <$> group).
    assert (Hlen : length bal = length group) by apply length_fmap.
    assert (Hsum : 0 < pysum bal).
    { apply pysum_pos_exists.
      - apply Forall_fmap, Forall_forall. intros d _.
        apply balance_factor_nonneg.
      - specialize (Hex eq_refl). apply Exists_exists in Hex as (d & Hd & Hne).
        apply Exists_exists. exists (balance_factor idss (categories_of d)).
        split; [apply list_elem_of_fmap; by exists d|].
        apply balance_factor_pos; [done|].
        apply list_elem_of_fmap. by exists d. }
    exists (scaled (length group) bal). split; [|split].
    + apply renormalize_of_list. lra.
    + unfold scaled. by rewrite length_fmap.
    + rewrite <- Hlen. apply pysum_scaled. lra.
  - injection Hcas as <-. exists (replicate (length group) 1).
    split; [|split].
    + unfold ones, of_list. by rewrite fmap_replicate.
    + apply length_replicate.
    + apply pysum_replicate_1.
Qed.

Lemma tsum_constant_times (k : R) (l : list R) (s : nat) :
  length l = s ->
  tsum (zip_with emul (replicate s (Fin k)) (of_list l)) = Fin (k * pysum l).
Proof.
  intros Hlen. rewrite zip_with_replicate_l
    by (unfold of_list; rewrite length_fmap; lia).
  assert (emul (Fin k) <$> of_list l = of_list ((fun x => x * k) <$> l)) as ->.
  { unfold of_list. rewrite <- !list_fmap_compose.
    apply list_fmap_ext. intros _ x _. simpl. f_equal. lra. }
  rewrite tsum_of_list, pysum_scale. f_equal. lra.
Qed.

(** X15. The ratios fix the share of each dataset, whatever its size.  For
    a completed construction on a merged list of non-empty datasets (with a
    non-zero ratio sum, and at least one categorised record in every dataset
    that has [use_cas] on), the weight vector is the concatenation of one
    block per dataset, and the weights of block [i] add up to
    [max(sizes) * dataset_ratio[i] / sum(dataset_ratio)]: the chance that a
    draw falls into dataset [i] is proportional to [dataset_ratio[i]] alone,
    with class balancing on or off. *)
Theorem dataset_share_follows_ratio (c : comm) (groups : list (list record))
    (dataset_ratio : list R) (use_rfs use_cas : list bool)
    (dataset_ann : list string) (repeat_threshold : R) (seed : option Z)
    (self : Sampler.t) :
  grouped groups -> groups <> [] ->
  Forall (fun group => group <> []) groups ->
  length dataset_ratio = length groups ->
  pysum dataset_ratio <> 0 ->
  (forall i group, groups !! i = Some group -> use_cas !! i = Some true ->
                   Exists (fun d => categories_of d <> []) group) ->
  Sampler.__init__ c (concat groups) dataset_ratio use_rfs use_cas dataset_ann
                   repeat_threshold seed = Ok self ->
  exists blocks : list tensor,
    Sampler.weights self = concat blocks
    /\ Forall2 (fun group (w : tensor) => length w = length group) groups blocks
    /\ Forall2 (fun r w =>
                  tsum w = Fin (INR (max_list (length <$> groups)) * r
                                / pysum dataset_ratio))
               dataset_ratio blocks.
Proof.
  intros Hg Hne Hnonempty Hlen Hsum Hex Hinit.
  rewrite init_grouped in Hinit by done.
  destruct (group_factors (rfs_group _ _ _) 0 groups) as [rfs|]; [|done].
  destruct (group_factors (cas_group use_cas) 0 groups) as [cas|] eqn:Hcas;
    [|done].
  cbn [mbind result_bind] in Hinit. injection Hinit as <-.
  cbn [Sampler.weights].
  destruct (group_factors_lookup _ _ _ _ Hcas) as [Hcl Hlook].
  eexists. split; [reflexivity|]. split.
  - apply Forall2_same_length_lookup. split.
    + rewrite !length_zip_with, length_fmap. unfold tensor in *. lia.
    + intros j group y Hj Hy.
      apply lookup_zip_with_Some in Hy as (x & f & -> & Hx & Hf).
      apply lookup_zip_with_Some in Hx as (r & s & -> & Hr & Hs).
      rewrite list_lookup_fmap, Hj in Hs. injection Hs as <-.
      destruct (cas_group_sum use_cas j group f) as (l & -> & Hl & _).
      * by apply (Hlook j group f).
      * intros Hflag. by eapply Hex.
      * rewrite length_zip_with, length_replicate. unfold of_list.
        rewrite length_fmap. lia.
  - apply Forall2_same_length_lookup. split.
    + rewrite !length_zip_with, length_fmap. unfold tensor in *. lia.
    + intros j r y Hr Hy.
      apply lookup_zip_with_Some in Hy as (x & f & -> & Hx & Hf).
      apply lookup_zip_with_Some in Hx as (r' & s & -> & Hr' & Hs).
      rewrite Hr in Hr'. injection Hr' as <-.
      rewrite list_lookup_fmap in Hs.
      destruct (groups !! j) as [group|] eqn:Hj; [|done]. injection Hs as <-.
      assert (group <> []) as Hgne.
      { rewrite Forall_forall in Hnonempty. apply Hnonempty.
        by eapply list_elem_of_lookup_2. }
      assert (0 < length group)%nat as Hs0
        by (destruct group; [done|simpl; lia]).
      destruct (cas_group_sum use_cas j group f) as (l & -> & Hl & Hpl).
      * by apply (Hlook j group f).
      * intros Hflag. by eapply Hex.
      * rewrite dataset_weight_entry_constant by (done || lia).
        rewrite tsum_constant_times by done. rewrite Hpl. f_equal.
        unfold dataset_constant. field. split; [done|].
        apply not_0_INR. lia.
Qed.

Lemma dataset_share_follows_ratio_witness :
  grouped [[annotated [0%nat]; annotated []]]
  /\ pysum [1] <> 0
  /\ Sampler.__init__ single_process
                      (concat [[annotated [0%nat]; annotated []]]) [1]
                      [false] [true] ["box"%string] 1 (Some 0%Z)
     = Ok zero_weight_sampler
  /\ exists blocks : list tensor,
       Sampler.weights zero_weight_sampler = concat blocks
       /\ Forall2 (fun group (w : tensor) => length w = length group)
                  [[annotated [0%nat]; annotated []]] blocks
       /\ Forall2 (fun r w =>
                     tsum w
                     = Fin (INR (max_list
                                   (length <$> [[annotated [0%nat];
                                                 annotated []]]))
                            * r / pysum [1]))
                  [1] blocks.
Proof.
  assert (H1 : grouped [[annotated [0%nat]; annotated []]])
    by (by apply grouped_one; repeat constructor).
  assert (H2 : pysum [1] <> 0) by (unfold pysum; simpl; lra).
  split; [exact H1|]. split; [exact H2|]. split; [exact init_zero_weight|].
  apply (dataset_share_follows_ratio single_process
           [[annotated [0%nat]; annotated []]] [1] [false] [true]
           ["box"%string] 1 (Some 0%Z) zero_weight_sampler H1);
    [done|by repeat constructor|done|exact H2| |exact init_zero_weight].
  intros [|i] group Hi Hflag; [|done]. injection Hi as <-.
  apply Exists_cons_hd. done.
Defined.
End ConstructedSampler.

(** An empty [dataset_ratio] is never accepted: with records the
    counting loop raises [IndexError] at the first of them, without records
    [torch.cat] is handed an empty list and raises [ValueError]. *)
Lemma init_rejects_empty_ratio (c : comm) (dataset_dicts : list record)
    (use_rfs use_cas : list bool) (dataset_ann : list string)
    (repeat_threshold : R) (seed : option Z) :
  Sampler.__init__ c dataset_dicts [] use_rfs use_cas dataset_ann
                   repeat_threshold seed
  = Raise (match dataset_dicts with
           | [] => ValueError
           | _ => IndexError
           end).
Proof. by destruct dataset_dicts. Qed.

Lemma tmul_ok (a b : tensor) :
  length a = length b -> tmul a b = Ok (zip_with emul a b).
Proof. intros Hlen. unfold tmul. by rewrite decide_True. Qed.

(** Construction completes as soon as the counting loop and the two factor
    loops do. *)
Lemma init_completes (c : comm) (dataset_dicts : list record)
    (dataset_ratio : list R) (use_rfs use_cas : list bool)
    (dataset_ann : list string) (repeat_threshold : R) (seed : option Z)
    sizes rfs cas :
  dataset_ratio <> [] ->
  Sampler.count_sizes dataset_ratio dataset_dicts = Ok sizes ->
  Sampler.factors_loop
    (Sampler.rfs_body dataset_dicts use_rfs dataset_ann repeat_threshold)
    0 0 sizes = Ok rfs ->
  Sampler.factors_loop (Sampler.cas_body dataset_dicts use_cas) 0 0 sizes
  = Ok cas ->
  is_Ok (Sampler.__init__ c dataset_dicts dataset_ratio use_rfs use_cas
                          dataset_ann repeat_threshold seed).
Proof.
  intros Hne Hsizes Hrfs Hcas.
  destruct (count_sizes_sum _ _ _ Hsizes) as [Hlen Hsum].
  assert (Hsne : sizes <> []) by (by destruct sizes, dataset_ratio).
  pose proof (dataset_weight_eq dataset_ratio sizes Hne Hsne) as Hdw.
  pose proof (dataset_weight_lengths _ _ _ (eq_sym Hlen) Hdw) as Hdwl.
  pose proof (factors_loop_lengths
                (Sampler.rfs_body dataset_dicts use_rfs dataset_ann
                                  repeat_threshold)
                (length dataset_dicts)
                (rfs_body_length dataset_dicts use_rfs dataset_ann
                                 repeat_threshold)
                sizes 0 0 rfs ltac:(simpl; lia) Hrfs) as Hrl.
  pose proof (factors_loop_lengths
                (Sampler.cas_body dataset_dicts use_cas) (length dataset_dicts)
                (cas_body_length dataset_dicts use_cas)
                sizes 0 0 cas ltac:(simpl; lia) Hcas) as Hcl.
  unfold Sampler.__init__. rewrite Hsizes. cbn [mbind result_bind].
  rewrite (ratio_assert_vacuous _ _ _ Hsizes). cbn [mbind result_bind].
  rewrite Hdw. cbn [mbind result_bind]. rewrite Hrfs. cbn [mbind result_bind].
  assert (Hcat : forall fs : list tensor,
             Forall2 (fun s (f : tensor) => length f = s) sizes fs ->
             cat fs = Ok (concat fs)).
  { intros fs Hfs. destruct Hfs; done. }
  rewrite (Hcat rfs Hrl). cbn [mbind result_bind].
  rewrite (tmul_ok _ (concat rfs))
    by (rewrite Hdwl; symmetry; by apply length_concat_sizes).
  cbn [mbind result_bind]. rewrite Hcas. cbn [mbind result_bind].
  rewrite (Hcat cas Hcl). cbn [mbind result_bind].
  rewrite (tmul_ok _ (concat cas))
    by (rewrite Hdwl; symmetry; by apply length_concat_sizes).
  by eexists.
Qed.

Lemma factors_loop_zero body n0 :
  (forall i st, i < n0 -> is_Ok (body i 0 st)) ->
  forall n i st,
    i + n <= n0 ->
    is_Ok (Sampler.factors_loop body i st (replicate n 0)).
Proof.
  intros Hbody. induction n as [|n IH]; intros i st Hn; [by eexists|].
  cbn [replicate Sampler.factors_loop].
  destruct (Hbody i st) as [f ->]; [lia|]. cbn [mbind result_bind].
  destruct (IH (S i) (st + 0)) as [fs ->]; [lia|]. by eexists.
Qed.

Lemma dict_forM_empty {A B} (f : A -> result B) : dict_forM ∅ f = Ok ∅.
Proof. unfold dict_forM. by rewrite map_fold_empty. Qed.

Lemma repeat_factors_no_records ids repeat_thresh :
  repeat_factors_from_ids ids [] repeat_thresh = Ok [].
Proof.
  unfold repeat_factors_from_ids. cbn [count_ids foldM mbind result_bind].
  rewrite dict_forM_empty. cbn [mbind result_bind].
  by rewrite dict_forM_empty.
Qed.

Lemma slice_nil {A} (a b : nat) : slice (@nil A) a b = [].
Proof. unfold slice. by rewrite drop_nil, take_nil. Qed.

Section LazyFailure.
Context `{G : Generator}.

Lemma valid_weights_NonFin w : NonFin ∈ w -> valid_weights w = false.
Proof.
  intros Hin. unfold valid_weights.
  assert (forallb (fun e => match e with
                            | Fin x => bool_decide (0 <= x)%R
                            | NonFin => false
                            end) w = false) as ->; [|done].
  induction w as [|e w IH]; [by apply elem_of_nil in Hin|].
  apply elem_of_cons in Hin as [<-|Hin]; [done|].
  simpl. rewrite IH by done. by rewrite andb_false_r.
Qed.

Lemma indices_next_raises (self : Sampler.t) st :
  pending st = [] ->
  Sampler.sample_epoch_size self = 0
  \/ valid_weights (Sampler.weights self) = false ->
  indices_next self st = Raise RuntimeError.
Proof.
  intros Hp Hbad. unfold indices_next, multinomial. rewrite Hp.
  destruct Hbad as [-> | ->]; [done|]. by rewrite orb_true_r.
Qed.

Lemma first_indices_raises (self : Sampler.t) k :
  1 <= Sampler._world_size self ->
  Sampler.sample_epoch_size self = 0
  \/ valid_weights (Sampler.weights self) = false ->
  first_indices self (S k) = Raise RuntimeError.
Proof.
  intros HW Hbad. unfold first_indices, __iter__.
  cbn [mbind result_bind take_iter]. rewrite iter_next_Created.
  destruct (Nat.eqb_spec (Sampler._world_size self) 0) as [?|_]; [lia|].
  rewrite iter_next_Running, islice_next_eq.
  pose proof (indices_next_raises self (_infinite_indices self) eq_refl Hbad)
    as Hnext.
  destruct (Sampler._rank self) as [|r]; cbn [drain mbind result_bind];
    by rewrite Hnext.
Qed.

(** X16. Bad weights are found out late.  A sampler whose weights torch
    rejects (a negative, inf or nan entry, or a zero sum), or whose epoch
    size is 0, still hands out an iterator; the first [next] on it, on
    whatever rank, raises [RuntimeError] from [torch.multinomial]. *)
Theorem bad_weights_fail_at_first_draw (self : Sampler.t) (k : nat) :
  1 <= Sampler._world_size self ->
  Sampler.sample_epoch_size self = 0
  \/ valid_weights (Sampler.weights self) = false ->
  is_Ok (__iter__ self)
  /\ first_indices self 0 = Ok []
  /\ first_indices self (S k) = Raise RuntimeError.
Proof.
  intros HW Hbad. split; [|split].
  - by eexists.
  - done.
  - by apply first_indices_raises.
Qed.

(** X17. An empty record list is not rejected by the constructor.  With
    at least one ratio and flag lists that cover the ratios, constructing a
    sampler over no records completes, with all sizes 0, no weights and epoch
    size 0; the failure only shows at the first draw, which raises
    [RuntimeError]. *)
Theorem init_accepts_no_records (c : comm) (dataset_ratio : list R)
    (use_rfs use_cas : list bool) (dataset_ann : list string)
    (repeat_threshold : R) (seed : option Z) (k : nat) :
  dataset_ratio <> [] ->
  length dataset_ratio <= length use_rfs ->
  length dataset_ratio <= length use_cas ->
  length dataset_ratio <= length dataset_ann ->
  1 <= get_world_size c ->
  exists self,
    Sampler.__init__ c [] dataset_ratio use_rfs use_cas dataset_ann
                     repeat_threshold seed = Ok self
    /\ Sampler.sizes self = replicate (length dataset_ratio) 0
    /\ Sampler.weights self = []
    /\ Sampler.sample_epoch_size self = 0
    /\ first_indices self (S k) = Raise RuntimeError.
Proof.
  intros Hne Hrfs Hcas Hann HW.
  assert (Hsizes : Sampler.count_sizes dataset_ratio []
                   = Ok (replicate (length dataset_ratio) 0)) by done.
  destruct (factors_loop_zero
              (Sampler.rfs_body [] use_rfs dataset_ann repeat_threshold)
              (length dataset_ratio)) with (n := length dataset_ratio)
                                           (i := 0) (st := 0)
    as [rfs Hr]; [|lia|].
  { intros i st Hi. unfold Sampler.rfs_body.
    destruct (index_lt use_rfs i) as [u ->]; [lia|]. cbn [mbind result_bind].
    destruct u; [|by eexists].
    destruct (index_lt dataset_ann i) as [a ->]; [lia|]. cbn [mbind result_bind].
    rewrite slice_nil.
    unfold repeat_factors_from_category_frequency,
      repeat_factors_from_tag_frequency.
    destruct (String.eqb a "box"); rewrite repeat_factors_no_records;
      by eexists. }
  destruct (factors_loop_zero (Sampler.cas_body [] use_cas)
              (length dataset_ratio)) with (n := length dataset_ratio)
                                           (i := 0) (st := 0)
    as [cas Hc]; [|lia|].
  { intros i st Hi. unfold Sampler.cas_body.
    destruct (index_lt use_cas i) as [u ->]; [lia|]. cbn [mbind result_bind].
    destruct u; [|by eexists]. rewrite slice_nil. by eexists. }
  destruct (init_completes c [] dataset_ratio use_rfs use_cas dataset_ann
              repeat_threshold seed _ _ _ Hne Hsizes Hr Hc) as [self Hinit].
  destruct (init_shape _ _ _ _ _ _ _ _ _ Hinit)
    as (Hs & _ & Hw & He & _ & _ & HWs).
  exists self. split; [done|]. split; [|split; [|split]].
  - rewrite Hsizes in Hs. by injection Hs.
  - by destruct (Sampler.weights self).
  - done.
  - apply first_indices_raises; [by rewrite HWs|by left].
Qed.
End LazyFailure.

Lemma bad_weights_fail_at_first_draw_witness :
  1 <= Sampler._world_size nan_sampler
  /\ valid_weights (Sampler.weights nan_sampler) = false
  /\ is_Ok (__iter__ (G := counter_generator) nan_sampler)
  /\ first_indices (G := counter_generator) nan_sampler 0 = Ok []
  /\ first_indices (G := counter_generator) nan_sampler 1
     = Raise RuntimeError.
Proof.
  assert (H1 : 1 <= Sampler._world_size nan_sampler) by (simpl; lia).
  assert (H2 : valid_weights (Sampler.weights nan_sampler) = false)
    by reflexivity.
  split; [exact H1|]. split; [exact H2|].
  exact (bad_weights_fail_at_first_draw (G := counter_generator)
           nan_sampler 0 H1 (or_intror H2)).
Defined.

Lemma init_accepts_no_records_witness :
  [1%R; 1%R] <> []
  /\ exists self,
       Sampler.__init__ single_process [] [1%R; 1%R] [true; false]
                        [false; true] ["tag"%string; "box"%string] 1%R None
       = Ok self
       /\ Sampler.sizes self = [0; 0]
       /\ Sampler.weights self = []
       /\ Sampler.sample_epoch_size self = 0
       /\ first_indices (G := counter_generator) self 1 = Raise RuntimeError.
Proof.
  split; [done|].
  apply (init_accepts_no_records (G := counter_generator) single_process
           [1%R; 1%R] [true; false] [false; true]
           ["tag"%string; "box"%string] 1%R None 0);
    [done|simpl; lia..].
Defined.

Section NoCategory.
Context `{G : Generator}.
Local Open Scope R_scope.

Lemma pysum_zeros (l : list R) : Forall (fun x => x = 0) l -> pysum l = 0.
Proof.
  induction 1 as [|x l -> _ IH]; [done|]. rewrite pysum_cons, IH. lra.
Qed.

(** Class balancing on a dataset without any category: every factor is
    [0 * (s / 0)], which is nan. *)
Lemma cas_group_nan (use_cas : list bool) (j : nat) (group : list record)
    (f : tensor) :
  use_cas !! j = Some true ->
  Forall (fun d => categories_of d = []) group ->
  cas_group use_cas j group = Ok f ->
  f = replicate (length group) NonFin.
Proof.
  intros Hflag Hnone Hcas. unfold cas_group, index in Hcas.
  rewrite Hflag in Hcas. simpl in Hcas.
  destruct (_get_class_balance_factor_per_dataset group 1) as [t|] eqn:Ht;
    simpl in Hcas; [|done].
  injection Hcas as <-.
  assert (Hids : Forall (fun d => category_set d = Ok (categories_of d)) group).
  { revert Ht. unfold _get_class_balance_factor_per_dataset.
    destruct (count_ids category_set group) as [m|] eqn:Hm; [|done].
    intros _. eapply Forall_impl; [by eapply count_ids_is_Ok|].
    intros d. apply category_set_categories_of. }
  rewrite class_balance_ok in Ht by done. injection Ht as <-.
  set (bal := (fun d => balance_factor _ (categories_of d)) <$> group).
  assert (Hzero : pysum bal = 0).
  { apply pysum_zeros, Forall_fmap. eapply Forall_impl; [exact Hnone|].
    simpl. intros d ->. apply balance_factor_nil. }
  unfold Sampler.renormalize. rewrite tsum_of_list, Hzero.
  unfold ediv. rewrite decide_True by done.
  unfold tmul_s, of_list, bal. rewrite <- !list_fmap_compose.
  apply list_eq. intros i. rewrite list_lookup_fmap.
  destruct (group !! i) as [d|] eqn:Hd; simpl.
  - by rewrite lookup_replicate_2 by by eapply lookup_lt_Some.
  - symmetry. apply lookup_replicate_None. by apply lookup_ge_None.
Qed.

(** X18. Class balancing a dataset in which no record has a category
    poisons the sampler.  When construction completes on a merged list in
    which the non-empty dataset [j] has [use_cas] on and not a single
    category, every record of dataset [j] gets the weight nan; torch rejects
    the weight vector, and the first draw raises [RuntimeError]. *)
Theorem cas_without_categories_gives_nan (c : comm)
    (groups : list (list record)) (dataset_ratio : list R)
    (use_rfs use_cas : list bool) (dataset_ann : list string)
    (repeat_threshold : R) (seed : option Z) (self : Sampler.t)
    (j : nat) (group : list record) (k : nat) :
  grouped groups -> length dataset_ratio = length groups ->
  groups !! j = Some group -> group <> [] ->
  use_cas !! j = Some true ->
  Forall (fun d => categories_of d = []) group ->
  (1 <= get_world_size c)%nat ->
  Sampler.__init__ c (concat groups) dataset_ratio use_rfs use_cas dataset_ann
                   repeat_threshold seed = Ok self ->
  Forall2 (fun d w => dataset_source d = j -> w = NonFin)
          (concat groups) (Sampler.weights self)
  /\ valid_weights (Sampler.weights self) = false
  /\ first_indices self (S k) = Raise RuntimeError.
Proof.
  intros Hg Hlen Hj Hgne Hflag Hnone HW Hinit.
  assert (Hne : groups <> []) by (by intros ->).
  assert (Hall : Forall2 (fun d w => dataset_source d = j -> w = NonFin)
                         (concat groups) (Sampler.weights self)).
  { rewrite init_grouped in Hinit by done.
    destruct (group_factors (rfs_group _ _ _) 0 groups) as [rfs|]; [|done].
    destruct (group_factors (cas_group use_cas) 0 groups) as [cas|] eqn:Hcas;
      [|done].
    cbn [mbind result_bind] in Hinit. injection Hinit as <-.
    cbn [Sampler.weights].
    destruct (group_factors_lookup _ _ _ _ Hcas) as [Hcl Hlook].
    apply Forall2_concat, Forall2_same_length_lookup. split.
    - rewrite !length_zip_with, length_fmap. unfold tensor in *. lia.
    - intros i gi y Hi Hy.
      apply lookup_zip_with_Some in Hy as (x & f & -> & Hx & Hf).
      apply lookup_zip_with_Some in Hx as (r & s & -> & Hr & Hs).
      rewrite list_lookup_fmap, Hi in Hs. injection Hs as <-.
      pose proof (Hlook i gi f Hi Hf) as Hfi. simpl in Hfi.
      pose proof (cas_group_length _ _ _ _ Hfi) as Hfl.
      destruct (decide (i = j)) as [->|Hij].
      + rewrite Hj in Hi. injection Hi as <-.
        rewrite (cas_group_nan use_cas j group f Hflag Hnone Hfi).
        rewrite zip_with_replicate. apply Forall2_replicate_same.
        intros d _ _. by destruct (dataset_weight_entry _ _ _ _).
      + apply Forall2_same_length_lookup. split.
        * rewrite length_zip_with, length_replicate. unfold tensor in *. lia.
        * intros n d w Hd _ Hsrc. exfalso. apply Hij.
          pose proof (Hg i gi Hi) as Hsrcs. rewrite Forall_forall in Hsrcs.
          rewrite <- Hsrc. symmetry. apply Hsrcs.
          by eapply list_elem_of_lookup_2. }
  assert (Hbad : valid_weights (Sampler.weights self) = false).
  { apply valid_weights_NonFin.
    destruct group as [|d group']; [done|].
    assert (Hd : d ∈ concat groups).
    { apply elem_of_concat. exists (d :: group'). split.
      - by eapply list_elem_of_lookup_2.
      - apply list_elem_of_here. }
    apply list_elem_of_lookup in Hd as [n Hn].
    destruct (Forall2_lookup_l _ _ _ _ _ Hall Hn) as (w & Hw & Hnan).
    rewrite Hnan in Hw; [by eapply list_elem_of_lookup_2|].
    pose proof (Hg j _ Hj) as Hsrcs. by apply Forall_cons in Hsrcs as [? _]. }
  split; [done|]. split; [done|].
  destruct (init_shape _ _ _ _ _ _ _ _ _ Hinit) as (_ & _ & _ & _ & _ & _ & HWs).
  apply first_indices_raises; [by rewrite HWs|by right].
Qed.

Lemma init_no_category :
  is_Ok (Sampler.__init__ single_process [annotated []; annotated []] [1]
                          [false] [true] ["box"%string] 1 (Some 0%Z)).
Proof.
  rewrite (init_grouped single_process [[annotated []; annotated []]]);
    [|by apply grouped_one; repeat constructor|done..].
  cbn [group_factors rfs_group cas_group index lookup list_lookup mbind
       result_bind].
  rewrite class_balance_ok
    by (repeat (apply Forall_cons; split; [reflexivity|]); by apply Forall_nil).
  cbn [mbind result_bind]. by eexists.
Qed.
End NoCategory.

Lemma cas_without_categories_gives_nan_witness :
  grouped [[annotated []; annotated []]]
  /\ Forall (fun d => categories_of d = []) [annotated []; annotated []]
  /\ exists self,
       Sampler.__init__ single_process
                        (concat [[annotated []; annotated []]]) [1%R]
                        [false] [true] ["box"%string] 1%R (Some 0%Z) = Ok self
       /\ Forall2 (fun d w => dataset_source d = 0 -> w = NonFin)
                  (concat [[annotated []; annotated []]]) (Sampler.weights self)
       /\ valid_weights (Sampler.weights self) = false
       /\ first_indices (G := counter_generator) self 1 = Raise RuntimeError.
Proof.
  assert (H1 : grouped [[annotated []; annotated []]])
    by (by apply grouped_one; repeat constructor).
  assert (H2 : Forall (fun d => categories_of d = [])
                      [annotated []; annotated []])
    by (repeat constructor).
  split; [exact H1|]. split; [exact H2|].
  destruct init_no_category as [self Hinit].
  exists self. split; [exact Hinit|].
  apply (cas_without_categories_gives_nan (G := counter_generator)
           single_process [[annotated []; annotated []]] [1%R] [false] [true]
           ["box"%string] 1%R (Some 0%Z) self 0
           [annotated []; annotated []] 0 H1);
    [done|done|done|done|exact H2|simpl; lia|exact Hinit].
Defined.

(* ================================================================= *)
(** ** More on the estimators *)

Lemma count_ids_raises (ids : record -> result (list nat)) (e : exn)
    (dataset_dicts : list record) :
  (forall d e', ids d = Raise e' -> e' = e) ->
  Exists (fun d => ids d = Raise e) dataset_dicts ->
  count_ids ids dataset_dicts = Raise e.
Proof.
  intros Honly Hex. unfold count_ids. generalize (∅ : gmap nat nat).
  induction Hex as [d rest Hd|d rest _ IH]; intros m; simpl.
  - by rewrite Hd.
  - destruct (ids d) as [l|e'] eqn:Hd; simpl; [apply IH|].
    by rewrite (Honly d e' Hd).
Qed.

Lemma occurrences_concat c idss :
  occurrences c idss = length (filter (fun x => x = c) (concat idss)).
Proof.
  unfold occurrences. induction idss as [|ids idss IH]; [done|].
  rewrite fmap_cons. cbn [concat sum_list sum_list_with].
  by rewrite filter_app, length_app, <- IH.
Qed.

Section CountingSums.
Local Open Scope R_scope.

Lemma pysum_app (l1 l2 : list R) : pysum (l1 ++ l2) = pysum l1 + pysum l2.
Proof.
  induction l1 as [|x l1 IH]; simpl.
  - rewrite pysum_nil. lra.
  - rewrite !pysum_cons, IH. lra.
Qed.

Lemma pysum_concat_fmap {A} (g : A -> R) (ls : list (list A)) :
  pysum ((fun l => pysum (g <$> l)) <$> ls) = pysum (g <$> concat ls).
Proof.
  induction ls as [|l ls IH]; [done|].
  csimpl. rewrite fmap_app, pysum_app, pysum_cons, IH. done.
Qed.

Lemma pysum_ones (l : list R) :
  Forall (fun x => x = 1) l -> pysum l = INR (length l).
Proof.
  induction 1 as [|x l -> _ IH]; [done|].
  rewrite pysum_cons, IH. cbn [length]. rewrite S_INR. lra.
Qed.

(** Adding one occurrence of [x] to the counts [n] adds [g x] to a sum over
    a duplicate-free list that contains [x], and nothing otherwise. *)
Lemma pysum_count_one_more (g : nat -> R) (n : nat -> nat) (x : nat)
    (l : list nat) :
  NoDup l ->
  pysum ((fun c => INR ((if decide (x = c) then 1 else 0) + n c) * g c) <$> l)
  = (if decide (x ∈ l) then g x else 0)
    + pysum ((fun c => INR (n c) * g c) <$> l).
Proof.
  induction 1 as [|c l Hc Hnd IH].
  - rewrite decide_False by apply not_elem_of_nil. csimpl.
    rewrite pysum_nil. lra.
  - csimpl. rewrite !pysum_cons, IH. rewrite plus_INR.
    destruct (decide (x = c)) as [->|Hxc].
    + rewrite (decide_True (P := c ∈ c :: l)) by apply list_elem_of_here.
      rewrite (decide_False (P := c ∈ l)) by done. simpl. lra.
    + destruct (decide (x ∈ l)) as [Hin|Hin].
      * rewrite (decide_True (P := x ∈ c :: l))
          by by apply list_elem_of_further.
        simpl. lra.
      * rewrite (decide_False (P := x ∈ c :: l)); [simpl; lra|].
        intros [?|?]%elem_of_cons; done.
Qed.

(** A sum over a list, collected by distinct element. *)
Lemma pysum_by_distinct (g : nat -> R) (l : list nat) :
  pysum (g <$> l)
  = pysum ((fun c => INR (length (filter (fun x => x = c) l)) * g c)
             <$> remove_dups l).
Proof.
  induction l as [|x l IH]; [done|].
  rewrite fmap_cons, pysum_cons, IH.
  rewrite (list_fmap_ext
             (fun c => INR (length (filter (fun y => y = c) (x :: l))) * g c)
             (fun c => INR ((if decide (x = c) then 1 else 0)
                            + length (filter (fun y => y = c) l)) * g c)
             (remove_dups (x :: l))).
  2:{ intros _ c _. simpl. rewrite filter_cons. by case_decide. }
  cbn [remove_dups].
  destruct (decide_rel elem_of x l) as [Hin|Hin].
  - rewrite (pysum_count_one_more
               g (fun c => length (filter (fun y => y = c) l)) x)
      by apply NoDup_remove_dups.
    by rewrite decide_True by by apply elem_of_remove_dups.
  - rewrite fmap_cons, pysum_cons.
    rewrite (pysum_count_one_more
               g (fun c => length (filter (fun y => y = c) l)) x)
      by apply NoDup_remove_dups.
    rewrite (decide_False (P := x ∈ remove_dups l))
      by by rewrite elem_of_remove_dups.
    rewrite (decide_True (P := x = x)) by done.
    assert (length (filter (fun y => y = x) l) = 0%nat) as ->.
    { apply length_zero_iff_nil, filter_none, Forall_forall.
      by intros y Hy ->. }
    simpl. lra.
Qed.

(** The class-balance factors of a dataset add up to its number of
    distinct categories: every category carries the total mass 1. *)
Lemma balance_factors_sum (idss : list (list nat)) :
  pysum ((fun ids => balance_factor idss ids) <$> idss)
  = INR (length (remove_dups (concat idss))).
Proof.
  unfold balance_factor.
  rewrite (pysum_concat_fmap (fun c => 1 / INR (occurrences c idss)) idss).
  rewrite pysum_by_distinct.
  rewrite pysum_ones; [by rewrite length_fmap|].
  apply Forall_fmap, Forall_forall. intros c Hc. simpl.
  rewrite elem_of_remove_dups in Hc.
  rewrite occurrences_concat.
  assert (0 < length (filter (fun x => x = c) (concat idss)))%nat as Hpos.
  { destruct (filter _ _) eqn:Hf; [|simpl; lia].
    assert (c ∈ filter (fun x => x = c) (concat idss)) as Hcf
      by (by apply list_elem_of_filter).
    rewrite Hf in Hcf. by apply elem_of_nil in Hcf. }
  field. apply not_0_INR. lia.
Qed.

(** X19. What [_get_class_balance_factor_per_dataset] computes and when it
    fails.  A record without the ["annotations"] key makes it raise
    [KeyError]; otherwise it returns one finite factor per record, never
    negative, zero exactly for the records without any category, and the
    factors of the dataset add up to its number of distinct categories (each
    category carries the same total mass 1).  It never divides by zero. *)
Theorem class_balance_factors (dataset_dicts : list record) :
  (Exists (fun d => annotations d = None) dataset_dicts
   /\ _get_class_balance_factor_per_dataset dataset_dicts 1 = Raise KeyError)
  \/ (Forall (fun d => is_Some (annotations d)) dataset_dicts
      /\ exists factors : list R,
           _get_class_balance_factor_per_dataset dataset_dicts 1
           = Ok (of_list factors)
           /\ Forall2 (fun d x => 0 <= x /\ (x = 0 <-> categories_of d = []))
                      dataset_dicts factors
           /\ pysum factors
              = INR (length (remove_dups
                               (concat (categories_of <$> dataset_dicts))))).
Proof.
  destruct (decide (Exists (fun d => annotations d = None) dataset_dicts))
    as [Hex|Hex].
  - left. split; [done|]. unfold _get_class_balance_factor_per_dataset.
    rewrite (count_ids_raises category_set KeyError); [done| |].
    + intros d e'. unfold category_set, getkey.
      destruct (annotations d); [done|]. by intros [= <-].
    + eapply Exists_impl; [exact Hex|]. simpl. intros d Hd.
      unfold category_set. by rewrite Hd.
  - right.
    assert (Hall : Forall (fun d => is_Some (annotations d)) dataset_dicts).
    { apply Forall_forall. intros d Hd.
      destruct (annotations d) eqn:Ha; [by eexists|].
      exfalso. apply Hex, Exists_exists. by exists d. }
    split; [done|].
    assert (Hids : Forall (fun d => category_set d = Ok (categories_of d))
                          dataset_dicts).
    { eapply Forall_impl; [exact Hall|]. simpl. intros d [anns Ha].
      unfold category_set, categories_of. by rewrite Ha. }
    eexists. split; [by apply class_balance_ok|]. split.
    + apply Forall2_fmap_same. intros d Hd. split.
      * apply balance_factor_nonneg.
      * split.
        -- intros Hzero. destruct (categories_of d) eqn:Hc; [done|].
           exfalso.
           pose proof (balance_factor_pos (categories_of <$> dataset_dicts)
                         (categories_of d)) as Hpos.
           rewrite Hc in Hpos. rewrite Hzero in Hpos.
           apply (Rlt_irrefl 0), Hpos; [done|].
           rewrite <- Hc. apply list_elem_of_fmap. by exists d.
        -- intros ->. apply balance_factor_nil.
    + rewrite <- balance_factors_sum. f_equal.
      by rewrite <- list_fmap_compose.
Qed.
End CountingSums.

Lemma dict_forM_all_raise {A B} (m : gmap nat A) (f : A -> result B) (e : exn) :
  m <> ∅ -> (forall k v, m !! k = Some v -> f v = Raise e) ->
  dict_forM m f = Raise e.
Proof.
  intros Hne Hall.
  cut ((forall k v, m !! k = Some v -> f v = Raise e) ->
       (m = ∅ -> dict_forM m f = Ok ∅) /\ (m <> ∅ -> dict_forM m f = Raise e)).
  { intros H. by apply H. }
  clear Hne Hall. unfold dict_forM.
  apply (map_fold_weak_ind
           (fun (r : result (gmap nat B)) (m' : gmap nat A) =>
              (forall k v, m' !! k = Some v -> f v = Raise e) ->
              (m' = ∅ -> r = Ok ∅) /\ (m' <> ∅ -> r = Raise e))).
  - intros _. by split.
  - intros k v m' r Hk IH Hall. split.
    + intros Hempty. by apply insert_non_empty in Hempty.
    + intros _. destruct IH as [IH0 IH1].
      * intros k' v' Hk'. apply (Hall k' v').
        rewrite lookup_insert_ne; [done|]. intros ->. congruence.
      * destruct (decide (m' = ∅)) as [Hm|Hm].
        -- rewrite (IH0 Hm). simpl.
           by rewrite (Hall k v) by apply lookup_insert_eq.
        -- by rewrite (IH1 Hm).
Qed.

Lemma occurrences_all_nil c (idss : list (list nat)) :
  Forall (fun ids => ids = []) idss -> occurrences c idss = 0.
Proof.
  intros Hall. rewrite occurrences_concat.
  assert (concat idss = []) as ->; [|done].
  induction Hall as [|ids idss -> _ IH]; [done|]. done.
Qed.

Section TagFrequencyOutcomes.
Local Open Scope R_scope.

(** X20. The outcomes of [repeat_factors_from_tag_frequency].  A record
    without the ["pos_category_ids"] key makes it raise [KeyError]; with a
    negative threshold and at least one tag in the dataset, [math.sqrt]
    raises [ValueError]; in every other case (an empty dataset included) it
    returns one factor per record, none below 1.  It never divides by
    zero. *)
Theorem tag_repeat_factors_outcomes (dataset_dicts : list record)
    (repeat_thresh : R) :
  (Exists (fun d => pos_category_ids d = None) dataset_dicts
   /\ repeat_factors_from_tag_frequency dataset_dicts repeat_thresh
      = Raise KeyError)
  \/ (Forall (fun d => is_Some (pos_category_ids d)) dataset_dicts
      /\ repeat_thresh < 0
      /\ Exists (fun d => tags_of d <> []) dataset_dicts
      /\ repeat_factors_from_tag_frequency dataset_dicts repeat_thresh
         = Raise ValueError)
  \/ (Forall (fun d => is_Some (pos_category_ids d)) dataset_dicts
      /\ (0 <= repeat_thresh
          \/ Forall (fun d => tags_of d = []) dataset_dicts)
      /\ exists factors : list R,
           repeat_factors_from_tag_frequency dataset_dicts repeat_thresh
           = Ok (of_list factors)
           /\ length factors = length dataset_dicts
           /\ Forall (fun x => 1 <= x) factors).
Proof.
  unfold repeat_factors_from_tag_frequency.
  destruct (decide (Exists (fun d => pos_category_ids d = None) dataset_dicts))
    as [Hex|Hex].
  { left. split; [done|]. unfold repeat_factors_from_ids.
    rewrite (count_ids_raises tag_ids KeyError); [done| |].
    - intros d e'. unfold tag_ids, getkey.
      destruct (pos_category_ids d); [done|]. by intros [= <-].
    - eapply Exists_impl; [exact Hex|]. simpl. intros d Hd.
      unfold tag_ids. by rewrite Hd. }
  right.
  assert (Hall : Forall (fun d => is_Some (pos_category_ids d)) dataset_dicts).
  { apply Forall_forall. intros d Hd.
    destruct (pos_category_ids d) eqn:Ha; [by eexists|].
    exfalso. apply Hex, Exists_exists. by exists d. }
  assert (Hids : Forall (fun d => tag_ids d = Ok (tags_of d)) dataset_dicts).
  { eapply Forall_impl; [exact Hall|]. simpl. intros d [tags Ht].
    unfold tag_ids, tags_of. by rewrite Ht. }
  destruct (Rle_dec 0 repeat_thresh) as [Hthresh|Hthresh].
  { right. split; [done|]. split; [by left|].
    eexists. split; [by apply repeat_factors_from_ids_ok|].
    split; [by rewrite length_fmap|].
    apply Forall_fmap, Forall_forall. intros d _. apply rep_factor_ge_1. }
  apply Rnot_le_lt in Hthresh.
  destruct (count_ids_lookup tag_ids tags_of dataset_dicts Hids)
    as (m & Hcount & Hm).
  destruct (decide (Exists (fun d => tags_of d <> []) dataset_dicts))
    as [Htag|Htag].
  - left. split; [done|]. split; [done|]. split; [done|].
    unfold repeat_factors_from_ids. rewrite Hcount. cbn [mbind result_bind].
    set (n := length dataset_dicts).
    assert (Hn : forall k v, m !! k = Some v -> 0 < INR v /\ 0 < INR n).
    { intros k v Hk. rewrite Hm in Hk. apply bumped_None_Some in Hk as [-> Hk].
      split; [apply INR_pos; lia|].
      apply INR_pos. unfold n. destruct dataset_dicts; [|simpl; lia].
      rewrite occurrences_nil in Hk. lia. }
    rewrite (dict_forM_ok m _ (fun v => INR v / INR n)).
    2:{ intros k v Hk. destruct (Hn k v Hk) as (_ & Hpos).
        unfold pydiv. rewrite decide_False by lra. done. }
    cbn [mbind result_bind].
    rewrite (dict_forM_all_raise _ _ ValueError); [done| |].
    + apply Exists_exists in Htag as (d & Hd & Hne).
      destruct (tags_of d) as [|c tags] eqn:Htags; [done|].
      assert (1 <= occurrences c (tags_of <$> dataset_dicts))%nat as Hocc.
      { apply (occurrences_elem c (tags_of d)).
        - apply list_elem_of_fmap. by exists d.
        - rewrite Htags. apply list_elem_of_here. }
      intros Hempty.
      assert (((fun v => INR v / INR n) <$> m) !! c = None) as Hnone
        by (by rewrite Hempty).
      rewrite lookup_fmap, Hm in Hnone. unfold bumped in Hnone.
      rewrite decide_False in Hnone by lia. done.
    + intros k cf Hk. rewrite lookup_fmap in Hk.
      destruct (m !! k) as [v|] eqn:Hv; [|done]. injection Hk as <-.
      destruct (Hn k v Hv) as (Hv' & Hn').
      assert (0 < INR v / INR n) by (by apply Rdiv_lt_0_compat).
      unfold pydiv. rewrite decide_False by lra. cbn [mbind result_bind].
      unfold pysqrt. rewrite decide_True; [done|].
      assert (0 < / (INR v / INR n)) by (by apply Rinv_0_lt_compat).
      unfold Rdiv at 1. nra.
  - right.
    assert (Hnone : Forall (fun d => tags_of d = []) dataset_dicts).
    { apply Forall_forall. intros d Hd.
      destruct (tags_of d) eqn:Ht; [done|].
      exfalso. apply Htag, Exists_exists. exists d. by rewrite Ht. }
    split; [done|]. split; [by right|].
    exists ((fun _ => 1) <$> dataset_dicts).
    split; [|split; [by rewrite length_fmap|]].
    + unfold repeat_factors_from_ids. rewrite Hcount. cbn [mbind result_bind].
      assert (m = ∅) as ->.
      { apply map_eq. intros c. rewrite Hm, lookup_empty.
        rewrite occurrences_all_nil; [done|]. by apply Forall_fmap. }
      rewrite dict_forM_empty. cbn [mbind result_bind].
      rewrite dict_forM_empty. cbn [mbind result_bind].
      rewrite (forM_ok_in dataset_dicts _ (fun _ => 1)); [done|].
      intros d Hd. rewrite Forall_forall in Hids, Hnone.
      by rewrite (Hids d Hd), (Hnone d Hd).
    + apply Forall_fmap, Forall_forall. intros d _. simpl. lra.
Qed.
End TagFrequencyOutcomes.

(* ================================================================= *)
(** ** More on the sampler's iteration *)

Lemma forM_Forall {A B} (P : B -> Prop) (f : A -> result B) (l : list A) :
  (forall x y, f x = Ok y -> P y) ->
  forall ys, forM l f = Ok ys -> Forall P ys.
Proof.
  intros Hf. induction l as [|x l IH]; intros ys; simpl.
  - intros [= <-]. constructor.
  - destruct (f x) as [y|] eqn:Hy; simpl; [|done].
    destruct (forM l f) as [ys'|]; simpl; [|done].
    intros [= <-]. constructor; [by eapply Hf|by apply IH].
Qed.

Lemma forM_is_Ok {A B} (f : A -> result B) (l : list A) :
  (forall x, is_Ok (f x)) -> is_Ok (forM l f).
Proof.
  intros Hf. induction l as [|x l [ys IH]]; [by eexists|].
  simpl. destruct (Hf x) as [y ->]. simpl. rewrite IH. by eexists.
Qed.

Section ValidIndices.
Context `{G : Generator}.

Lemma draw_next_bound w E st x st' :
  w <> [] ->
  Forall (fun i => i < length w) (pending st) ->
  draw_next w E st = Ok (x, st') ->
  x < length w /\ Forall (fun i => i < length w) (pending st').
Proof.
  intros Hw Hp. unfold draw_next.
  destruct (pending st) as [|i rest] eqn:Hpend.
  - pose proof (draws_lt w E (g st) Hw) as Hd.
    destruct (draws w E (g st)) as [[|i rest] g']; [done|].
    intros [= <- <-]. simpl in *. by apply Forall_cons in Hd.
  - intros [= <- <-]. simpl. by apply Forall_cons in Hp.
Qed.

Lemma item_draw_next_bound w E p :
  w <> [] ->
  forall st x,
    Forall (fun i => i < length w) (pending st) ->
    item (draw_next w E) st p = Ok x ->
    x < length w.
Proof.
  intros Hw. induction p as [|p IH]; intros st x Hp.
  - rewrite item_0.
    destruct (draw_next w E st) as [[y st']|] eqn:Hd; [|done].
    intros [= <-]. by destruct (draw_next_bound _ _ _ _ _ Hw Hp Hd).
  - rewrite item_S.
    destruct (draw_next w E st) as [[y st']|] eqn:Hd; [|done].
    simpl. apply IH. by destruct (draw_next_bound _ _ _ _ _ Hw Hp Hd).
Qed.

(** X21. A constructed sampler whose weights torch accepts serves every
    rank for ever with valid dataset indices: for every [k], the first [k]
    indices handed to the process are there, and each of them is below the
    number of records the sampler was built from. *)
Theorem sampler_yields_valid_indices (c : comm) (dataset_dicts : list record)
    (dataset_ratio : list R) (use_rfs use_cas : list bool)
    (dataset_ann : list string) (repeat_threshold : R) (seed : option Z)
    (self : Sampler.t) (k : nat) :
  Sampler.__init__ c dataset_dicts dataset_ratio use_rfs use_cas dataset_ann
                   repeat_threshold seed = Ok self ->
  valid_weights (Sampler.weights self) = true ->
  1 <= get_world_size c ->
  exists ids,
    first_indices self k = Ok ids
    /\ length ids = k
    /\ Forall (fun i => i < length dataset_dicts) ids.
Proof.
  intros Hinit Hvalid HW.
  destruct (init_shape _ _ _ _ _ _ _ _ _ Hinit)
    as (_ & Hids & Hlen & He & _ & _ & HWs).
  pose proof (valid_weights_nonempty _ Hvalid) as Hne.
  assert (Hready : ready self).
  { split; [|split; [done|]].
    - rewrite He, <- Hlen. destruct (Sampler.weights self); [done|simpl; lia].
    - rewrite Hids, length_fmap. unfold tensor in *. lia. }
  rewrite (first_indices_draw_next self k Hready) by lia.
  set (F := fun i : nat => item _ _ _).
  destruct (forM_is_Ok F (seq 0 k)) as [ids Hrun].
  { intros i. apply item_ok. intros st. apply draw_next_ok.
    rewrite He, <- Hlen. destruct (Sampler.weights self); [done|simpl; lia]. }
  exists ids. split; [done|]. split.
  - rewrite (forM_length _ _ _ Hrun). apply length_seq.
  - rewrite <- Hlen.
    apply (forM_Forall _ F (seq 0 k)); [|done].
    intros i x. unfold F. apply item_draw_next_bound; [done|constructor].
Qed.
End ValidIndices.

Lemma sampler_yields_valid_indices_witness :
  Sampler.__init__ single_process [annotated [0%nat]; annotated []] [1%R]
                   [false] [true] ["box"%string] 1%R (Some 0%Z)
  = Ok zero_weight_sampler
  /\ valid_weights (Sampler.weights zero_weight_sampler) = true
  /\ exists ids,
       first_indices (G := counter_generator) zero_weight_sampler 5 = Ok ids
       /\ length ids = 5
       /\ Forall (fun i => i < 2) ids.
Proof.
  assert (H2 : valid_weights (Sampler.weights zero_weight_sampler) = true).
  { unfold valid_weights. simpl.
    rewrite !bool_decide_true by lra. done. }
  split; [exact init_zero_weight|]. split; [exact H2|].
  apply (sampler_yields_valid_indices (G := counter_generator) _ _ _ _ _ _ _ _
           zero_weight_sampler 5 init_zero_weight H2).
  simpl. lia.
Defined.

Section Epochs.
Context `{G : Generator}.

Lemma take_iter_add {St A} (next : iterator St A) (a b : nat) :
  forall st,
    take_iter next (a + b) st
    = xs ← take_iter next a st;
      st' ← drain next a st;
      ys ← take_iter next b st';
      Ok (xs ++ ys).
Proof.
  induction a as [|a IH]; intros st.
  - simpl. by destruct (take_iter next b st).
  - cbn [Nat.add take_iter drain].
    destruct (next st) as [[x st1]|]; [|done]. cbn [mbind result_bind].
    rewrite IH.
    destruct (take_iter next a st1) as [xs|]; [|done]. cbn [mbind result_bind].
    destruct (drain next a st1) as [st2|]; [|done]. cbn [mbind result_bind].
    by destruct (take_iter next b st2).
Qed.

Lemma take_iter_ext {St A} (next next' : iterator St A) :
  (forall st, next st = next' st) ->
  forall k st, take_iter next k st = take_iter next' k st.
Proof.
  intros Hext. induction k as [|k IH]; intros st; [done|].
  simpl. rewrite Hext. destruct (next' st) as [[x st']|]; [|done].
  simpl. by rewrite IH.
Qed.

Lemma draws_length w n g0 : length (draws w n g0).1 = n.
Proof.
  revert g0. induction n as [|n IH]; intros g0; [done|].
  simpl. destruct (draw w g0) as [i g1]. specialize (IH g1).
  destruct (draws w n g1) as [ids g2]. simpl in *. by rewrite IH.
Qed.

(** Handing out what [yield from] still holds. *)
Lemma draw_next_pending w E ids g0 :
  take_iter (draw_next w E) (length ids) {| g := g0; pending := ids |} = Ok ids
  /\ drain (draw_next w E) (length ids) {| g := g0; pending := ids |}
     = Ok {| g := g0; pending := [] |}.
Proof.
  induction ids as [|i ids [IH1 IH2]]; [done|].
  cbn [length take_iter drain draw_next pending g mbind result_bind].
  rewrite IH1, IH2. done.
Qed.

(** One epoch: a fresh call of [torch.multinomial], handed out in full. *)
Lemma draw_next_epoch w E g0 :
  1 <= E ->
  take_iter (draw_next w E) E {| g := g0; pending := [] |}
  = Ok (draws w E g0).1
  /\ drain (draw_next w E) E {| g := g0; pending := [] |}
     = Ok {| g := (draws w E g0).2; pending := [] |}.
Proof.
  intros HE. pose proof (draws_length w E g0) as Hlen.
  destruct E as [|E']; [lia|].
  destruct (draws w (S E') g0) as [[|i ids] g1] eqn:Hd; [done|].
  assert (Hstep : draw_next w (S E') {| g := g0; pending := [] |}
                  = Ok (i, {| g := g1; pending := ids |})).
  { unfold draw_next. cbn [pending g]. by rewrite Hd. }
  cbn [take_iter drain]. rewrite Hstep. cbn [mbind result_bind fst snd].
  simpl in Hlen. injection Hlen as <-.
  destruct (draw_next_pending w (S (length ids)) ids g1) as [-> ->].
  done.
Qed.

Lemma draw_next_epochs w E n :
  1 <= E ->
  forall g0,
    take_iter (draw_next w E) (n * E) {| g := g0; pending := [] |}
    = Ok (epochs w E n g0).
Proof.
  intros HE. induction n as [|n IH]; intros g0; [done|].
  cbn [Nat.mul epochs]. rewrite take_iter_add.
  destruct (draw_next_epoch w E g0 HE) as [-> ->].
  cbn [mbind result_bind]. rewrite IH.
  by destruct (draws w E g0).
Qed.

(** X22. The global stream comes in epochs.  For a sampler that is ready
    to iterate, the first [n * sample_epoch_size] indices of the global stream
    are the results of [n] successive calls of [torch.multinomial], each
    drawing [sample_epoch_size] indices with the same weights, the first
    from the generator seeded with the sampler's seed and each later one
    from the generator state its predecessor left. *)
Theorem global_stream_by_epochs (self : Sampler.t) (n : nat) :
  ready self ->
  global_prefix self (n * Sampler.sample_epoch_size self)
  = Ok (epochs (Sampler.weights self) (Sampler.sample_epoch_size self) n
               (manual_seed (Sampler._seed self))).
Proof.
  intros Hready. unfold global_prefix, _infinite_indices.
  rewrite (take_iter_ext (indices_next self)
             (draw_next (Sampler.weights self)
                        (Sampler.sample_epoch_size self)))
    by (intros st; by apply indices_next_draw_next).
  apply draw_next_epochs. by destruct Hready.
Qed.
End Epochs.

Lemma global_stream_by_epochs_witness :
  ready sample_sampler
  /\ global_prefix (G := counter_generator) sample_sampler
                   (2 * Sampler.sample_epoch_size sample_sampler)
     = Ok (epochs (G := counter_generator) (Sampler.weights sample_sampler)
                  (Sampler.sample_epoch_size sample_sampler) 2
                  (manual_seed (Generator := counter_generator)
                               (Sampler._seed sample_sampler))).
Proof.
  split; [exact sample_sampler_ready|].
  exact (global_stream_by_epochs (G := counter_generator) sample_sampler 2
           sample_sampler_ready).
Defined.
